(** * agro-llm-hack: a shallow embedding of the report pipeline

    The development follows the Python sources of the bot:
    - [bot/src/utils.py]          ([clean_string], [is_allowed], [is_admin],
                                   [MistralAPIInference.predict], [send_and_receive]);
    - [bot/src/image_utils.py]    ([order_points]);
    - [bot/src/report_builder.py] ([OperationEntry], [ReportBuilder]);
    - [bot/src/telegram_bot.py]   (the correction dialogue of [prompt],
                                   [button_callback]);
    - [bot/src/worker.py]         ([handle_message]);
    - [db/interaction.py], [db/models.py] ([insert_objects],
                                   [update_record_by_id], [OperationInfo]).

    Python [str] values are sequences of Unicode code points, dictionaries
    are insertion-ordered association lists, exceptions are an explicit
    [result] type, and the mutable process state (the allowed-value lists,
    the inference backend) is threaded through a small state monad. *)

From Stdlib Require Import ZArith NArith List String Ascii Lia Bool.
From stdpp Require Import base option list numbers.
Import ListNotations.

Set Warnings "-register-all".

Local Open Scope N_scope.

(* ===================================================================== *)
(** * Python strings *)
(* ===================================================================== *)

(** A Python [str] is a sequence of code points. *)
Abbreviation pystr := (list N).

Definition bytes_of_string (s : string) : list N :=
  map N_of_ascii (list_ascii_of_string s).

(** UTF-8 decoding of the bytes of a source literal: [pending] continuation
    bytes are still expected and [acc] holds the bits read so far. *)
Fixpoint utf8_go (pending : nat) (acc : N) (bs : list N) : pystr :=
  match bs with
  | [] => []
  | b :: rest =>
      match pending with
      | O =>
          if b <? 128 then b :: utf8_go 0 0 rest
          else if b <? 224 then utf8_go 1 (b - 192) rest
          else if b <? 240 then utf8_go 2 (b - 224) rest
          else utf8_go 3 (b - 240) rest
      | S O => (acc * 64 + (b - 128)) :: utf8_go 0 0 rest
      | S k => utf8_go k (acc * 64 + (b - 128)) rest
      end
  end.

(** [u "..."] is the Python string written as a literal. *)
Definition u (s : string) : pystr := utf8_go 0 0 (bytes_of_string s).

(** [jq "..."] is the same with every apostrophe read as a double quote,
    which lets JSON texts be written as literals. *)
Definition jq (s : string) : pystr :=
  map (fun c => if c =? 39 then 34 else c) (u s).

Definition str_eqb (a b : pystr) : bool := bool_decide (a = b).

(** [prefix_of p s]: [s.startswith(p)]. *)
Fixpoint prefix_of (p s : pystr) : bool :=
  match p, s with
  | [], _ => true
  | _ :: _, [] => false
  | a :: p', b :: s' => (a =? b) && prefix_of p' s'
  end.

(** [contains p s]: the Python test [p in s] on strings. *)
Fixpoint contains (p s : pystr) : bool :=
  prefix_of p s ||
  match s with
  | [] => false
  | _ :: s' => contains p s'
  end.

(** [str.split(sep)] for a one-character separator. *)
Fixpoint split_on (sep : N) (s : pystr) : list pystr :=
  match s with
  | [] => [[]]
  | c :: rest =>
      if c =? sep then [] :: split_on sep rest
      else match split_on sep rest with
           | w :: ws => (c :: w) :: ws
           | [] => [[c]]
           end
  end.

(** Decimal digits, for [str(n)] on integers. *)
Fixpoint digits_of_uint (d : Decimal.uint) : pystr :=
  match d with
  | Decimal.Nil => []
  | Decimal.D0 d => 48 :: digits_of_uint d
  | Decimal.D1 d => 49 :: digits_of_uint d
  | Decimal.D2 d => 50 :: digits_of_uint d
  | Decimal.D3 d => 51 :: digits_of_uint d
  | Decimal.D4 d => 52 :: digits_of_uint d
  | Decimal.D5 d => 53 :: digits_of_uint d
  | Decimal.D6 d => 54 :: digits_of_uint d
  | Decimal.D7 d => 55 :: digits_of_uint d
  | Decimal.D8 d => 56 :: digits_of_uint d
  | Decimal.D9 d => 57 :: digits_of_uint d
  end.

Definition str_of_int (z : Z) : pystr :=
  match Z.to_int z with
  | Decimal.Pos d => digits_of_uint d
  | Decimal.Neg d => 45 :: digits_of_uint d
  end.

(** [Py_UNICODE_ISSPACE]: the characters matched by the regular expression
    class [\s] on [str] patterns and removed by [str.strip()]. *)
Definition is_space (c : N) : bool :=
  ((9 <=? c) && (c <=? 13)) || ((28 <=? c) && (c <=? 32))
  || (c =? 133) || (c =? 160) || (c =? 5760)
  || ((8192 <=? c) && (c <=? 8202))
  || (c =? 8232) || (c =? 8233) || (c =? 8239) || (c =? 8287) || (c =? 12288).

(* ===================================================================== *)
(** * Python values and exceptions *)
(* ===================================================================== *)

(** Binary64 numbers are kept as the expression that denotes them: no
    property below depends on their bits. *)
Inductive pyfloat :=
| FLit (neg : bool) (mant : N) (exp10 : Z)   (* a decimal literal, mant * 10^exp10 *)
| FNaN
| FInf (neg : bool)
| FQuot (n d : Z)                            (* the true division n / d of integers *)
| FDiv (x : pyfloat) (d : Z).                (* x / d for a float x *)

(** The values [json.loads] produces; dictionaries keep insertion order. *)
Inductive value :=
| VNone
| VBool (b : bool)
| VInt (n : Z)
| VFloat (f : pyfloat)
| VStr (s : pystr)
| VList (l : list value)
| VDict (d : list (pystr * value)).

(** A record of the report: a dictionary keyed by strings. *)
Abbreviation dict := (list (pystr * value)).

(** [v == s] for a string [s]: only an equal string compares equal. *)
Definition py_eq_str (v : value) (s : pystr) : bool :=
  match v with
  | VStr s' => str_eqb s' s
  | _ => false
  end.

(** [x in l] where [l] is a list of strings. *)
Definition py_in_strs (x : value) (l : list pystr) : bool :=
  existsb (py_eq_str x) l.

Inductive exn :=
| ValueError
| ValidationError
| JSONDecodeError
| KeyError
| TypeError
| IndexError
| AttributeError
| OverflowError
| BackendError.

Inductive result (A : Type) :=
| Ok (a : A)
| Raise (e : exn).
Arguments Ok {A} a.
Arguments Raise {A} e.

(** ** Dictionaries *)

Fixpoint dict_get (k : pystr) (d : dict) : option value :=
  match d with
  | [] => None
  | (k', v) :: d' => if str_eqb k' k then Some v else dict_get k d'
  end.

Definition dict_has (k : pystr) (d : dict) : bool :=
  match dict_get k d with Some _ => true | None => false end.

(** [d[k] = v]: an existing key keeps its position, a new key goes last. *)
Fixpoint dict_set (k : pystr) (v : value) (d : dict) : dict :=
  match d with
  | [] => [(k, v)]
  | (k', v') :: d' =>
      if str_eqb k' k then (k, v) :: d' else (k', v') :: dict_set k v d'
  end.

(** [d.pop(k, None)] as far as [d] is concerned. *)
Definition dict_remove (k : pystr) (d : dict) : dict :=
  List.filter (fun kv => negb (str_eqb (fst kv) k)) d.

(** [d.pop(k)]: the value and the remaining dictionary, [KeyError] when
    the key is missing. *)
Definition dict_pop (k : pystr) (d : dict) : result (value * dict) :=
  match dict_get k d with
  | Some v => Ok (v, dict_remove k d)
  | None => Raise KeyError
  end.

Definition keys (d : dict) : list pystr := map fst d.

(* ===================================================================== *)
(** * utils.py: the allow-list check *)
(* ===================================================================== *)

Module Access.

(** The two entries of the configuration dictionary that the check reads
    (main.py builds it from the environment, both are strings). *)
Record config := {
  admin_user_ids : pystr;
  allowed_user_ids : pystr
}.

(** [is_admin(config, user_id)]. *)
Definition is_admin (cfg : config) (user_id : Z) : bool :=
  if str_eqb (admin_user_ids cfg) (u "-") then false
  else
    let admins := split_on 44 (admin_user_ids cfg) in
    if py_in_strs (VStr (str_of_int user_id)) admins then true else false.

(** [is_allowed(config, update, context)], where [user_id] stands for
    [update.message.from_user.id], an [int]. *)
Definition is_allowed (cfg : config) (user_id : Z) : bool :=
  if str_eqb (allowed_user_ids cfg) (u "*") then true
  else if is_admin cfg user_id then true
  else if py_in_strs (VInt user_id) (split_on 44 (allowed_user_ids cfg)) then true
  else false.

End Access.

(* ===================================================================== *)
(** * image_utils.py: ordering the corners of the table *)
(* ===================================================================== *)

Module Geometry.

Local Open Scope Z_scope.

(** A row of the [pts] array: the pixel coordinates [(x, y)]. *)
Definition point := (Z * Z)%type.

(** Two's-complement wrap-around of a signed [bits]-bit integer. *)
Definition wrap (bits : Z) (z : Z) : Z :=
  (z + 2 ^ (bits - 1)) mod 2 ^ bits - 2 ^ (bits - 1).

(** Storing an integer in a [float32] cell: 24 significant bits, rounded
    to nearest, ties to even.  The result is the integer the cell holds. *)
Definition f32_of_int (z : Z) : Z :=
  let a := Z.abs z in
  let k := Z.log2 a - 23 in
  if k <=? 0 then z
  else
    let q := Z.shiftr a k in
    let r := a - Z.shiftl q k in
    let half := Z.shiftl 1 (k - 1) in
    let q' := if (half <? r) || ((r =? half) && Z.odd q) then q + 1 else q in
    Z.sgn z * Z.shiftl q' k.

Definition f32_point (p : point) : point := (f32_of_int (fst p), f32_of_int (snd p)).

(** [np.argmin]: the index of the first occurrence of the minimum. *)
Fixpoint argmin_from (best_i : nat) (best : Z) (i : nat) (l : list Z) : nat :=
  match l with
  | [] => best_i
  | x :: t =>
      if x <? best then argmin_from i x (S i) t
      else argmin_from best_i best (S i) t
  end.

Definition argmin (l : list Z) : option nat :=
  match l with
  | [] => None
  | x :: t => Some (argmin_from 0 x 1 t)
  end.

(** [np.argmax]: the index of the first occurrence of the maximum. *)
Fixpoint argmax_from (best_i : nat) (best : Z) (i : nat) (l : list Z) : nat :=
  match l with
  | [] => best_i
  | x :: t =>
      if best <? x then argmax_from i x (S i) t
      else argmax_from best_i best (S i) t
  end.

Definition argmax (l : list Z) : option nat :=
  match l with
  | [] => None
  | x :: t => Some (argmax_from 0 x 1 t)
  end.

(** [pts.sum(axis=1)]: the row sums, accumulated in 64-bit integers. *)
Definition row_sums (pts : list point) : list Z :=
  map (fun p => wrap 64 (fst p + snd p)) pts.

(** [np.diff(pts, axis=1)]: second column minus first column, in the
    element type of [pts] ([bits] is 32 for the contours OpenCV returns
    and 64 for the bounding-box array built from Python integers). *)
Definition row_diffs (bits : Z) (pts : list point) : list Z :=
  map (fun p => wrap bits (snd p - fst p)) pts.

(** [order_points(pts)].  The result is the array [rect], rows 0 to 3;
    [None] stands for the [ValueError] numpy raises on an empty array. *)
Definition order_points (bits : Z) (pts : list point) : option (list point) :=
  let s := row_sums pts in
  let diff := row_diffs bits pts in
  match argmin s, argmax s, argmin diff, argmax diff with
  | Some i0, Some i2, Some i1, Some i3 =>
      match pts !! i0, pts !! i1, pts !! i2, pts !! i3 with
      | Some p0, Some p1, Some p2, Some p3 =>
          Some [f32_point p0; f32_point p1; f32_point p2; f32_point p3]
      | _, _, _, _ => None
      end
  | _, _, _, _ => None
  end.

End Geometry.

(* ===================================================================== *)
(** * utils.py: clean_string *)
(* ===================================================================== *)

Module Clean.

Definition fence_json : pystr := Eval vm_compute in u "```json".
Definition fence : pystr := Eval vm_compute in u "```".

(** [re.sub] of a fence, three backticks with or without the word json
    after them, by the empty string: at each position the longer
    alternative is tried first; [skip] counts the characters of the
    current match that are still to be dropped. *)
Fixpoint strip_fences (skip : nat) (s : pystr) : pystr :=
  match s with
  | [] => []
  | c :: t =>
      match skip with
      | S k => strip_fences k t
      | O =>
          if prefix_of fence_json s then strip_fences 6 t
          else if prefix_of fence s then strip_fences 2 t
          else c :: strip_fences 0 t
      end
  end.

(** [re.sub] of the two-character literal [a b] by [rep]. *)
Fixpoint replace_pair (a b : N) (rep : pystr) (s : pystr) : pystr :=
  match s with
  | [] => []
  | c :: t =>
      match t with
      | d :: t' =>
          if (c =? a) && (d =? b) then rep ++ replace_pair a b rep t'
          else c :: replace_pair a b rep t
      | [] => [c]
      end
  end.

(** [re.sub] of the one-character literal [a] by [rep]. *)
Definition replace_char (a : N) (rep : pystr) (s : pystr) : pystr :=
  flat_map (fun c => if c =? a then rep else [c]) s.

(** [re.sub(r"\s+", " ", s)]; [in_run] tells that the previous character
    belonged to the run of whitespace being replaced. *)
Fixpoint collapse_spaces (in_run : bool) (s : pystr) : pystr :=
  match s with
  | [] => []
  | c :: t =>
      if is_space c then
        if in_run then collapse_spaces true t else 32 :: collapse_spaces true t
      else c :: collapse_spaces false t
  end.

(** The characters the pattern of the next step excludes after a
    backslash: the double quote, the backslash, the slash and the letters
    b, f, n, r, t. *)
Definition is_escape_letter (c : N) : bool :=
  (c =? 34) || (c =? 92) || (c =? 47) || (c =? 98) || (c =? 102)
  || (c =? 110) || (c =? 114) || (c =? 116).

(** [re.sub] of a backslash followed by one character outside that
    class: the replacement template writes two backslashes and the
    character again. *)
Fixpoint escape_orphans (s : pystr) : pystr :=
  match s with
  | [] => []
  | c :: t =>
      match t with
      | d :: t' =>
          if (c =? 92) && negb (is_escape_letter d)
          then 92 :: 92 :: d :: escape_orphans t'
          else c :: escape_orphans t
      | [] => [c]
      end
  end.

Definition is_closer (c : N) : bool := (c =? 125) || (c =? 93).
Definition is_opener (c : N) : bool := (c =? 123) || (c =? 91).

(** [re.sub] of a closing bracket or brace, any whitespace, and an
    opening bracket or brace, by the two brackets with a comma between
    them.  After a closing bracket
    the whitespace that follows is held back in [pending] ([Some ws]): an
    opening bracket completes the match, and the whitespace is replaced by
    a comma; anything else ends the attempt, and the whitespace is put
    back. *)
Fixpoint insert_commas (pending : option pystr) (s : pystr) : pystr :=
  match s with
  | [] => match pending with Some ws => ws | None => [] end
  | c :: t =>
      if is_closer c then
        match pending with
        | Some ws => ws ++ c :: insert_commas (Some []) t
        | None => c :: insert_commas (Some []) t
        end
      else
        match pending with
        | Some ws =>
            if is_space c then insert_commas (Some (ws ++ [c])) t
            else if is_opener c then 44 :: c :: insert_commas None t
            else ws ++ c :: insert_commas None t
        | None => c :: insert_commas None t
        end
  end.

(** [str.lstrip()], [str.rstrip()] and [str.strip()]. *)
Fixpoint lstrip (s : pystr) : pystr :=
  match s with
  | [] => []
  | c :: t => if is_space c then lstrip t else s
  end.

Fixpoint rstrip (s : pystr) : pystr :=
  match s with
  | [] => []
  | c :: t =>
      match rstrip t with
      | [] => if is_space c then [] else [c]
      | t' => c :: t'
      end
  end.

Definition strip (s : pystr) : pystr := rstrip (lstrip s).

(** [clean_string(json_string)], one line of the source per step. *)
Definition clean_string (json_string : pystr) : pystr :=
  let cleaned_string := strip_fences 0 json_string in
  let cleaned_string := replace_pair 92 110 [] cleaned_string in
  let cleaned_string := replace_char 10 [] cleaned_string in
  let cleaned_string := collapse_spaces false cleaned_string in
  let cleaned_string := replace_char 9 [32] cleaned_string in
  let cleaned_string := replace_pair 92 116 [32] cleaned_string in
  let cleaned_string := escape_orphans cleaned_string in
  let cleaned_string := insert_commas None cleaned_string in
  strip cleaned_string.

End Clean.

(* ===================================================================== *)
(** * The json module: loads and dumps *)
(* ===================================================================== *)

Module Json.

(** Whitespace between tokens: space, tab, line feed, carriage return. *)
Definition is_ws (c : N) : bool := (c =? 32) || (c =? 9) || (c =? 10) || (c =? 13).

Fixpoint skip_ws (s : pystr) : pystr :=
  match s with
  | c :: t => if is_ws c then skip_ws t else s
  | [] => []
  end.

Definition is_digit (c : N) : bool := (48 <=? c) && (c <=? 57).

Definition hex_val (c : N) : option N :=
  if is_digit c then Some (c - 48)
  else if (97 <=? c) && (c <=? 102) then Some (c - 87)
  else if (65 <=? c) && (c <=? 70) then Some (c - 55)
  else None.

Definition hex4 (a b c d : N) : option N :=
  match hex_val a, hex_val b, hex_val c, hex_val d with
  | Some x, Some y, Some z, Some w => Some (((x * 16 + y) * 16 + z) * 16 + w)
  | _, _, _, _ => None
  end.

Definition is_high_surrogate (c : N) : bool := (55296 <=? c) && (c <=? 56319).
Definition is_low_surrogate (c : N) : bool := (56320 <=? c) && (c <=? 57343).
Definition join_surrogates (hi lo : N) : N :=
  65536 + (hi - 55296) * 1024 + (lo - 56320).

(** The character a one-letter escape stands for. *)
Definition simple_escape (e : N) : option N :=
  if e =? 34 then Some 34
  else if e =? 92 then Some 92
  else if e =? 47 then Some 47
  else if e =? 98 then Some 8
  else if e =? 102 then Some 12
  else if e =? 110 then Some 10
  else if e =? 114 then Some 13
  else if e =? 116 then Some 9
  else None.

Definition cons_fst (c : N) (r : option (pystr * pystr)) : option (pystr * pystr) :=
  match r with
  | Some (str, rest) => Some (c :: str, rest)
  | None => None
  end.

(** [scanstring] in strict mode, started after the opening quote: the
    decoded string and the text after the closing quote. *)
Fixpoint scanstring (s : pystr) : option (pystr * pystr) :=
  match s with
  | [] => None
  | c :: t =>
      if c =? 34 then Some ([], t)
      else if c =? 92 then
        match t with
        | [] => None
        | e :: t1 =>
            if e =? 117 then
              match t1 with
              | a :: b :: c2 :: d :: t2 =>
                  match hex4 a b c2 d with
                  | None => None
                  | Some hi =>
                      match t2 with
                      | x :: y :: a' :: b' :: c' :: d' :: t3 =>
                          if is_high_surrogate hi && (x =? 92) && (y =? 117) then
                            match hex4 a' b' c' d' with
                            | None => None
                            | Some lo =>
                                if is_low_surrogate lo
                                then cons_fst (join_surrogates hi lo) (scanstring t3)
                                else cons_fst hi (scanstring t2)
                            end
                          else cons_fst hi (scanstring t2)
                      | _ => cons_fst hi (scanstring t2)
                      end
                  end
              | _ => None
              end
            else
              match simple_escape e with
              | Some ch => cons_fst ch (scanstring t1)
              | None => None
              end
        end
      else if c <=? 31 then None
      else cons_fst c (scanstring t)
  end.

(** The longest prefix of digits and what follows it. *)
Fixpoint take_digits (s : pystr) : pystr * pystr :=
  match s with
  | c :: t =>
      if is_digit c then let '(ds, r) := take_digits t in (c :: ds, r)
      else ([], s)
  | [] => ([], [])
  end.

Definition nat_of_digits (ds : pystr) : N :=
  fold_left (fun acc c => acc * 10 + (c - 48)) ds 0.

(** The exponent part, if the text starts with one: [e] or [E], an
    optional sign and at least one digit. *)
Definition scan_exponent (s : pystr) : option (Z * pystr) :=
  match s with
  | c :: t =>
      if (c =? 101) || (c =? 69) then
        let '(neg, t') :=
          match t with
          | sg :: t1 => if sg =? 45 then (true, t1)
                        else if sg =? 43 then (false, t1) else (false, t)
          | [] => (false, t)
          end in
        match take_digits t' with
        | ([], _) => None
        | (ds, r) =>
            let e := Z.of_N (nat_of_digits ds) in
            Some (if neg then (- e)%Z else e, r)
        end
      else None
  | [] => None
  end.

(** What the scanner makes of the head of a text: a value and the rest,
    a text that is not JSON ([JSONDecodeError]), or an integer literal
    with more digits than [int] converts ([ValueError]). *)
Inductive scanned :=
| Scanned (v : value) (rest : pystr)
| Malformed
| TooLong.

(** [sys.get_int_max_str_digits()], at its default. *)
Definition max_str_digits : nat := Eval vm_compute in Z.to_nat 4300.

(** A number token, started after the optional minus sign. *)
Definition scan_number (neg : bool) (s : pystr) : scanned :=
  let int_part :=
    match s with
    | c :: t =>
        if c =? 48 then Some ([48], t)
        else if is_digit c then Some (take_digits s)
        else None
    | [] => None
    end in
  match int_part with
  | None => Malformed
  | Some (ids, r) =>
      let '(fds, r1) :=
        match r with
        | dot :: t =>
            if dot =? 46 then
              match take_digits t with
              | ([], _) => ([], r)
              | (fds, r1) => (fds, r1)
              end
            else ([], r)
        | [] => ([], r)
        end in
      let '(ex, r2) :=
        match scan_exponent r1 with
        | Some (e, r2) => (Some e, r2)
        | None => (None, r1)
        end in
      match fds, ex with
      | [], None =>
          if (max_str_digits <? length ids)%nat then TooLong
          else
            let n := Z.of_N (nat_of_digits ids) in
            Scanned (VInt (if neg then (- n)%Z else n)) r2
      | _, _ =>
          let e := match ex with Some e => e | None => 0%Z end in
          Scanned (VFloat (FLit neg (nat_of_digits (ids ++ fds))
                                (e - Z.of_nat (length fds)))) r2
      end
  end.

(** The elements of an array after the first bracket: [scan] reads one
    value, [n] bounds the number of elements. *)
Fixpoint scan_items (scan : pystr -> scanned) (n : nat)
    (acc : list value) (s : pystr) : scanned :=
  match n with
  | O => Malformed
  | S n' =>
      match scan s with
      | Scanned v r =>
          match skip_ws r with
          | c :: r' =>
              if c =? 93 then Scanned (VList (rev (v :: acc))) r'
              else if c =? 44 then scan_items scan n' (v :: acc) (skip_ws r')
              else Malformed
          | [] => Malformed
          end
      | failed => failed
      end
  end.

(** The members of an object after the first brace; a repeated key keeps
    its first position and takes the last value, as [dict] does. *)
Fixpoint scan_members (scan : pystr -> scanned) (n : nat)
    (acc : dict) (s : pystr) : scanned :=
  match n with
  | O => Malformed
  | S n' =>
      match s with
      | q :: t =>
          if q =? 34 then
            match scanstring t with
            | None => Malformed
            | Some (k, r) =>
                match skip_ws r with
                | colon :: r1 =>
                    if colon =? 58 then
                      match scan (skip_ws r1) with
                      | Scanned v r2 =>
                          match skip_ws r2 with
                          | c :: r3 =>
                              if c =? 125 then Scanned (VDict (dict_set k v acc)) r3
                              else if c =? 44
                              then scan_members scan n' (dict_set k v acc) (skip_ws r3)
                              else Malformed
                          | [] => Malformed
                          end
                      | failed => failed
                      end
                    else Malformed
                | [] => Malformed
                end
            end
          else Malformed
      | [] => Malformed
      end
  end.

Definition lit_null : pystr := Eval vm_compute in u "null".
Definition lit_true : pystr := Eval vm_compute in u "true".
Definition lit_false : pystr := Eval vm_compute in u "false".
Definition lit_nan : pystr := Eval vm_compute in u "NaN".
Definition lit_inf : pystr := Eval vm_compute in u "Infinity".
Definition lit_neg_inf : pystr := Eval vm_compute in u "-Infinity".

(** [scan_once]: one JSON value at the head of [s].  [fuel] bounds the
    nesting depth, which the length of the text bounds in turn. *)
Fixpoint scan_once (fuel : nat) (s : pystr) : scanned :=
  match fuel with
  | O => Malformed
  | S f =>
      match s with
      | [] => Malformed
      | c :: t =>
          if c =? 34 then
            match scanstring t with
            | Some (str, r) => Scanned (VStr str) r
            | None => Malformed
            end
          else if c =? 123 then
            match skip_ws t with
            | c' :: r =>
                if c' =? 125 then Scanned (VDict []) r
                else scan_members (scan_once f) (length s) [] (skip_ws t)
            | [] => Malformed
            end
          else if c =? 91 then
            match skip_ws t with
            | c' :: r =>
                if c' =? 93 then Scanned (VList []) r
                else scan_items (scan_once f) (length s) [] (skip_ws t)
            | [] => Malformed
            end
          else if prefix_of lit_null s then Scanned VNone (drop 4 s)
          else if prefix_of lit_true s then Scanned (VBool true) (drop 4 s)
          else if prefix_of lit_false s then Scanned (VBool false) (drop 5 s)
          else if prefix_of lit_nan s then Scanned (VFloat FNaN) (drop 3 s)
          else if prefix_of lit_inf s then Scanned (VFloat (FInf false)) (drop 8 s)
          else if prefix_of lit_neg_inf s then Scanned (VFloat (FInf true)) (drop 9 s)
          else if c =? 45 then scan_number true t
          else scan_number false s
      end
  end.

(** [json.loads(s)]: one value surrounded by optional whitespace and
    nothing else; a leading byte-order mark is refused.  An integer
    literal of more than [max_str_digits] digits stops the decoder with
    the [ValueError] of [int], wherever it stands in the text.  The
    nesting of arrays and objects is not bounded here: the recursion
    limit of the interpreter, which depends on the call stack of the
    moment, is outside the model. *)
Definition loads (s : pystr) : result value :=
  match s with
  | 65279 :: _ => Raise JSONDecodeError
  | _ =>
      match scan_once (S (length s)) (skip_ws s) with
      | Scanned v r =>
          match skip_ws r with
          | [] => Ok v
          | _ :: _ => Raise JSONDecodeError
          end
      | Malformed => Raise JSONDecodeError
      | TooLong => Raise ValueError
      end
  end.

(** The escapes [json.dumps] writes with [ensure_ascii=False]. *)
Definition hex_digit (n : N) : N := if n <? 10 then 48 + n else 87 + n.

Definition dump_char (c : N) : pystr :=
  if c =? 34 then [92; 34]
  else if c =? 92 then [92; 92]
  else if c =? 10 then [92; 110]
  else if c =? 13 then [92; 114]
  else if c =? 9 then [92; 116]
  else if c =? 8 then [92; 98]
  else if c =? 12 then [92; 102]
  else if c <? 32 then [92; 117; 48; 48; hex_digit (c / 16); hex_digit (c mod 16)]
  else [c].

Definition dump_str (s : pystr) : pystr := 34 :: flat_map dump_char s ++ [34].

(** [json.dumps(reports, ensure_ascii=False, indent=2, sort_keys=False)]
    for a list of strings: one element per line, indented by two spaces. *)
Definition dumps_str_list (reports : list pystr) : pystr :=
  match reports with
  | [] => [91; 93]
  | r :: rs =>
      [91] ++ [10; 32; 32] ++ dump_str r
      ++ flat_map (fun x => [44; 10; 32; 32] ++ dump_str x) rs
      ++ [10; 93]
  end.

End Json.

(* ===================================================================== *)
(** * report_builder.py: process state and collaborators *)
(* ===================================================================== *)

(** The module-level [allowed_entities]: the three lists read from
    [configs/allowed_entities.json] at import time.  Their contents are
    configuration and stay a parameter. *)
Record allowed_entities := {
  ae_type : list value;
  ae_culture : list value;
  ae_division : list value
}.

(** Which instruction a call to the inference backend carries. *)
Inductive call_kind :=
| CallInitial        (* 1. initial.md *)
| CallFinal          (* 2. final.md *)
| CallFixFields      (* 3. validation_fields.md *)
| CallFixJson.       (* 4. validation_json.md *)

Record call := {
  call_tag : call_kind;
  call_instruction : pystr;
  call_text : pystr
}.

(** The state a worker process mutates while it runs the pipeline: the
    allowed-value lists, the journal of the calls of [predict], and the
    number of requests sent to the backend. *)
Record world := {
  allowed : allowed_entities;
  calls : list call;
  requests : nat
}.

Inductive api_reply :=
| Content (s : pystr)
| SDKError
| Failure.

(** A calendar date, as much of [datetime] as [strftime] reads here. *)
Record date := { year : Z; month : Z; day : Z }.

(** The collaborators and library functions the pipeline calls.
    [chat n prompt] is the reply of the backend to the [n]-th request. *)
Record env := {
  chat : nat -> pystr -> api_reply;
  load_prompt : pystr -> bool -> bool -> option pystr -> pystr;
  py_repr : value -> pystr;
  literal_eval : pystr -> result value;
  fromisoformat : pystr -> option date;
  int_from_float : pyfloat -> option Z
}.

(** Computations that read and write the [world] and may raise. *)
Definition M (A : Type) : Type := world -> result A * world.

Definition ret {A} (a : A) : M A := fun w => (Ok a, w).
Definition raise {A} (e : exn) : M A := fun w => (Raise e, w).
Definition bind {A B} (m : M A) (k : A -> M B) : M B :=
  fun w =>
    match m w with
    | (Ok a, w') => k a w'
    | (Raise e, w') => (Raise e, w')
    end.
Definition lift {A} (r : result A) : M A := fun w => (r, w).

Declare Scope py_scope.
Delimit Scope py_scope with py.
Notation "x <- m ;; k" := (bind m (fun x => k))
  (at level 62, m at next level, right associativity) : py_scope.
Notation "m ;;; k" := (bind m (fun _ => k))
  (at level 62, right associativity) : py_scope.

Definition sentinel : pystr := Eval vm_compute in u "Не определено".
Definition refusal_phrase : pystr := Eval vm_compute in u "Отчёт не может быть обработан.".
Definition ERROR_TEXT : pystr :=
  Eval vm_compute in
    u "Ваш отчёт не может быть обработан 😭 Попробуйте переформулировать текст или приложить фото таблицы хорошего качества.".

Definition k_date : pystr := Eval vm_compute in u "Дата".
Definition k_operation : pystr := Eval vm_compute in u "Операция".
Definition k_data : pystr := Eval vm_compute in u "Данные".
Definition k_division : pystr := Eval vm_compute in u "Подразделение".
Definition k_culture : pystr := Eval vm_compute in u "Культура".
Definition k_day_area : pystr := Eval vm_compute in u "За день, га".
Definition k_total_area : pystr := Eval vm_compute in u "С начала операции, га".
Definition k_day_yield : pystr := Eval vm_compute in u "Вал за день, ц".
Definition k_total_yield : pystr := Eval vm_compute in u "Вал с начала, ц".
Definition f_day_area : pystr := Eval vm_compute in u "За_день_га".
Definition f_total_area : pystr := Eval vm_compute in u "С_начала_операции_га".
Definition f_day_yield : pystr := Eval vm_compute in u "Вал_за_день_ц".
Definition f_total_yield : pystr := Eval vm_compute in u "Вал_с_начала_ц".
Definition harvest : pystr := Eval vm_compute in u "Уборка".

(* ===================================================================== *)
(** * report_builder.py: the validation schema *)
(* ===================================================================== *)

Module Schema.

Local Open Scope py_scope.

(** [v in l] for a string [v] and a list of loaded values. *)
Definition py_in_values (v : pystr) (l : list value) : bool :=
  existsb (fun e => py_eq_str e v) l.

(** [allowed_entities["type"].append("Не определено")] and its siblings. *)
Definition append_type : M unit := fun w =>
  (Ok tt, {| allowed := {| ae_type := ae_type (allowed w) ++ [VStr sentinel];
                           ae_culture := ae_culture (allowed w);
                           ae_division := ae_division (allowed w) |};
             calls := calls w; requests := requests w |}).

Definition append_culture : M unit := fun w =>
  (Ok tt, {| allowed := {| ae_type := ae_type (allowed w);
                           ae_culture := ae_culture (allowed w) ++ [VStr sentinel];
                           ae_division := ae_division (allowed w) |};
             calls := calls w; requests := requests w |}).

Definition append_division : M unit := fun w =>
  (Ok tt, {| allowed := {| ae_type := ae_type (allowed w);
                           ae_culture := ae_culture (allowed w);
                           ae_division := ae_division (allowed w) ++ [VStr sentinel] |};
             calls := calls w; requests := requests w |}).

Definition get_allowed : M allowed_entities := fun w => (Ok (allowed w), w).

(** [OperationEntry.validate_operation(cls, v)]; the [ValueError] it
    raises is [Raise ValueError]. *)
Definition validate_operation (v : pystr) : M pystr :=
  append_type ;;;
  ae <- get_allowed ;;
  if negb (py_in_values v (ae_type ae)) then raise ValueError else ret v.

(** [OperationEntry.validate_culture(cls, v)]: [v] is a string or [None],
    and [None] and the empty string are falsy. *)
Definition validate_culture (v : option pystr) : M (option pystr) :=
  append_culture ;;;
  ae <- get_allowed ;;
  match v with
  | Some (c :: s) =>
      if negb (py_in_values (c :: s) (ae_culture ae)) then raise ValueError else ret v
  | _ => ret v
  end.

(** [OperationEntry.validate_division(cls, v)]. *)
Definition validate_division (v : option pystr) : M (option pystr) :=
  append_division ;;;
  ae <- get_allowed ;;
  match v with
  | Some (c :: s) =>
      if negb (py_in_values (c :: s) (ae_division ae)) then raise ValueError else ret v
  | _ => ret v
  end.

(** The outcome of validating one field: the validated value ([VNone] for
    an optional field that is absent or null), or an error that pydantic
    records before it goes on with the next field. *)
Inductive field_outcome :=
| FieldOk (v : value)
| FieldError.

(** A required [str] field: the key must be present with a string. *)
Definition required_str (k : pystr) (d : dict) : option pystr :=
  match dict_get k d with
  | Some (VStr s) => Some s
  | _ => None
  end.

(** [За_день_га] and [С_начала_операции_га]: [Optional[Union[int, str]]].
    An integer or a string is kept, a boolean or a whole float is read as
    an integer. *)
Definition int_or_str (E : env) (k : pystr) (d : dict) : field_outcome :=
  match dict_get k d with
  | None | Some VNone => FieldOk VNone
  | Some (VInt n) => FieldOk (VInt n)
  | Some (VStr s) => FieldOk (VStr s)
  | Some (VBool b) => FieldOk (VInt (if b then 1 else 0))
  | Some (VFloat f) =>
      match int_from_float E f with
      | Some n => FieldOk (VInt n)
      | None => FieldError
      end
  | Some _ => FieldError
  end.

(** [Вал_за_день_ц] and [Вал_с_начала_ц]: [Optional[Union[int, float, str]]]. *)
Definition num_or_str (k : pystr) (d : dict) : field_outcome :=
  match dict_get k d with
  | None | Some VNone => FieldOk VNone
  | Some (VInt n) => FieldOk (VInt n)
  | Some (VFloat f) => FieldOk (VFloat f)
  | Some (VStr s) => FieldOk (VStr s)
  | Some (VBool b) => FieldOk (VInt (if b then 1 else 0))
  | Some _ => FieldError
  end.

(** A field with a validator: a value of the right type is handed to the
    validator, whose [ValueError] becomes an error of the field; a field
    that fails its type, or an optional field that is absent, does not
    reach the validator. *)
Definition checked {A} (m : M A) (wrap : A -> value) : M field_outcome := fun w =>
  match m w with
  | (Ok a, w') => (Ok (FieldOk (wrap a)), w')
  | (Raise _, w') => (Ok FieldError, w')
  end.

Definition opt_str_value (o : option pystr) : value :=
  match o with Some s => VStr s | None => VNone end.

Definition field_operation (d : dict) : M field_outcome :=
  match dict_get k_operation d with
  | Some (VStr s) => checked (validate_operation s) VStr
  | _ => ret FieldError
  end.

Definition field_optional (validator : option pystr -> M (option pystr))
    (k : pystr) (d : dict) : M field_outcome :=
  match dict_get k d with
  | None => ret (FieldOk VNone)
  | Some VNone => checked (validator None) opt_str_value
  | Some (VStr s) => checked (validator (Some s)) opt_str_value
  | Some _ => ret FieldError
  end.

Definition str_outcome (o : option pystr) : field_outcome :=
  match o with Some s => FieldOk (VStr s) | None => FieldError end.

(** [model_dump(exclude_none=True)] of one entry: the fields in the order
    of the class, under their attribute names, without the null ones. *)
Definition dump_fields (fs : list (pystr * field_outcome)) : option dict :=
  fold_right
    (fun '(k, o) acc =>
       match o, acc with
       | FieldOk VNone, Some d => Some d
       | FieldOk v, Some d => Some ((k, v) :: d)
       | _, _ => None
       end)
    (Some []) fs.

(** Validation of one element of the list against [OperationEntry]: every
    field is visited, in the order of the class, whether or not an earlier
    one failed.  [None] is an element with at least one error. *)
Definition validate_entry (E : env) (item : value) : M (option dict) :=
  match item with
  | VDict d =>
      op <- field_operation d ;;
      dv <- field_optional validate_division k_division d ;;
      cu <- field_optional validate_culture k_culture d ;;
      ret (dump_fields
             [ (k_date, str_outcome (required_str k_date d));
               (k_operation, op);
               (k_data, str_outcome (required_str k_data d));
               (k_division, dv);
               (k_culture, cu);
               (f_day_area, int_or_str E k_day_area d);
               (f_total_area, int_or_str E k_total_area d);
               (f_day_yield, num_or_str k_day_yield d);
               (f_total_yield, num_or_str k_total_yield d) ])
  | _ => ret None
  end.

Fixpoint validate_entries (E : env) (items : list value) : M (list (option dict)) :=
  match items with
  | [] => ret []
  | item :: rest =>
      r <- validate_entry E item ;;
      rs <- validate_entries E rest ;;
      ret (r :: rs)
  end.

Fixpoint all_valid (rs : list (option dict)) : option (list dict) :=
  match rs with
  | [] => Some []
  | Some d :: rest =>
      match all_valid rest with Some ds => Some (d :: ds) | None => None end
  | None :: _ => None
  end.

(** [OperationList.model_validate(parsed).model_dump(exclude_none=True)]:
    every element is validated, and one error anywhere raises
    [ValidationError] once all of them have been seen. *)
Definition model_validate_dump (E : env) (parsed : value) : M (list dict) :=
  match parsed with
  | VList items =>
      rs <- validate_entries E items ;;
      match all_valid rs with
      | Some ds => ret ds
      | None => raise ValidationError
      end
  | _ => raise ValidationError
  end.

End Schema.

(* ===================================================================== *)
(** * report_builder.py: ReportBuilder *)
(* ===================================================================== *)

Module ReportBuilder.

Import Clean Schema.
Local Open Scope py_scope.

(** [s.zfill(w)] on a string of digits. *)
Definition zfill (w : nat) (s : pystr) : pystr :=
  repeat 48 (w - length s)%nat ++ s.

(** [parsed_date.strftime("%d.%m.%Y")]: day and month on two digits; the
    year as the C library of the platform writes it, which on Linux is
    the number without padding (01.01.999 for the year 999). *)
Definition strftime_dmy (dt : date) : pystr :=
  zfill 2 (str_of_int (day dt)) ++ [46]
  ++ zfill 2 (str_of_int (month dt)) ++ [46]
  ++ str_of_int (year dt).

(** [MistralAPIInference.predict(instruction, text)]: one request, and a
    second one after a rate-limit error; any other failure is raised. *)
Definition predict (E : env) (tag : call_kind) (instruction text : pystr) : M pystr :=
  fun w =>
    let user_prompt :=
      match text with
      | [] => instruction
      | _ :: _ => instruction ++ [10; 10; 96; 96; 96] ++ text ++ [96; 96; 96]
      end in
    let journal :=
      calls w ++ [{| call_tag := tag; call_instruction := instruction; call_text := text |}] in
    match chat E (requests w) user_prompt with
    | Content prediction =>
        (Ok prediction,
         {| allowed := allowed w; calls := journal; requests := S (requests w) |})
    | SDKError =>
        let w' := {| allowed := allowed w; calls := journal; requests := S (S (requests w)) |} in
        match chat E (S (requests w)) user_prompt with
        | Content prediction => (Ok prediction, w')
        | _ => (Raise BackendError, w')
        end
    | Failure =>
        (Raise BackendError,
         {| allowed := allowed w; calls := journal; requests := S (requests w) |})
    end.

Definition prompt_initial : pystr := Eval vm_compute in u "1. initial.md".
Definition prompt_final : pystr := Eval vm_compute in u "2. final.md".
Definition prompt_fields : pystr := Eval vm_compute in u "3. validation_fields.md".
Definition prompt_json : pystr := Eval vm_compute in u "4. validation_json.md".

(** [ReportBuilder._correct_fields(report)]. *)
Definition _correct_fields (E : env) (report : value) : M pystr :=
  let prompt := load_prompt E prompt_fields false true (Some (py_repr E report)) in
  predict E CallFixFields prompt [].

(** [ReportBuilder._correct_json(report)]. *)
Definition _correct_json (E : env) (report : pystr) : M pystr :=
  let prompt := load_prompt E prompt_json false true (Some report) in
  predict E CallFixJson prompt report.

(** The comprehension that decodes the elements that are themselves
    strings. *)
Fixpoint reparse_items (items : list value) : result (list value) :=
  match items with
  | [] => Ok []
  | item :: rest =>
      let first :=
        match item with
        | VStr s => Json.loads (clean_string s)
        | _ => Ok item
        end in
      match first with
      | Raise e => Raise e
      | Ok v =>
          match reparse_items rest with
          | Raise e => Raise e
          | Ok vs => Ok (v :: vs)
          end
      end
  end.

(** The body of the loop over [parsed]: [item["Дата"]] is read, parsed and
    written back; the [ValueError] of [fromisoformat] is passed over, a
    missing key or a value that is not a string is not. *)
Definition reformat_date (E : env) (item : value) : result value :=
  match item with
  | VDict d =>
      match dict_get k_date d with
      | None => Raise KeyError
      | Some (VStr s) =>
          match fromisoformat E s with
          | Some parsed_date => Ok (VDict (dict_set k_date (VStr (strftime_dmy parsed_date)) d))
          | None => Ok item
          end
      | Some _ => Raise TypeError
      end
  | _ => Raise TypeError
  end.

Fixpoint reformat_dates (E : env) (items : list value) : result (list value) :=
  match items with
  | [] => Ok []
  | item :: rest =>
      match reformat_date E item with
      | Raise e => Raise e
      | Ok item' =>
          match reformat_dates E rest with
          | Raise e => Raise e
          | Ok rest' => Ok (item' :: rest')
          end
      end
  end.

(** [for item in parsed: ...] on whatever [json.loads] returned: a list is
    walked, a dictionary or a string yields its keys or characters, which
    cannot be indexed by a string, and the other values cannot be iterated. *)
Definition date_pass (E : env) (parsed : value) : result value :=
  match parsed with
  | VList items =>
      match reformat_dates E items with
      | Ok items' => Ok (VList items')
      | Raise e => Raise e
      end
  | VDict [] | VStr [] => Ok parsed
  | _ => Raise TypeError
  end.

(** The [try] block of [_validate] up to the call of the schema. *)
Definition parse_report (E : env) (reports : pystr) : result value :=
  let cleaned := clean_string reports in
  if contains refusal_phrase cleaned then Raise ValueError
  else
    match Json.loads cleaned with
    | Raise e => Raise e
    | Ok (VList items) =>
        match reparse_items items with
        | Raise e => Raise e
        | Ok items' => date_pass E (VList items')
        end
    | Ok parsed => date_pass E parsed
    end.

(** [ReportBuilder._validate(reports)], with its three handlers: one repair
    call after a [ValidationError], one after a [JSONDecodeError], and
    every other exception raised again. *)
Definition _validate (E : env) (reports : pystr) : M (list dict) := fun w =>
  match parse_report E reports with
  | Ok parsed =>
      match model_validate_dump E parsed w with
      | (Raise ValidationError, w') =>
          (correction <- _correct_fields E parsed ;;
           fixed <- lift (literal_eval E (clean_string correction)) ;;
           model_validate_dump E fixed) w'
      | r => r
      end
  | Raise JSONDecodeError =>
      (correction <- _correct_json E reports ;;
       fixed <- lift (literal_eval E (clean_string correction)) ;;
       model_validate_dump E fixed) w
  | Raise e => (Raise e, w)
  end.

(** [ReportBuilder._gather_raw_results(prompt, report_data)]. *)
Fixpoint _gather_raw_results (E : env) (prompt : pystr) (report_data : list dict)
    : M (list pystr) :=
  match report_data with
  | [] => ret []
  | report :: rest =>
      raw_report <- predict E CallFinal prompt (py_repr E (VDict report)) ;;
      reports <- _gather_raw_results E prompt rest ;;
      ret (raw_report :: reports)
  end.

(** The argument of a stage: the raw text for the first one, the records
    of the previous stage for the second. *)
Inductive stage_input :=
| RawText (s : pystr)
| Records (l : list dict).

(** [ReportBuilder._process_stage(report_data, prompt_path, initial)]. *)
Definition _process_stage (E : env) (report_data : stage_input) (prompt_path : pystr)
    (initial : bool) : M (list dict) :=
  match initial, report_data with
  | true, RawText text =>
      let prompt := load_prompt E prompt_path true false None in
      reports <- predict E CallInitial prompt text ;;
      _validate E reports
  | false, Records l =>
      let prompt := load_prompt E prompt_path false false None in
      reports <- _gather_raw_results E prompt l ;;
      _validate E (Json.dumps_str_list reports)
  | _, _ => raise TypeError
  end.

(** The four assignments of the renaming loop on one record. *)
Definition rename_key (field display : pystr) (item : dict) : result dict :=
  match dict_pop field item with
  | Ok (v, item') => Ok (dict_set display v item')
  | Raise e => Raise e
  end.

Definition rename_item (item : dict) : result dict :=
  match rename_key f_day_area k_day_area item with
  | Raise e => Raise e
  | Ok i1 =>
      match rename_key f_total_area k_total_area i1 with
      | Raise e => Raise e
      | Ok i2 =>
          match rename_key f_day_yield k_day_yield i2 with
          | Raise e => Raise e
          | Ok i3 => rename_key f_total_yield k_total_yield i3
          end
      end
  end.

Fixpoint rename_all (items : list dict) : result (list dict) :=
  match items with
  | [] => Ok []
  | item :: rest =>
      match rename_item item with
      | Raise e => Raise e
      | Ok item' =>
          match rename_all rest with
          | Raise e => Raise e
          | Ok rest' => Ok (item' :: rest')
          end
      end
  end.

(** [ReportBuilder.build(report_data)]: the two stages, outside any
    handler, then the renaming loop inside [try ... except Exception],
    which answers [ERROR_TEXT]. *)
Definition build (E : env) (report_data : pystr) : M value :=
  r1 <- _process_stage E (RawText report_data) prompt_initial true ;;
  result <- _process_stage E (Records r1) prompt_final false ;;
  match rename_all result with
  | Ok renamed => ret (VList (map VDict renamed))
  | Raise _ => ret (VStr ERROR_TEXT)
  end.

End ReportBuilder.

(* ===================================================================== *)
(** * telegram_bot.py: the correction dialogue of prompt *)
(* ===================================================================== *)

Module Correction.

(** [context.user_data["corrections"]]. *)
Record correction_data := {
  entries : list dict;
  queue : list (nat * pystr);
  current_index : nat
}.

(** The three keys of [context.user_data] the dialogue uses.  The list
    under [corrected_entries] is the very list of [corrections]. *)
Record user_data := {
  awaiting_correction : bool;
  corrections : option correction_data;
  corrected_entries : option (list dict)
}.

(** The inner loop over [entry.items()]. *)
Definition scan_entry (entry_idx : nat) (entry : dict) : list (nat * pystr) :=
  flat_map (fun kv => if py_eq_str (snd kv) sentinel then [(entry_idx, fst kv)] else [])
           entry.

(** The loop over [enumerate(self.last_report)], from index [entry_idx]. *)
Fixpoint corrections_queue (entry_idx : nat) (report : list dict) : list (nat * pystr) :=
  match report with
  | [] => []
  | entry :: rest => scan_entry entry_idx entry ++ corrections_queue (S entry_idx) rest
  end.

(** [x / 100]. *)
Definition div100 (x : value) : result value :=
  let int_div (n : Z) :=
    if (100 * (2 ^ 1024 - 2 ^ 970) <=? Z.abs n)%Z then Raise OverflowError
    else Ok (VFloat (FQuot n 100)) in
  match x with
  | VInt n => int_div n
  | VBool b => int_div (if b then 1 else 0)%Z
  | VFloat f => Ok (VFloat (FDiv f 100))
  | _ => Raise TypeError
  end.

(** The first loop of the final step: [entry["Операция"] == "Уборка"]. *)
Fixpoint needs_val_scan (entries : list dict) : result bool :=
  match entries with
  | [] => Ok false
  | entry :: rest =>
      match dict_get k_operation entry with
      | None => Raise KeyError
      | Some v =>
          match needs_val_scan rest with
          | Raise e => Raise e
          | Ok b => Ok (py_eq_str v harvest || b)
          end
      end
  end.

(** The body of the second loop on one record: the record as the loop
    leaves it, and the exception that interrupted it, if any. *)
Definition finalize_entry (needs_val : bool) (entry : dict) : dict * option exn :=
  let e1 := dict_remove k_data entry in
  if negb needs_val then
    (dict_remove k_day_yield (dict_remove k_total_yield e1), None)
  else
    match dict_get k_total_yield e1 with
    | None => (e1, Some KeyError)
    | Some v =>
        match div100 v with
        | Raise x => (e1, Some x)
        | Ok q =>
            let e2 := dict_set k_total_yield q e1 in
            match dict_get k_day_yield e2 with
            | None => (e2, Some KeyError)
            | Some v2 =>
                match div100 v2 with
                | Raise x => (e2, Some x)
                | Ok q2 => (dict_set k_day_yield q2 e2, None)
                end
            end
        end
    end.

Fixpoint finalize_loop (needs_val : bool) (entries : list dict) : list dict * option exn :=
  match entries with
  | [] => ([], None)
  | entry :: rest =>
      match finalize_entry needs_val entry with
      | (entry', Some x) => (entry' :: rest, Some x)
      | (entry', None) =>
          let '(rest', x) := finalize_loop needs_val rest in
          (entry' :: rest', x)
      end
  end.

(** The final step of the dialogue: both loops, on the list in place. *)
Definition finalize (entries : list dict) : list dict * option exn :=
  match needs_val_scan entries with
  | Raise x => (entries, Some x)
  | Ok needs_val => finalize_loop needs_val entries
  end.

(** What the handler sends back. *)
Inductive outcome :=
| Silent
| AskValue
| AskField (entry_number : nat) (data : value) (key : pystr)
| OfferReport (entries : list dict)
| ShowError (text : pystr)
| Raised (e : exn).

Definition set_awaiting (b : bool) (ud : user_data) : user_data :=
  {| awaiting_correction := b;
     corrections := corrections ud;
     corrected_entries := corrected_entries ud |}.

(** [entries[entry_idx][key] = user_input]. *)
Definition write_field (entry_idx : nat) (key : pystr) (user_input : pystr)
    (es : list dict) : list dict :=
  alter (dict_set key (VStr user_input)) entry_idx es.

(** The prompt for the field at the head of what is left of the queue. *)
Definition ask (es : list dict) (next : nat * pystr) : outcome :=
  match es !! fst next with
  | None => Raised IndexError
  | Some entry =>
      match dict_get k_data entry with
      | None => Raised KeyError
      | Some data => AskField (S (fst next)) data (snd next)
      end
  end.

(** The branch of [prompt] taken while [awaiting_correction] is set;
    [text] is [update.message.text]. *)
Definition answer (ud : user_data) (text : option pystr) : user_data * outcome :=
  match text with
  | None | Some [] => (ud, AskValue)
  | Some raw =>
      let user_input := Clean.strip raw in
      match corrections ud with
      | None => (set_awaiting false ud, Silent)
      | Some cd =>
          match queue cd !! current_index cd with
          | None => (set_awaiting false ud, Silent)
          | Some (entry_idx, key) =>
              if bool_decide (entry_idx < length (entries cd))%nat then
                let es := write_field entry_idx key user_input (entries cd) in
                let cd' := {| entries := es; queue := queue cd;
                              current_index := S (current_index cd) |} in
                match queue cd !! S (current_index cd) with
                | Some next =>
                    ({| awaiting_correction := awaiting_correction ud;
                        corrections := Some cd';
                        corrected_entries := corrected_entries ud |},
                     ask es next)
                | None =>
                    match finalize es with
                    | (es', None) =>
                        ({| awaiting_correction := false;
                            corrections := Some {| entries := es'; queue := queue cd;
                                                   current_index := S (current_index cd) |};
                            corrected_entries := Some es' |},
                         OfferReport es')
                    | (es', Some x) =>
                        ({| awaiting_correction := false;
                            corrections := Some {| entries := es'; queue := queue cd;
                                                   current_index := S (current_index cd) |};
                            corrected_entries := corrected_entries ud |},
                         Raised x)
                    end
                end
              else (ud, Raised IndexError)
          end
      end
  end.

(** The elements of the reply as dictionaries, when all of them are. *)
Fixpoint as_records (items : list value) : option (list dict) :=
  match items with
  | [] => Some []
  | VDict d :: rest =>
      match as_records rest with Some ds => Some (d :: ds) | None => None end
  | _ :: _ => None
  end.

(** The session [prompt] opens when the queue is not empty. *)
Definition open_session (ud : user_data) (report : list dict) (q : list (nat * pystr))
    : user_data :=
  {| awaiting_correction := true;
     corrections := Some {| entries := report; queue := q; current_index := 0 |};
     corrected_entries := corrected_entries ud |}.

(** The end of [prompt] once the reply of the worker has arrived:
    [last_report] is what [send_and_receive] returned.  A reply that is
    not a list of dictionaries fails on [entry.items()], and the empty
    string, which has nothing to iterate over, on [pd.DataFrame]. *)
Definition receive_report (ud : user_data) (last_report : value) : user_data * outcome :=
  match last_report with
  | VList items =>
      match as_records items with
      | None => (ud, Raised AttributeError)
      | Some report =>
          match corrections_queue 0 report with
          | first :: rest => (open_session ud report (first :: rest), ask report first)
          | [] =>
              match finalize report with
              | (es', None) => (ud, OfferReport es')
              | (_, Some x) => (ud, Raised x)
              end
          end
      end
  | VStr text =>
      if str_eqb text ERROR_TEXT then (ud, ShowError text)
      else match text with
           | [] => (ud, Raised ValueError)
           | _ :: _ => (ud, Raised AttributeError)
           end
  | VDict [] => (ud, OfferReport [])
  | VDict (_ :: _) => (ud, Raised AttributeError)
  | _ => (ud, Raised TypeError)
  end.

(** One message of the conversation, among those that pass the filters
    at the head of [prompt]: an answer while the session is open;
    otherwise the message starts a new submission, which this function
    leaves to [receive_report]. *)
Definition prompt (ud : user_data) (text : option pystr) : user_data :=
  if awaiting_correction ud then fst (answer ud text) else ud.

(** The dialogue over a sequence of messages. *)
Definition answers (ud : user_data) (texts : list (option pystr)) : user_data :=
  fold_left prompt texts ud.

(** The messages that count as answers: those with a text that is not
    empty. *)
Definition answer_inputs (msgs : list (option pystr)) : list pystr :=
  omap (fun m => match m with Some (c :: s) => Some (c :: s) | _ => None end) msgs.

(** The writes of the dialogue alone: the [i]-th answer goes to the field
    at position [i] of the queue. *)
Fixpoint apply_answers (q : list (nat * pystr)) (texts : list pystr) (es : list dict)
    : list dict :=
  match q, texts with
  | (entry_idx, key) :: q', t :: texts' =>
      apply_answers q' texts' (write_field entry_idx key (Clean.strip t) es)
  | _, _ => es
  end.

(** [entries[entry_idx][key]], when both exist. *)
Definition field_at (es : list dict) (pos : nat * pystr) : option value :=
  match es !! fst pos with
  | Some entry => dict_get (snd pos) entry
  | None => None
  end.

(** The state of an open session. *)
Definition session (cd : correction_data) (ce : option (list dict)) : user_data :=
  {| awaiting_correction := true; corrections := Some cd; corrected_entries := ce |}.

(** The state the last answer leaves, from the records [written] so far:
    the final step has run on them, and [corrected_entries] is set unless
    it raised. *)
Definition closed_session (q : list (nat * pystr)) (n : nat) (ce : option (list dict))
    (written : list dict) : user_data :=
  match finalize written with
  | (es', None) =>
      {| awaiting_correction := false;
         corrections := Some {| entries := es'; queue := q; current_index := n |};
         corrected_entries := Some es' |}
  | (es', Some _) =>
      {| awaiting_correction := false;
         corrections := Some {| entries := es'; queue := q; current_index := n |};
         corrected_entries := ce |}
  end.

(** What the last answer sends back, from the records [written] so far:
    the finalized records, offered for the final report, or the exception
    of the final step. *)
Definition closed_reply (written : list dict) : outcome :=
  match finalize written with
  | (es', None) => OfferReport es'
  | (_, Some x) => Raised x
  end.

(** One message of the dialogue with what the handler sends back; once
    the session is over the messages are no longer answers. *)
Definition exchange (st : user_data * outcome) (text : option pystr)
    : user_data * outcome :=
  if awaiting_correction (fst st) then answer (fst st) text else st.

(** The dialogue over a sequence of messages, from the state and the
    reply that opened it. *)
Definition dialogue (st : user_data * outcome) (texts : list (option pystr))
    : user_data * outcome :=
  fold_left exchange texts st.

(** [Resolved], of a step of the handler: the session is over, every
    field of the queue has been asked, and the step offers the finalized
    records, which it has stored for the final report. *)
Definition resolved (st : user_data * outcome) : Prop :=
  awaiting_correction (fst st) = false /\
  exists cd, corrections (fst st) = Some cd /\ current_index cd = length (queue cd) /\
             corrected_entries (fst st) = Some (entries cd) /\
             snd st = OfferReport (entries cd).

End Correction.

(* ===================================================================== *)
(** * worker.py and send_and_receive: the request/reply transport *)
(* ===================================================================== *)

Module Rpc.

Record message := {
  body : pystr;
  reply_to : option pystr;
  correlation_id : option pystr
}.

(** What a worker does with the broker while it handles one delivery. *)
Inductive action :=
| Publish (routing_key : pystr) (m : message)
| Ack.

(** [handle_message(message, builder, exchange)]: the delivery is
    acknowledged when the [async with message.process()] block is left,
    which the handler of [Exception] makes happen on every path.
    [dumps] is [json.dumps(result, ensure_ascii=False)]. *)
Definition handle_message (E : env) (dumps : value -> result pystr) (m : message)
    (w : world) : list action * world :=
  match ReportBuilder.build E (body m) w with
  | (Ok result, w') =>
      match reply_to m with
      | Some (c :: q) =>
          match dumps result with
          | Ok text =>
              ([Publish (c :: q)
                  {| body := text; reply_to := None; correlation_id := correlation_id m |};
                Ack], w')
          | Raise _ => ([Ack], w')
          end
      | _ => ([Ack], w')
      end
  | (Raise _, w') => ([Ack], w')
  end.

(** The caller's side of [send_and_receive]: its exclusive reply queue,
    its correlation identifier, and the future it awaits. *)
Record gateway := {
  callback_queue : pystr;
  corr_id : pystr;
  future : option value
}.

(** The message [send_and_receive] publishes to [query_queue]. *)
Definition request (g : gateway) (query_text : pystr) : message :=
  {| body := query_text;
     reply_to := Some (callback_queue g);
     correlation_id := Some (corr_id g) |}.

(** [on_response(message)]: [future.set_result(json.loads(body))] when the
    correlation identifier is the caller's. *)
Definition on_response (g : gateway) (m : message) : gateway :=
  match correlation_id m with
  | Some c =>
      if str_eqb c (corr_id g) then
        match Json.loads (body m), future g with
        | Ok v, None =>
            {| callback_queue := callback_queue g; corr_id := corr_id g; future := Some v |}
        | _, _ => g
        end
      else g
  | None => g
  end.

(** The broker with one caller and one worker: the jobs waiting in
    [query_queue], the state of the worker process, the published
    messages on their way to the queue named by their routing key, the
    caller, and the number of acknowledged deliveries. *)
Record system := {
  query_queue : list message;
  worker_world : world;
  routed : list (pystr * message);
  gw : gateway;
  acked : nat
}.

Definition publishes (acts : list action) : list (pystr * message) :=
  omap (fun a => match a with Publish k m => Some (k, m) | Ack => None end) acts.

Definition acks (acts : list action) : nat :=
  length (List.filter (fun a => match a with Ack => true | _ => false end) acts).

Inductive step (E : env) (dumps : value -> result pystr) : system -> system -> Prop :=
| step_worker : forall m rest w r g n,
    step E dumps
      {| query_queue := m :: rest; worker_world := w; routed := r; gw := g; acked := n |}
      {| query_queue := rest;
         worker_world := snd (handle_message E dumps m w);
         routed := r ++ publishes (fst (handle_message E dumps m w));
         gw := g;
         acked := n + acks (fst (handle_message E dumps m w)) |}
| step_deliver : forall q w r1 k m r2 g n,
    step E dumps
      {| query_queue := q; worker_world := w; routed := r1 ++ (k, m) :: r2; gw := g;
         acked := n |}
      {| query_queue := q; worker_world := w; routed := r1 ++ r2;
         gw := if str_eqb k (callback_queue g) then on_response g m else g;
         acked := n |}
| step_submit : forall q w r g n m,
    reply_to m <> Some (callback_queue g) ->
    step E dumps
      {| query_queue := q; worker_world := w; routed := r; gw := g; acked := n |}
      {| query_queue := q ++ [m]; worker_world := w; routed := r; gw := g; acked := n |}.

Inductive reachable (E : env) (dumps : value -> result pystr) (s0 : system)
    : system -> Prop :=
| reach_here : reachable E dumps s0 s0
| reach_step : forall s s', reachable E dumps s0 s -> step E dumps s s' ->
    reachable E dumps s0 s'.

(** A job that asks for its reply on another queue than the caller's. *)
Definition foreign (g : gateway) (m : message) : Prop :=
  reply_to m <> Some (callback_queue g).

(** No published message is on its way to the caller's queue. *)
Definition quiet (g : gateway) (r : list (pystr * message)) : Prop :=
  Forall (fun km => fst km <> callback_queue g) r.

(** The states in which nothing can answer the caller [g]: either its job
    [m0] is still at the head of the queue with the worker in the state
    [w0], or the job is gone; every other job is foreign and no message
    is routed to the caller. *)
Inductive unanswerable (g : gateway) (m0 : message) (w0 : world) : system -> Prop :=
| unanswerable_pending : forall rest r n,
    Forall (foreign g) rest -> quiet g r ->
    unanswerable g m0 w0
      {| query_queue := m0 :: rest; worker_world := w0; routed := r; gw := g; acked := n |}
| unanswerable_gone : forall q w r n,
    Forall (foreign g) q -> quiet g r ->
    unanswerable g m0 w0
      {| query_queue := q; worker_world := w; routed := r; gw := g; acked := n |}.

End Rpc.

(* ===================================================================== *)
(** * Statements read off the specification, and sample collaborators *)
(* ===================================================================== *)

Module Rules.

Import Geometry.
Local Open Scope Z_scope.

Definition minimizes (f : point -> Z) (p : point) (pts : list point) : Prop :=
  In p pts /\ forall q, In q pts -> f p <= f q.

Definition maximizes (f : point -> Z) (p : point) (pts : list point) : Prop :=
  In p pts /\ forall q, In q pts -> f q <= f p.

(** The ordering rule in the words of the specification: the sum [x + y]
    for the first and third corner, the difference [x - y] for the second
    and fourth. *)
Definition spec_corner_rule (pts rect : list point) : Prop :=
  exists tl tr br bl,
    rect = [tl; tr; br; bl] /\
    minimizes (fun p => fst p + snd p) tl pts /\
    maximizes (fun p => fst p + snd p) br pts /\
    minimizes (fun p => fst p - snd p) tr pts /\
    maximizes (fun p => fst p - snd p) bl pts.

(** The rule with the difference [np.diff] computes, [y - x]. *)
Definition diff_corner_rule (pts rect : list point) : Prop :=
  exists tl tr br bl,
    rect = [tl; tr; br; bl] /\
    minimizes (fun p => fst p + snd p) tl pts /\
    maximizes (fun p => fst p + snd p) br pts /\
    minimizes (fun p => snd p - fst p) tr pts /\
    maximizes (fun p => snd p - fst p) bl pts.

(** Pixel coordinates: non-negative and below [2^24]. *)
Definition pixel (p : point) : Prop :=
  0 <= fst p < 2 ^ 24 /\ 0 <= snd p < 2 ^ 24.

(** A record of the second stage that lacks one of the four keys the
    renaming loop pops. *)
Definition missing_alias (item : dict) : Prop :=
  dict_get f_day_area item = None \/ dict_get f_total_area item = None \/
  dict_get f_day_yield item = None \/ dict_get f_total_yield item = None.

(** A record that has an operation, which is not the harvest. *)
Definition no_harvest (entry : dict) : Prop :=
  exists v, dict_get k_operation entry = Some v /\ py_eq_str v harvest = false.

(** A record with neither of the two yield fields. *)
Definition no_yields (entry : dict) : Prop :=
  dict_get k_day_yield entry = None /\ dict_get k_total_yield entry = None.

(** A record whose date field holds a string. *)
Definition dated_record (item : value) : Prop :=
  exists d s, item = VDict d /\ dict_get k_date d = Some (VStr s).

End Rules.

(** Shapes of strings the steps of [clean_string] produce and preserve. *)
Module Normal.

Import Clean.

(** Neither a backslash nor a backtick. *)
Definition plain (s : pystr) : Prop := Forall (fun c => c <> 92 /\ c <> 96) s.

(** Every whitespace character is a single space that does not follow
    another one; [prev_space] tells whether the character before [s] was
    whitespace. *)
Fixpoint tidy (prev_space : bool) (s : pystr) : bool :=
  match s with
  | [] => true
  | c :: t =>
      if is_space c then (c =? 32) && negb prev_space && tidy true t
      else tidy false t
  end.

(** Some closing bracket is followed, after whitespace only, by an
    opening bracket; [armed] tells that [s] comes after a closing bracket
    and whitespace. *)
Fixpoint has_gap (armed : bool) (s : pystr) : bool :=
  match s with
  | [] => false
  | c :: t =>
      if is_closer c then has_gap true t
      else if is_space c then has_gap armed t
      else if is_opener c then armed || has_gap false t
      else has_gap false t
  end.

(** The steps of [clean_string] that do not look for a backslash or a
    backtick. *)
Definition core (s : pystr) : pystr :=
  strip (insert_commas None
           (replace_char 9 [32] (collapse_spaces false (replace_char 10 [] s)))).

(** The held-back whitespace of [insert_commas]. *)
Definition held (pending : option pystr) : pystr :=
  match pending with Some ws => ws | None => [] end.

Definition armed_by (pending : option pystr) : bool :=
  match pending with Some _ => true | None => false end.

(** A string that does not begin with whitespace. *)
Definition starts_clean (s : pystr) : Prop :=
  match s with
  | [] => True
  | c :: _ => is_space c = false
  end.

(** A text that [json.loads] reads and the schema accepts. *)
Definition valid_report (E : env) (w : world) (s : pystr) : Prop :=
  exists v ds, Json.loads s = Ok v /\ fst (Schema.model_validate_dump E v w) = Ok ds.

End Normal.

Module Samples.

Local Open Scope Z_scope.

(** [date.fromisoformat] on the calendar form [YYYY-MM-DD], the one form
    every version of the library reads. *)
Definition days_in_month (y m : Z) : Z :=
  if (m =? 2) then
    if ((y mod 4 =? 0) && negb (y mod 100 =? 0)) || (y mod 400 =? 0) then 29 else 28
  else if (m =? 4) || (m =? 6) || (m =? 9) || (m =? 11) then 30
  else 31.

Definition iso_calendar_date (s : pystr) : option date :=
  match s with
  | [y1; y2; y3; y4; d1; m1; m2; d2; a1; a2] =>
      if forallb Json.is_digit [y1; y2; y3; y4; m1; m2; a1; a2]
         && (d1 =? 45)%N && (d2 =? 45)%N then
        let y := Z.of_N (Json.nat_of_digits [y1; y2; y3; y4]) in
        let m := Z.of_N (Json.nat_of_digits [m1; m2]) in
        let d := Z.of_N (Json.nat_of_digits [a1; a2]) in
        if (1 <=? y) && (1 <=? m) && (m <=? 12) && (1 <=? d) && (d <=? days_in_month y m)
        then Some {| year := y; month := m; day := d |}
        else None
      else None
  | _ => None
  end.

(** A float literal that denotes a whole number below [2^53]. *)
Definition whole_float (f : pyfloat) : option Z :=
  match f with
  | FLit neg m e =>
      let sign (z : Z) := if neg then - z else z in
      if 0 <=? e then
        let v := Z.of_N m * 10 ^ e in
        if v <? 2 ^ 53 then Some (sign v) else None
      else
        let p := 10 ^ (- e) in
        if (Z.of_N m mod p =? 0) && (Z.of_N m / p <? 2 ^ 53)
        then Some (sign (Z.of_N m / p)) else None
  | _ => None
  end.

(** A backend that answers the [n]-th request with the [n]-th reply of a
    script. *)
Definition scripted (replies : list api_reply) (n : nat) (prompt : pystr) : api_reply :=
  nth n replies Failure.

(** Collaborators for running the pipeline on examples: prompts are the
    name of their file followed by the report they quote, records are
    shown to the backend under a fixed name, and corrections are read as
    JSON. *)
Definition sample_env (replies : list api_reply) : env :=
  {| chat := scripted replies;
     load_prompt := fun path _ _ report =>
       path ++ match report with Some r => 10%N :: r | None => [] end;
     py_repr := fun _ => u "<record>";
     literal_eval := Json.loads;
     fromisoformat := iso_calendar_date;
     int_from_float := whole_float |}.

Definition world0 : world :=
  {| allowed := {| ae_type := [VStr (u "Сев"); VStr harvest];
                   ae_culture := [VStr (u "Пшеница")];
                   ae_division := [VStr (u "АОР")] |};
     calls := [];
     requests := 0 |}.

End Samples.

(* ===================================================================== *)
(** * Examples *)
(* ===================================================================== *)

Module Examples.

Import Samples Access Rpc.

Definition listed_config : config :=
  {| admin_user_ids := u "-"; allowed_user_ids := u "123,456" |}.

Definition square : list Geometry.point :=
  [(0, 0); (10, 0); (10, 10); (0, 10)]%Z.

Definition one_record : value :=
  VList [VDict [(k_date, VStr (u "01.05.2024")); (k_operation, VStr (u "Сев"));
                (k_data, VStr (u "посеяли 5 га"))]].

Definition refusing_backend : env :=
  sample_env [Content (u "Извините. Отчёт не может быть обработан.")].

Definition stage1_reply : pystr :=
  jq "[{'Дата':'2024-05-01','Операция':'Сев','Данные':'посеяли 5 га'}]".
Definition stage2_reply : pystr :=
  jq "{'Дата':'01.05.2024','Операция':'Сев','Данные':'посеяли 5 га','За день, га':5}".
Definition partial_backend : env := sample_env [Content stage1_reply; Content stage2_reply].

Definition two_dates : pystr :=
  jq "[{'Дата':'2024-05-01','Операция':'Сев','Данные':'a'}, {'Дата':'вчера','Операция':'Сев','Данные':'b'}]".

Definition sowing : dict :=
  [(k_date, VStr (u "01.05.2024")); (k_operation, VStr (u "Сев"));
   (k_data, VStr (u "посеяли 5 га")); (k_day_area, VInt 5); (k_total_area, VInt 15);
   (k_day_yield, VInt 0); (k_total_yield, VInt 0)].

Definition reaping : dict :=
  [(k_date, VStr (u "01.05.2024")); (k_operation, VStr harvest);
   (k_data, VStr (u "убрали 7 га")); (k_day_area, VInt 7); (k_total_area, VInt 20);
   (k_day_yield, VInt 500); (k_total_yield, VInt 1500)].

Definition idle : Correction.user_data :=
  {| Correction.awaiting_correction := false; Correction.corrections := None;
     Correction.corrected_entries := None |}.

Definition unresolved_report : list dict :=
  [ [(k_date, VStr (u "01.05.2024")); (k_operation, VStr sentinel);
     (k_data, VStr (u "что-то сделали")); (k_culture, VStr sentinel)];
    [(k_date, VStr (u "02.05.2024")); (k_operation, VStr (u "Сев"));
     (k_data, VStr (u "посеяли")); (k_division, VStr sentinel)] ].

Definition three_answers : list (option pystr) :=
  [Some (u " Пахота "); None; Some (u "Пшеница"); Some []; Some (u "АОР")].

Definition caller : gateway :=
  {| callback_queue := u "amq.gen-1"; corr_id := u "c-1"; future := None |}.

Definition refused : env :=
  sample_env [Content (u "Отчёт не может быть обработан.")].

Definition plain_report : pystr :=
  jq "[{'Дата': '01.05.2024', 'Операция': 'Сев', 'Данные': 'посеяли 5 га'}]  [ ]".

Definition escaped_report : pystr :=
  jq "[{'Дата':'01.05.2024','Операция':'Не определено','Данные':'\u0041'}]".

End Examples.

(* ===================================================================== *)
(** * Further shapes for statements *)
(* ===================================================================== *)

Module Shapes.

Import Clean Normal.

(** A string that does not end with whitespace. *)
Definition ends_clean (s : pystr) : Prop := starts_clean (rev s).

(** Whitespace, if any, is the plain space. *)
Definition plain_space (c : N) : Prop := is_space c = true -> c = 32.

(** What follows a closing bracket, once whitespace is skipped, is not an
    opening bracket. *)
Definition closed_off (rest : pystr) : Prop :=
  match lstrip rest with
  | [] => True
  | o :: _ => is_opener o = false
  end.

(** ** Records that passed the schema *)

(** [l'] is [l] followed by copies of the sentinel only. *)
Definition grows_by_sentinels (l l' : list value) : Prop :=
  exists n, l' = l ++ repeat (VStr sentinel) n.

(** The second world differs from the first by sentinels appended to the
    three lists of names: the journal of backend calls is the same. *)
Definition only_sentinels_added (w w' : world) : Prop :=
  grows_by_sentinels (ae_type (allowed w)) (ae_type (allowed w'))
  /\ grows_by_sentinels (ae_culture (allowed w)) (ae_culture (allowed w'))
  /\ grows_by_sentinels (ae_division (allowed w)) (ae_division (allowed w'))
  /\ calls w' = calls w
  /\ requests w' = requests w.

(** A computation that leaves the world as it is, sentinels apart. *)
Definition adds_sentinels {A} (m : M A) : Prop :=
  forall w, only_sentinels_added w (snd (m w)).

(** A value of the list, or the sentinel. *)
Definition listed (l : list value) (s : pystr) : Prop :=
  Schema.py_in_values s l = true \/ s = sentinel.

(** An optional name: absent, empty, or a value of the list or the
    sentinel. *)
Definition optional_listed (l : list value) (o : option value) : Prop :=
  match o with
  | None => True
  | Some (VStr s) => s = [] \/ listed l s
  | Some _ => False
  end.

Definition area_value (o : option value) : Prop :=
  match o with
  | None | Some (VInt _) | Some (VStr _) => True
  | Some _ => False
  end.

Definition yield_value (o : option value) : Prop :=
  match o with
  | None | Some (VInt _) | Some (VFloat _) | Some (VStr _) => True
  | Some _ => False
  end.

(** The keys of a dumped entry, in the order of the class. *)
Definition field_names : list pystr :=
  [k_date; k_operation; k_data; k_division; k_culture;
   f_day_area; f_total_area; f_day_yield; f_total_yield].

Definition sound_record (ae : allowed_entities) (d : dict) : Prop :=
  (exists s, dict_get k_date d = Some (VStr s))
  /\ (exists s, dict_get k_operation d = Some (VStr s) /\ listed (ae_type ae) s)
  /\ (exists s, dict_get k_data d = Some (VStr s))
  /\ optional_listed (ae_division ae) (dict_get k_division d)
  /\ optional_listed (ae_culture ae) (dict_get k_culture d)
  /\ area_value (dict_get f_day_area d)
  /\ area_value (dict_get f_total_area d)
  /\ yield_value (dict_get f_day_yield d)
  /\ yield_value (dict_get f_total_yield d).

(** Distinct keys out of [field_names], in that order, and no null
    value. *)
Definition well_formed_record (d : dict) : Prop :=
  sublist (keys d) field_names /\ List.NoDup (keys d)
  /\ Forall (fun kv => snd kv <> VNone) d.

(** The first outcome filed under a key. *)
Fixpoint field_lookup (k : pystr) (fs : list (pystr * Schema.field_outcome))
    : option Schema.field_outcome :=
  match fs with
  | [] => None
  | (k', o) :: r => if str_eqb k' k then Some o else field_lookup k r
  end.

(** What [model_dump(exclude_none=True)] leaves of a validated value. *)
Definition kept (v : value) : option value :=
  match v with VNone => None | _ => Some v end.

(** ** The pipeline *)

(** A call that asks the backend to repair a reply: the repair of the
    fields quotes the decoded reply in its instruction and sends no text,
    the repair of the JSON sends the raw reply as its text. *)
Definition repair_of (reports : pystr) (c : call) : Prop :=
  (call_tag c = CallFixFields /\ call_text c = [])
  \/ (call_tag c = CallFixJson /\ call_text c = reports).

(** The call of the second stage for one record. *)
Definition final_call (E : env) (prompt : pystr) (report : dict) : call :=
  {| call_tag := CallFinal; call_instruction := prompt;
     call_text := py_repr E (VDict report) |}.

(** The call of the first stage. *)
Definition initial_call (E : env) (report_data : pystr) : call :=
  {| call_tag := CallInitial;
     call_instruction := load_prompt E ReportBuilder.prompt_initial true false None;
     call_text := report_data |}.

Definition is_repair (c : call) : Prop :=
  call_tag c = CallFixFields \/ call_tag c = CallFixJson.

(** The calls one run of the pipeline adds to the journal: the initial
    call, at most one repair, the calls of the second stage for the first
    records of the first stage, and at most one repair. *)
Definition journal_of_build (E : env) (report_data : pystr) (w : world)
    (added : list call) : Prop :=
  exists r1 finals r2,
    added = initial_call E report_data :: r1 ++ finals ++ r2
    /\ (length r1 <= 1)%nat /\ (length r2 <= 1)%nat
    /\ Forall is_repair (r1 ++ r2)
    /\ Forall (fun c => call_tag c = CallFinal) finals
    /\ forall records w1,
         ReportBuilder._process_stage E (ReportBuilder.RawText report_data)
           ReportBuilder.prompt_initial true w = (Ok records, w1) ->
         exists k,
           finals = map (final_call E (load_prompt E ReportBuilder.prompt_final
                                         false false None))
                        (take k records).


Definition alias_keys : list pystr :=
  [f_day_area; f_total_area; f_day_yield; f_total_yield].

Definition display_keys : list pystr :=
  [k_day_area; k_total_area; k_day_yield; k_total_yield].

(** A record with the four keys the renaming loop pops. *)
Definition has_aliases (item : dict) : bool :=
  forallb (fun f => dict_has f item) alias_keys.

(** [item'] is [item] with the value of each alias filed under its
    display name instead. *)
Definition renamed_from (item item' : dict) : Prop :=
  dict_get k_day_area item' = dict_get f_day_area item
  /\ dict_get k_total_area item' = dict_get f_total_area item
  /\ dict_get k_day_yield item' = dict_get f_day_yield item
  /\ dict_get k_total_yield item' = dict_get f_total_yield item
  /\ (forall f, In f alias_keys -> dict_get f item' = None)
  /\ (forall key, ~ In key alias_keys -> ~ In key display_keys ->
                  dict_get key item' = dict_get key item).

(** ** The correction dialogue *)

(** A record with some field that holds the sentinel. *)
Definition has_sentinel (entry : dict) : bool :=
  existsb (fun kv => py_eq_str (snd kv) sentinel) entry.

(** What [prompt] answers when nothing is to be corrected. *)
Definition final_offer (report : list dict) : Correction.outcome :=
  match Correction.finalize report with
  | (es', None) => Correction.OfferReport es'
  | (_, Some x) => Correction.Raised x
  end.

(** Both yields of [e'] are those of [e] divided by 100. *)
Definition divided (e e' : dict) : Prop :=
  exists t d qt qd,
    dict_get k_total_yield e = Some t /\ dict_get k_day_yield e = Some d
    /\ Correction.div100 t = Ok qt /\ Correction.div100 d = Ok qd
    /\ dict_get k_total_yield e' = Some qt /\ dict_get k_day_yield e' = Some qd.

End Shapes.

(* ===================================================================== *)
(** * Further examples *)
(* ===================================================================== *)

Module MoreExamples.

Import Samples Examples.

(** A record with every optional field, as the backend names them. *)
Definition full_entry : value :=
  VList [VDict [(k_date, VStr (u "01.05.2024")); (k_operation, VStr harvest);
                (k_data, VStr (u "убрали 7 га")); (k_division, VStr (u "АОР"));
                (k_culture, VNone); (k_day_area, VInt 7);
                (k_total_area, VStr sentinel); (k_day_yield, VFloat (FLit false 5 1));
                (k_total_yield, VInt 1500)]].

(** What the schema makes of it: the null field is gone, the numbers are
    filed under the names of the attributes. *)
Definition full_entry_dumped : list dict :=
  [[(k_date, VStr (u "01.05.2024")); (k_operation, VStr harvest);
    (k_data, VStr (u "убрали 7 га")); (k_division, VStr (u "АОР"));
    (f_day_area, VInt 7); (f_total_area, VStr sentinel);
    (f_day_yield, VFloat (FLit false 5 1)); (f_total_yield, VInt 1500)]].

(** A backend that reads the report and then refuses its only record. *)
Definition late_refusal_backend : env :=
  sample_env [Content stage1_reply; Content (u "Отчёт не может быть обработан.")].

(** A reply whose record has a null date. *)
Definition null_dated : pystr :=
  jq "[{'Дата':null,'Операция':'Сев','Данные':'посеяли 5 га'}]".

(** A backend whose second call of three fails. *)
Definition three_records : list dict :=
  [[(k_data, VStr (u "a"))]; [(k_data, VStr (u "b"))]; [(k_data, VStr (u "c"))]].
Definition failing_backend : env :=
  sample_env [Content (u "{}"); Failure; Content (u "{}")].

(** A backend that finds nothing to report. *)
Definition empty_backend : env := sample_env [Content (u "[]")].


(** A reply whose record has no date. *)
Definition undated : pystr := jq "[{'Операция':'Сев','Данные':'посеяли 5 га'}]".

(** A second stage that answers with the four numbers under their
    display names, which the schema reads as the aliases. *)
Definition complete_reply : pystr :=
  jq "{'Дата':'01.05.2024','Операция':'Сев','Данные':'посеяли 5 га','За день, га':5,'С начала операции, га':15,'Вал за день, ц':0,'Вал с начала, ц':0}".
Definition complete_backend : env := sample_env [Content stage1_reply; Content complete_reply].

(** A harvest whose yield for the day the backend could not read. *)
Definition unread_yield : list dict :=
  [ [(k_date, VStr (u "01.05.2024")); (k_operation, VStr harvest);
     (k_data, VStr (u "убрали 7 га")); (k_day_area, VInt 7); (k_total_area, VInt 20);
     (k_day_yield, VStr sentinel); (k_total_yield, VInt 1500)] ].

(** [json.dumps] as far as the empty list goes. *)
Definition dumps_empty (v : value) : result pystr :=
  match v with
  | VList [] => Ok (u "[]")
  | _ => Raise TypeError
  end.

End MoreExamples.

(* ===================================================================== *)
(** * db/models.py and db/interaction.py: records on their way to the table *)
(* ===================================================================== *)

Module Db.

(** What a field of a record holds once the bot hands it over: a loaded
    value, or the [datetime] that [strptime] built from the date (the
    midnight of that day). *)
Inductive cell :=
| Plain (v : value)
| Stamp (d : date).

(** A dictionary of cells. *)
Abbreviation row := (list (pystr * cell)).

(** [None]. *)
Definition none : cell := Plain VNone.

(** [d.get(k)] and [d[k] = v] on insertion-ordered dictionaries. *)
Fixpoint get {A} (k : pystr) (d : list (pystr * A)) : option A :=
  match d with
  | [] => None
  | (k', v) :: d' => if str_eqb k' k then Some v else get k d'
  end.

Fixpoint set {A} (k : pystr) (v : A) (d : list (pystr * A)) : list (pystr * A) :=
  match d with
  | [] => [(k, v)]
  | (k', v') :: d' => if str_eqb k' k then (k, v) :: d' else (k', v') :: set k v d'
  end.

Definition c_id : pystr := Eval vm_compute in u "id".
Definition c_date : pystr := Eval vm_compute in u "date".
Definition c_unit : pystr := Eval vm_compute in u "unit".
Definition c_operation : pystr := Eval vm_compute in u "operation".
Definition c_cultura : pystr := Eval vm_compute in u "cultura".
Definition c_GA_per_day : pystr := Eval vm_compute in u "GA_per_day".
Definition c_GA_per_operation : pystr := Eval vm_compute in u "GA_per_operation".
Definition c_val_per_day : pystr := Eval vm_compute in u "val_per_day".
Definition c_val_per_operation : pystr := Eval vm_compute in u "val_per_operation".

(** The module-level dictionary [mapping]: display name to column. *)
Definition mapping : list (pystr * pystr) :=
  [ (k_date, c_date); (k_division, c_unit); (k_operation, c_operation);
    (k_culture, c_cultura); (k_day_area, c_GA_per_day);
    (k_total_area, c_GA_per_operation); (k_day_yield, c_val_per_day);
    (k_total_yield, c_val_per_operation) ].

(** The body of the inner loop of [insert_objects]: a key without a
    column is passed over. *)
Definition file_under (mapped : row) (kv : pystr * cell) : row :=
  match get (fst kv) mapping with
  | Some (c :: column_name) => set (c :: column_name) (snd kv) mapped
  | _ => mapped
  end.

(** The inner loop of [insert_objects] on one record. *)
Definition mapped_fields (record : row) : row := fold_left file_under record [].

(** An [OperationInfo] object: one attribute for each column; an
    attribute that was never assigned reads as [None]. *)
Record OperationInfo := {
  id : cell;
  date : cell;
  unit : cell;
  operation : cell;
  cultura : cell;
  GA_per_day : cell;
  GA_per_operation : cell;
  val_per_day : cell;
  val_per_operation : cell
}.

Definition blank : OperationInfo :=
  {| id := none; date := none; unit := none; operation := none; cultura := none;
     GA_per_day := none; GA_per_operation := none; val_per_day := none;
     val_per_operation := none |}.

(** [setattr(self, k, v)] in the constructor the declarative base
    provides, which raises [TypeError] on a name that is not an attribute
    of the class. *)
Definition set_attr (o : OperationInfo) (k : pystr) (v : cell) : result OperationInfo :=
  if str_eqb k c_id then
    Ok {| id := v; date := date o; unit := unit o; operation := operation o;
          cultura := cultura o; GA_per_day := GA_per_day o;
          GA_per_operation := GA_per_operation o; val_per_day := val_per_day o;
          val_per_operation := val_per_operation o |}
  else if str_eqb k c_date then
    Ok {| id := id o; date := v; unit := unit o; operation := operation o;
          cultura := cultura o; GA_per_day := GA_per_day o;
          GA_per_operation := GA_per_operation o; val_per_day := val_per_day o;
          val_per_operation := val_per_operation o |}
  else if str_eqb k c_unit then
    Ok {| id := id o; date := date o; unit := v; operation := operation o;
          cultura := cultura o; GA_per_day := GA_per_day o;
          GA_per_operation := GA_per_operation o; val_per_day := val_per_day o;
          val_per_operation := val_per_operation o |}
  else if str_eqb k c_operation then
    Ok {| id := id o; date := date o; unit := unit o; operation := v;
          cultura := cultura o; GA_per_day := GA_per_day o;
          GA_per_operation := GA_per_operation o; val_per_day := val_per_day o;
          val_per_operation := val_per_operation o |}
  else if str_eqb k c_cultura then
    Ok {| id := id o; date := date o; unit := unit o; operation := operation o;
          cultura := v; GA_per_day := GA_per_day o;
          GA_per_operation := GA_per_operation o; val_per_day := val_per_day o;
          val_per_operation := val_per_operation o |}
  else if str_eqb k c_GA_per_day then
    Ok {| id := id o; date := date o; unit := unit o; operation := operation o;
          cultura := cultura o; GA_per_day := v;
          GA_per_operation := GA_per_operation o; val_per_day := val_per_day o;
          val_per_operation := val_per_operation o |}
  else if str_eqb k c_GA_per_operation then
    Ok {| id := id o; date := date o; unit := unit o; operation := operation o;
          cultura := cultura o; GA_per_day := GA_per_day o;
          GA_per_operation := v; val_per_day := val_per_day o;
          val_per_operation := val_per_operation o |}
  else if str_eqb k c_val_per_day then
    Ok {| id := id o; date := date o; unit := unit o; operation := operation o;
          cultura := cultura o; GA_per_day := GA_per_day o;
          GA_per_operation := GA_per_operation o; val_per_day := v;
          val_per_operation := val_per_operation o |}
  else if str_eqb k c_val_per_operation then
    Ok {| id := id o; date := date o; unit := unit o; operation := operation o;
          cultura := cultura o; GA_per_day := GA_per_day o;
          GA_per_operation := GA_per_operation o; val_per_day := val_per_day o;
          val_per_operation := v |}
  else Raise TypeError.

(** The constructor call, with the record as keyword arguments. *)
Fixpoint construct (o : OperationInfo) (fields : row) : result OperationInfo :=
  match fields with
  | [] => Ok o
  | (k, v) :: rest =>
      match set_attr o k v with
      | Ok o' => construct o' rest
      | Raise e => Raise e
      end
  end.

Fixpoint construct_all (records : list row) : result (list OperationInfo) :=
  match records with
  | [] => Ok []
  | record :: rest =>
      match construct blank record with
      | Raise e => Raise e
      | Ok o =>
          match construct_all rest with
          | Raise e => Raise e
          | Ok os => Ok (o :: os)
          end
      end
  end.

(** [insert_objects(records)] up to the objects it hands to
    [session.bulk_save_objects]; what the database makes of them is not
    part of the model. *)
Definition insert_objects (records : list row) : result (list OperationInfo) :=
  let mapped_records := map mapped_fields records in
  construct_all mapped_records.

(** The assignments of [update_record_by_id] on the record it found. *)
Definition update_fields (record : OperationInfo) (new_data : row) : OperationInfo :=
  let assign (k : pystr) (current : cell) : cell :=
    match get k new_data with Some v => v | None => current end in
  {| id := id record;
     date := assign k_date (date record);
     unit := assign k_division (unit record);
     operation := assign k_operation (operation record);
     cultura := assign k_culture (cultura record);
     GA_per_day := assign k_day_area (GA_per_day record);
     GA_per_operation := assign k_total_area (GA_per_operation record);
     val_per_day := assign k_day_yield (val_per_day record);
     val_per_operation := assign k_total_yield (val_per_operation record) |}.

(** [OperationInfo.to_dict(self)]. *)
Definition to_dict (o : OperationInfo) : row :=
  [ (c_id, id o); (k_date, date o); (k_division, unit o); (k_operation, operation o);
    (k_culture, cultura o); (k_day_area, GA_per_day o);
    (k_total_area, GA_per_operation o); (k_day_yield, val_per_day o);
    (k_total_yield, val_per_operation o) ].

(** The eight display names, in the order of [to_dict]. *)
Definition display_names : list pystr :=
  [k_date; k_division; k_operation; k_culture; k_day_area; k_total_area;
   k_day_yield; k_total_yield].

(** The names of the columns. *)
Definition column_names : list pystr :=
  [c_id; c_date; c_unit; c_operation; c_cultura; c_GA_per_day; c_GA_per_operation;
   c_val_per_day; c_val_per_operation].

(** [getattr(o, k)] for the name of a column. *)
Definition attr (k : pystr) (o : OperationInfo) : option cell :=
  if str_eqb k c_id then Some (id o)
  else if str_eqb k c_date then Some (date o)
  else if str_eqb k c_unit then Some (unit o)
  else if str_eqb k c_operation then Some (operation o)
  else if str_eqb k c_cultura then Some (cultura o)
  else if str_eqb k c_GA_per_day then Some (GA_per_day o)
  else if str_eqb k c_GA_per_operation then Some (GA_per_operation o)
  else if str_eqb k c_val_per_day then Some (val_per_day o)
  else if str_eqb k c_val_per_operation then Some (val_per_operation o)
  else None.

(** What [to_dict] shows of an object built from [record]: no [id], and
    under each display name the value the record has there, or [None]. *)
Definition shown (record : row) : row :=
  (c_id, none)
  :: map (fun key => (key, match get key record with Some v => v | None => none end))
         display_names.

(** A record of the bot as a dictionary of cells. *)
Definition row_of (d : dict) : row := map (fun kv => (fst kv, Plain (snd kv))) d.

End Db.

(* ===================================================================== *)
(** * telegram_bot.py: the buttons under an offered report *)
(* ===================================================================== *)

Module Commit.

Local Open Scope N_scope.

(** ** [datetime.strptime(s, "%d.%m.%Y")]

    The format compiles to a regular expression with one group for each
    directive; the string must match it to its end, and the three numbers
    must name a day of the calendar.  [digit] gives the decimal value of
    the characters of the class [\d]. *)

Definition from_1_to_9 (c : N) : bool := (49 <=? c) && (c <=? 57).

Section Strptime.

Variable digit : N -> option N.

(** The group of [%d]: 3[0-1], [1-2]\d, 0[1-9], [1-9], or a space and
    [1-9], tried in this order. *)
Definition scan_d (s : pystr) : option (N * pystr) :=
  match s with
  | a :: b :: r =>
      if (a =? 51) && ((b =? 48) || (b =? 49)) then Some (30 + (b - 48), r)
      else
        match (if (a =? 49) || (a =? 50) then digit b else None) with
        | Some v => Some ((a - 48) * 10 + v, r)
        | None =>
            if (a =? 48) && from_1_to_9 b then Some (b - 48, r)
            else if from_1_to_9 a then Some (a - 48, b :: r)
            else if (a =? 32) && from_1_to_9 b then Some (b - 48, r)
            else None
        end
  | [a] => if from_1_to_9 a then Some (a - 48, []) else None
  | [] => None
  end.

(** The group of [%m]: 1[0-2], 0[1-9] or [1-9]. *)
Definition scan_m (s : pystr) : option (N * pystr) :=
  match s with
  | a :: b :: r =>
      if (a =? 49) && (48 <=? b) && (b <=? 50) then Some (10 + (b - 48), r)
      else if (a =? 48) && from_1_to_9 b then Some (b - 48, r)
      else if from_1_to_9 a then Some (a - 48, b :: r)
      else None
  | [a] => if from_1_to_9 a then Some (a - 48, []) else None
  | [] => None
  end.

(** The group of [%Y]: four digits. *)
Definition scan_Y (s : pystr) : option (N * pystr) :=
  match s with
  | a :: b :: c :: d :: r =>
      match digit a, digit b, digit c, digit d with
      | Some x, Some y, Some z, Some w => Some (((x * 10 + y) * 10 + z) * 10 + w, r)
      | _, _, _, _ => None
      end
  | _ => None
  end.

(** A literal dot. *)
Definition scan_dot (s : pystr) : option pystr :=
  match s with
  | c :: r => if c =? 46 then Some r else None
  | [] => None
  end.

Definition strptime_dmy (s : pystr) : result date :=
  match scan_d s with
  | None => Raise ValueError
  | Some (d, s1) =>
      match scan_dot s1 with
      | None => Raise ValueError
      | Some s2 =>
          match scan_m s2 with
          | None => Raise ValueError
          | Some (m, s3) =>
              match scan_dot s3 with
              | None => Raise ValueError
              | Some s4 =>
                  match scan_Y s4 with
                  | Some (y, []) =>
                      if (1 <=? y) && (Z.of_N d <=? Samples.days_in_month (Z.of_N y) (Z.of_N m))%Z
                      then Ok {| year := Z.of_N y; month := Z.of_N m; day := Z.of_N d |}
                      else Raise ValueError
                  | _ => Raise ValueError
                  end
              end
          end
      end
  end.

(** The body of the loop of [final_yes] on one record:
    [item["Дата"] = datetime.strptime(item["Дата"], "%d.%m.%Y")]. *)
Definition stamp_item (item : Db.row) : result Db.row :=
  match Db.get k_date item with
  | None => Raise KeyError
  | Some (Db.Plain (VStr s)) =>
      match strptime_dmy s with
      | Ok dt => Ok (Db.set k_date (Db.Stamp dt) item)
      | Raise e => Raise e
      end
  | Some _ => Raise TypeError
  end.

(** The loop, on the list in place: the records as the loop leaves them,
    and the exception that interrupted it, if any. *)
Fixpoint stamp_loop (items : list Db.row) : list Db.row * option exn :=
  match items with
  | [] => ([], None)
  | item :: rest =>
      match stamp_item item with
      | Raise e => (items, Some e)
      | Ok item' =>
          let '(rest', x) := stamp_loop rest in
          (item' :: rest', x)
      end
  end.

(** [self.last_report]: the list of records the worker returned, or a
    text ([ERROR_TEXT]). *)
Inductive held :=
| Rows (l : list Db.row)
| Text (s : pystr).

(** The attribute of the bot, which all conversations share, and the key
    of [context.user_data], which belongs to one conversation. *)
Record state := {
  last_report : held;
  corrected_entries : option (list Db.row)
}.

Inductive outcome :=
| Inserted (objects : list Db.OperationInfo)
| NotInserted
| Ignored
| Raised (e : exn).

Definition final_yes : pystr := Eval vm_compute in u "final_yes".
Definition final_no : pystr := Eval vm_compute in u "final_no".

(** [button_callback] for a press with [query.data = data].  On
    [final_yes] a list under [corrected_entries] that is not empty
    becomes [self.last_report], the very same list; an exception leaves
    before the key is popped. *)
Definition button_callback (data : pystr) (st : state) : state * outcome :=
  if str_eqb data final_yes then
    let '(report, shared) :=
      match corrected_entries st with
      | Some (e :: es) => (Rows (e :: es), true)
      | _ => (last_report st, false)
      end in
    let kept (l : list Db.row) : option (list Db.row) :=
      if shared then Some l else corrected_entries st in
    match report with
    | Rows l =>
        match stamp_loop l with
        | (l', Some e) => ({| last_report := Rows l'; corrected_entries := kept l' |}, Raised e)
        | (l', None) =>
            match Db.insert_objects l' with
            | Ok objects =>
                ({| last_report := Rows l'; corrected_entries := None |}, Inserted objects)
            | Raise e =>
                ({| last_report := Rows l'; corrected_entries := kept l' |}, Raised e)
            end
        end
    | Text [] => ({| last_report := report; corrected_entries := None |}, Inserted [])
    | Text (c :: s) =>
        ({| last_report := report; corrected_entries := corrected_entries st |},
         Raised TypeError)
    end
  else if str_eqb data final_no then
    ({| last_report := last_report st; corrected_entries := None |}, NotInserted)
  else ({| last_report := last_report st; corrected_entries := None |}, Ignored).

End Strptime.

(** The digits of ASCII. *)
Definition ascii_digit (c : N) : option N :=
  if (48 <=? c) && (c <=? 57) then Some (c - 48) else None.

(** The report a press of [final_yes] works on. *)
Definition selected (st : state) : held :=
  match corrected_entries st with
  | Some (e :: es) => Rows (e :: es)
  | _ => last_report st
  end.

(** [self.last_report = await send_and_receive(query_text)] in [prompt],
    for a reply that is a list of records: the attribute of the bot is
    replaced, the keys of the conversation stay. *)
Definition submit (report : list Db.row) (st : state) : state :=
  {| last_report := Rows report; corrected_entries := corrected_entries st |}.

(** A date of the calendar with a year of four digits. *)
Definition calendar_date (dt : date) : Prop :=
  (1000 <= year dt <= 9999 /\ 1 <= month dt <= 12
   /\ 1 <= day dt <= Samples.days_in_month (year dt) (month dt))%Z.

(** On ASCII, the class [\d] holds the ten digits and nothing else. *)
Definition reads_ascii (digit : N -> option N) : Prop :=
  forall c, c < 128 -> digit c = ascii_digit c.

(** [item'] is [item] with its date, a string in the form
    day.month.year, replaced by the [datetime] it names. *)
Definition stamped_from (digit : N -> option N) (item item' : Db.row) : Prop :=
  exists s dt,
    Db.get k_date item = Some (Db.Plain (VStr s))
    /\ strptime_dmy digit s = Ok dt
    /\ item' = Db.set k_date (Db.Stamp dt) item.

(** An offered report that was corrected and finalized, and a later one. *)
Definition earlier_report : list Db.row :=
  [Db.row_of [(k_date, VStr (u "01.05.2024")); (k_operation, VStr (u "Пахота"));
              (k_culture, VStr (u "Пшеница"))]].
Definition later_report : list Db.row :=
  [Db.row_of [(k_date, VStr (u "02.05.2024")); (k_operation, VStr (u "Сев"));
              (k_day_area, VInt 5)]].

(** A report whose second record has a date the backend left as text. *)
Definition misdated_report : list Db.row :=
  [Db.row_of [(k_date, VStr (u "01.05.2024")); (k_operation, VStr (u "Сев"))];
   Db.row_of [(k_date, VStr (u "вчера")); (k_operation, VStr (u "Сев"))]].

End Commit.

(* ===================================================================== *)
(** * utils.py and telegram_bot.py: the attachment of a message *)
(* ===================================================================== *)

Module Attachment.

Local Open Scope Z_scope.

(** What [prompt] finds on the message: a document with its name, or a
    photo. *)
Inductive attachment :=
| Document (file_name : pystr)
| Photo.

(** The exceptions of this part: the [ValueError] of an extension without
    a handler, the [RuntimeError] that replaces the exception of a
    handler, and whatever the calls to Telegram raise. *)
Inductive failure :=
| Unsupported
| Unreadable
| Propagated (e : exn).

Inductive reply (A : Type) :=
| Got (a : A)
| Failed (f : failure).
Arguments Got {A} a.
Arguments Failed {A} f.

(** What lies outside the process: [file_size] of the object that
    [context.bot.get_file] returns (or the exception of the call), the
    download, the two functions of [os.path], and the five readers. *)
Record io := {
  get_file : result (option Z);
  download_to_drive : option exn;
  splitext_lower : pystr -> pystr;
  join_upload : pystr -> pystr;
  _handle_file : pystr -> result pystr;
  _handle_image_file : pystr -> result pystr;
  _handle_excel_file : pystr -> result pystr;
  _handle_doc_file : pystr -> result pystr;
  _handle_text_file : pystr -> result pystr
}.

(** The dictionary [file_handlers]. *)
Definition file_handlers (I : io) : list (pystr * (pystr -> result pystr)) :=
  [ (u ".docx", _handle_file I); (u ".pdf", _handle_file I);
    (u ".jpg", _handle_image_file I); (u ".jpeg", _handle_image_file I);
    (u ".png", _handle_image_file I); (u ".xlsx", _handle_excel_file I);
    (u ".xls", _handle_excel_file I); (u ".doc", _handle_doc_file I);
    (u ".txt", _handle_text_file I) ].

(** [extract_file_content(file_path, file_extension)]. *)
Definition extract_file_content (I : io) (file_path file_extension : pystr)
    : reply pystr :=
  match Db.get file_extension (file_handlers I) with
  | Some handler =>
      match handler file_path with
      | Ok content => Got content
      | Raise _ => Failed Unreadable
      end
  | None => Failed Unsupported
  end.

(** [manage_attachment(update, context, file, photo)] when one of the two
    is there: [Got None] is the bare [return] that follows the reply
    about the size. *)
Definition manage_attachment (I : io) (a : attachment) : reply (option pystr) :=
  let file_name := match a with Document n => n | Photo => u "image.png" end in
  let file_extension := splitext_lower I file_name in
  let file_path := join_upload I file_name in
  match get_file I with
  | Raise e => Failed (Propagated e)
  | Ok None => Failed (Propagated TypeError)
  | Ok (Some file_size) =>
      if 10 <=? file_size / 1000000 then Got None
      else
        match download_to_drive I with
        | Some e => Failed (Propagated e)
        | None =>
            match extract_file_content I file_path file_extension with
            | Got file_content => Got (Some file_content)
            | Failed f => Failed f
            end
        end
  end.

Definition table_tag : pystr := Eval vm_compute in u "[ТАБЛИЦА]:".
Definition none_text : pystr := Eval vm_compute in u "None".

(** The text [prompt] sends to the worker: the content of the attachment
    under a tag and then the text of the message; [None] is the apology
    that ends the handler without sending anything. *)
Definition job_text (I : io) (a : option attachment) (query_text : pystr)
    : option pystr :=
  match a with
  | None => Some query_text
  | Some a =>
      match manage_attachment I a with
      | Got file_content =>
          let shown := match file_content with Some c => c | None => none_text end in
          Some (table_tag ++ [10%N] ++ shown ++ [10%N; 10%N] ++ query_text)
      | Failed _ => None
      end
  end.

(** A document of twelve million bytes, with readers that are never
    reached. *)
Definition large_file : io :=
  {| get_file := Ok (Some 12000000);
     download_to_drive := None;
     splitext_lower := fun _ => u ".xlsx";
     join_upload := fun n => u "/tmp/" ++ n;
     _handle_file := fun _ => Raise BackendError;
     _handle_image_file := fun _ => Raise BackendError;
     _handle_excel_file := fun _ => Raise BackendError;
     _handle_doc_file := fun _ => Raise BackendError;
     _handle_text_file := fun _ => Raise BackendError |}.

End Attachment.

(* ===================================================================== *)
(** * Properties *)
(* ===================================================================== *)

(** ** Strings and dictionaries *)

Lemma str_eqb_eq (a b : pystr) : str_eqb a b = true <-> a = b.
Proof. unfold str_eqb. apply bool_decide_eq_true. Qed.

Lemma str_eqb_neq (a b : pystr) : str_eqb a b = false <-> a <> b.
Proof. unfold str_eqb. apply bool_decide_eq_false. Qed.

Lemma str_eqb_refl (a : pystr) : str_eqb a a = true.
Proof. by apply str_eqb_eq. Qed.

Lemma dict_get_set_eq k v (d : dict) : dict_get k (dict_set k v d) = Some v.
Proof.
  induction d as [|[k' v'] d IH]; simpl.
  - by rewrite str_eqb_refl.
  - destruct (str_eqb k' k) eqn:Hk; simpl.
    + by rewrite str_eqb_refl.
    + by rewrite Hk.
Qed.

Lemma dict_get_set_ne k k' v (d : dict) :
  k <> k' -> dict_get k' (dict_set k v d) = dict_get k' d.
Proof.
  intros Hne. induction d as [|[k0 v0] d IH]; simpl.
  - by apply str_eqb_neq in Hne as ->.
  - destruct (str_eqb k0 k) eqn:Hk; simpl.
    + apply str_eqb_eq in Hk as ->. by apply str_eqb_neq in Hne as ->.
    + by rewrite IH.
Qed.

Lemma dict_get_remove_eq k (d : dict) : dict_get k (dict_remove k d) = None.
Proof.
  unfold dict_remove. induction d as [|[k' v'] d IH]; simpl; [done|].
  destruct (str_eqb k' k) eqn:Hk; simpl; [done|]. by rewrite Hk.
Qed.

Lemma dict_get_remove_ne k k' (d : dict) :
  k <> k' -> dict_get k' (dict_remove k d) = dict_get k' d.
Proof.
  intros Hne. unfold dict_remove. induction d as [|[k0 v0] d IH]; simpl; [done|].
  destruct (str_eqb k0 k) eqn:Hk; simpl.
  - apply str_eqb_eq in Hk as ->. by apply str_eqb_neq in Hne as ->.
  - by rewrite IH.
Qed.

Lemma dict_get_remove_none k k' (d : dict) :
  dict_get k' d = None -> dict_get k' (dict_remove k d) = None.
Proof.
  intros H. destruct (decide (k = k')) as [->|Hne].
  - apply dict_get_remove_eq.
  - by rewrite dict_get_remove_ne.
Qed.

(** ** The allow-list check *)

Module AccessFacts.

Import Access Examples.

Lemma int_not_in_strs (n : Z) (l : list pystr) : py_in_strs (VInt n) l = false.
Proof. unfold py_in_strs. induction l; simpl; auto. Qed.

(** C10. Unless the allow-list is the wildcard, a user who is not an
    admin is refused by [is_allowed], whatever the list contains, and so
    also when the decimal form of the identifier is an element of the
    list: the integer identifier never equals one of its strings. *)
Theorem is_allowed_refuses_listed_ids (cfg : config) (user_id : Z) :
  allowed_user_ids cfg <> u "*" ->
  is_admin cfg user_id = false ->
  is_allowed cfg user_id = false.
Proof.
  intros Hwild Hadmin.
  unfold is_allowed. apply str_eqb_neq in Hwild. rewrite Hwild, Hadmin.
  by rewrite int_not_in_strs.
Qed.

Lemma is_allowed_refuses_listed_ids_witness :
  In (str_of_int 123) (split_on 44 (allowed_user_ids listed_config)) /\
  is_allowed listed_config 123 = false.
Proof.
  split.
  - vm_compute. by left.
  - apply (is_allowed_refuses_listed_ids listed_config 123).
    + vm_compute. discriminate.
    + reflexivity.
Defined.

End AccessFacts.

(** ** The corners of the table *)

Module GeometryFacts.

Import Geometry Rules Examples.
Local Open Scope Z_scope.

Lemma wrap_small (bits z : Z) :
  32 <= bits -> - 2 ^ 31 <= z < 2 ^ 31 -> wrap bits z = z.
Proof.
  intros Hb Hz. unfold wrap.
  assert (2 ^ 31 <= 2 ^ (bits - 1)) by (apply Z.pow_le_mono_r; lia).
  assert (2 ^ bits = 2 * 2 ^ (bits - 1)) as ->.
  { replace bits with (Z.succ (bits - 1)) at 1 by lia. rewrite Z.pow_succ_r; lia. }
  rewrite Z.mod_small; lia.
Qed.

Lemma f32_of_int_small (z : Z) : 0 <= z < 2 ^ 24 -> f32_of_int z = z.
Proof.
  intros Hz. unfold f32_of_int.
  destruct (decide (z = 0)) as [->|Hnz]; [reflexivity|].
  assert (Z.log2 (Z.abs z) < 24).
  { rewrite Z.abs_eq by lia. apply Z.log2_lt_pow2; lia. }
  destruct (Z.leb_spec (Z.log2 (Z.abs z) - 23) 0); [reflexivity | lia].
Qed.

Lemma f32_point_pixel (p : point) : pixel p -> f32_point p = p.
Proof.
  intros [Hx Hy]. destruct p as [x y]. unfold f32_point. simpl in *.
  by rewrite !f32_of_int_small.
Qed.

(** The scan keeps the index of a least element of what it has seen. *)
Lemma argmin_from_spec (l pre : list Z) (best_i : nat) (best : Z) :
  (pre ++ l) !! best_i = Some best ->
  (forall x, In x pre -> best <= x) ->
  exists v, (pre ++ l) !! argmin_from best_i best (length pre) l = Some v /\
            forall x, In x (pre ++ l) -> v <= x.
Proof.
  revert pre best_i best. induction l as [|x t IH]; intros pre bi b Hb Hpre; simpl.
  - exists b. split; [done|]. rewrite app_nil_r. done.
  - replace (pre ++ x :: t) with ((pre ++ [x]) ++ t) in * by (by rewrite <- app_assoc).
    replace (S (length pre)) with (length (pre ++ [x])) by (rewrite length_app; simpl; lia).
    destruct (Z.ltb_spec x b).
    + apply IH.
      * rewrite <- app_assoc. simpl. by rewrite list_lookup_middle.
      * intros y [Hy|[->|[]]]%in_app_or; [specialize (Hpre y Hy)|]; lia.
    + apply IH; [done|].
      intros y [Hy|[->|[]]]%in_app_or; [by apply Hpre | lia].
Qed.

Lemma argmax_from_spec (l pre : list Z) (best_i : nat) (best : Z) :
  (pre ++ l) !! best_i = Some best ->
  (forall x, In x pre -> x <= best) ->
  exists v, (pre ++ l) !! argmax_from best_i best (length pre) l = Some v /\
            forall x, In x (pre ++ l) -> x <= v.
Proof.
  revert pre best_i best. induction l as [|x t IH]; intros pre bi b Hb Hpre; simpl.
  - exists b. split; [done|]. rewrite app_nil_r. done.
  - replace (pre ++ x :: t) with ((pre ++ [x]) ++ t) in * by (by rewrite <- app_assoc).
    replace (S (length pre)) with (length (pre ++ [x])) by (rewrite length_app; simpl; lia).
    destruct (Z.ltb_spec b x).
    + apply IH.
      * rewrite <- app_assoc. simpl. by rewrite list_lookup_middle.
      * intros y [Hy|[->|[]]]%in_app_or; [specialize (Hpre y Hy)|]; lia.
    + apply IH; [done|].
      intros y [Hy|[->|[]]]%in_app_or; [by apply Hpre | lia].
Qed.

Lemma argmin_spec (l : list Z) :
  l <> [] ->
  exists i v, argmin l = Some i /\ l !! i = Some v /\ forall x, In x l -> v <= x.
Proof.
  destruct l as [|x t]; [done|]. intros _.
  destruct (argmin_from_spec t [x] 0 x) as (v & Hv & Hmin); [done| |].
  - intros y [->|[]]. lia.
  - exists (argmin_from 0 x 1 t), v. by split.
Qed.

Lemma argmax_spec (l : list Z) :
  l <> [] ->
  exists i v, argmax l = Some i /\ l !! i = Some v /\ forall x, In x l -> x <= v.
Proof.
  destruct l as [|x t]; [done|]. intros _.
  destruct (argmax_from_spec t [x] 0 x) as (v & Hv & Hmax); [done| |].
  - intros y [->|[]]. lia.
  - exists (argmax_from 0 x 1 t), v. by split.
Qed.

(** The point at the index of a least image minimizes the function. *)
Lemma lookup_map_min (f : point -> Z) (pts : list point) (i : nat) (v : Z) :
  map f pts !! i = Some v -> (forall x, In x (map f pts) -> v <= x) ->
  exists p, pts !! i = Some p /\ minimizes f p pts.
Proof.
  intros Hi Hmin. rewrite list_lookup_fmap in Hi.
  destruct (pts !! i) as [p|] eqn:Hp; [|done]. simpl in Hi. injection Hi as <-.
  exists p. split; [done|]. split.
  - apply list_elem_of_In. by eapply list_elem_of_lookup_2.
  - intros q Hq. apply Hmin. by apply in_map.
Qed.

Lemma lookup_map_max (f : point -> Z) (pts : list point) (i : nat) (v : Z) :
  map f pts !! i = Some v -> (forall x, In x (map f pts) -> x <= v) ->
  exists p, pts !! i = Some p /\ maximizes f p pts.
Proof.
  intros Hi Hmax. rewrite list_lookup_fmap in Hi.
  destruct (pts !! i) as [p|] eqn:Hp; [|done]. simpl in Hi. injection Hi as <-.
  exists p. split; [done|]. split.
  - apply list_elem_of_In. by eapply list_elem_of_lookup_2.
  - intros q Hq. apply Hmax. by apply in_map.
Qed.

Lemma row_sums_exact (pts : list point) :
  Forall pixel pts -> row_sums pts = map (fun p => fst p + snd p) pts.
Proof.
  intros H. unfold row_sums. apply map_ext_in. intros p Hp.
  rewrite List.Forall_forall in H. destruct (H p Hp) as [Hx Hy].
  apply wrap_small; lia.
Qed.

Lemma row_diffs_exact (bits : Z) (pts : list point) :
  32 <= bits -> Forall pixel pts ->
  row_diffs bits pts = map (fun p => snd p - fst p) pts.
Proof.
  intros Hb H. unfold row_diffs. apply map_ext_in. intros p Hp.
  rewrite List.Forall_forall in H. destruct (H p Hp) as [Hx Hy].
  apply wrap_small; lia.
Qed.

Lemma order_points_rule (bits : Z) (pts : list point) :
  32 <= bits -> pts <> [] -> Forall pixel pts ->
  exists rect, order_points bits pts = Some rect /\ diff_corner_rule pts rect.
Proof.
  intros Hb Hne Hpix. unfold order_points. cbv zeta.
  rewrite row_sums_exact, (row_diffs_exact bits) by done.
  assert (forall f : Z * Z -> Z, map f pts <> []) as Hmap.
  { intros f Hf. apply Hne. by destruct pts. }
  destruct (argmin_spec _ (Hmap (fun p : Z * Z => fst p + snd p))) as (i0 & v0 & -> & Hi0 & Hm0).
  destruct (argmax_spec _ (Hmap (fun p : Z * Z => fst p + snd p))) as (i2 & v2 & -> & Hi2 & Hm2).
  destruct (argmin_spec _ (Hmap (fun p : Z * Z => snd p - fst p))) as (i1 & v1 & -> & Hi1 & Hm1).
  destruct (argmax_spec _ (Hmap (fun p : Z * Z => snd p - fst p))) as (i3 & v3 & -> & Hi3 & Hm3).
  destruct (lookup_map_min _ _ _ _ Hi0 Hm0) as (p0 & -> & Hp0).
  destruct (lookup_map_max _ _ _ _ Hi2 Hm2) as (p2 & -> & Hp2).
  destruct (lookup_map_min _ _ _ _ Hi1 Hm1) as (p1 & -> & Hp1).
  destruct (lookup_map_max _ _ _ _ Hi3 Hm3) as (p3 & -> & Hp3).
  rewrite List.Forall_forall in Hpix.
  assert (forall p, In p pts -> f32_point p = p) as Hf.
  { intros p Hp. by apply f32_point_pixel, Hpix. }
  rewrite (Hf p0), (Hf p1), (Hf p2), (Hf p3) by (by apply Hp0 || by apply Hp1 || by apply Hp2 || by apply Hp3).
  eexists. split; [reflexivity|]. by exists p0, p1, p2, p3.
Qed.

(** C4, as the code has it. For four corner points with pixel
    coordinates, [order_points] returns them as top-left, top-right,
    bottom-right, bottom-left, where top-left minimizes [x + y],
    bottom-right maximizes [x + y], top-right minimizes [y - x] and
    bottom-left maximizes [y - x]. *)
Theorem order_points_corners (bits : Z) (pts : list point) :
  32 <= bits -> length pts = 4%nat -> Forall pixel pts ->
  exists rect, order_points bits pts = Some rect /\ diff_corner_rule pts rect.
Proof.
  intros Hb Hlen Hpix. apply order_points_rule; [done| |done].
  intros ->. discriminate.
Qed.

Lemma square_pixels : Forall pixel square.
Proof. repeat constructor; simpl; lia. Qed.

Lemma order_points_corners_witness :
  exists rect, order_points 32 square = Some rect /\ diff_corner_rule square rect.
Proof.
  apply (order_points_corners 32 square).
  - lia.
  - reflexivity.
  - exact square_pixels.
Defined.

(** C4, as the specification words it, fails on an upright square: the
    second row of the result is [(10, 0)], the corner where [x - y] is
    largest. *)
Lemma order_points_not_spec_rule :
  exists rect, order_points 32 square = Some rect /\ ~ spec_corner_rule square rect.
Proof.
  exists [(0, 0); (10, 0); (10, 10); (0, 10)]. split; [reflexivity|].
  intros (tl & tr & br & bl & Heq & _ & _ & [_ Hmin] & _).
  injection Heq as <- <- <- <-.
  specialize (Hmin (0, 10)). simpl in Hmin.
  assert (10 - 0 <= 0 - 10); [|lia].
  apply Hmin. right. right. right. by left.
Qed.

End GeometryFacts.

(** ** The validation schema *)

Module SchemaFacts.

Import Schema Samples Examples.

Lemma validate_operation_appends (v : pystr) (w : world) :
  ae_type (allowed (snd (validate_operation v w))) = ae_type (allowed w) ++ [VStr sentinel].
Proof.
  unfold validate_operation, bind, append_type, get_allowed. simpl.
  by destruct (negb _).
Qed.

(** C3, on the code. One validation of a one-record report against the
    schema succeeds and leaves the stored list of operation types one
    element longer than it was: the validator appends the sentinel to
    the shared list. *)
Theorem validation_mutates_allowed_types :
  forall E : env,
    fst (model_validate_dump E one_record world0)
    = Ok [[(k_date, VStr (u "01.05.2024")); (k_operation, VStr (u "Сев"));
           (k_data, VStr (u "посеяли 5 га"))]] /\
    ae_type (allowed (snd (model_validate_dump E one_record world0)))
    = ae_type (allowed world0) ++ [VStr sentinel] /\
    allowed (snd (model_validate_dump E one_record world0)) <> allowed world0.
Proof.
  intros E. split; [|split].
  - vm_compute. reflexivity.
  - reflexivity.
  - vm_compute. discriminate.
Qed.

(** Every call of the three validators grows its list, whatever the
    value and the outcome. *)
Lemma validate_culture_appends (v : option pystr) (w : world) :
  ae_culture (allowed (snd (validate_culture v w)))
  = ae_culture (allowed w) ++ [VStr sentinel].
Proof.
  unfold validate_culture, bind, append_culture, get_allowed. simpl.
  destruct v as [[|c s]|]; try done. by destruct (negb _).
Qed.

Lemma validate_division_appends (v : option pystr) (w : world) :
  ae_division (allowed (snd (validate_division v w)))
  = ae_division (allowed w) ++ [VStr sentinel].
Proof.
  unfold validate_division, bind, append_division, get_allowed. simpl.
  destruct v as [[|c s]|]; try done. by destruct (negb _).
Qed.

End SchemaFacts.

(** ** The pipeline *)

Module ReportBuilderFacts.

Import Clean Schema ReportBuilder Rules Samples Examples.

Lemma predict_calls (E : env) tag instruction text (w : world) :
  calls (snd (predict E tag instruction text w))
  = calls w ++ [{| call_tag := tag; call_instruction := instruction; call_text := text |}].
Proof.
  unfold predict. destruct (chat E (requests w) _); simpl; try done.
  by destruct (chat E (S (requests w)) _).
Qed.

Lemma parse_report_refusal (E : env) (reports : pystr) :
  contains refusal_phrase (clean_string reports) = true ->
  parse_report E reports = Raise ValueError.
Proof. intros H. unfold parse_report. cbv zeta. by rewrite H. Qed.

Lemma validate_refusal (E : env) (reports : pystr) (w : world) :
  contains refusal_phrase (clean_string reports) = true ->
  _validate E reports w = (Raise ValueError, w).
Proof. intros H. unfold _validate. by rewrite parse_report_refusal. Qed.

(** *** A reply that refuses the report *)

(** When the normalized output of the first inference call contains the
    refusal phrase, [_validate] raises [ValueError] without touching the
    state, [build] raises it in turn, and the only call made to the
    backend is the initial one. *)
Lemma first_stage_refusal (E : env) (report_data reports : pystr) (w w1 : world) :
  predict E CallInitial (load_prompt E prompt_initial true false None) report_data w
  = (Ok reports, w1) ->
  contains refusal_phrase (clean_string reports) = true ->
  (forall w', _validate E reports w' = (Raise ValueError, w')) /\
  build E report_data w = (Raise ValueError, w1) /\
  calls w1 = calls w ++ [{| call_tag := CallInitial;
                            call_instruction := load_prompt E prompt_initial true false None;
                            call_text := report_data |}].
Proof.
  intros Hp Hc. split; [|split].
  - intros w'. by apply validate_refusal.
  - unfold build, bind, _process_stage, bind. rewrite Hp.
    by rewrite validate_refusal.
  - pose proof (predict_calls E CallInitial
                  (load_prompt E prompt_initial true false None) report_data w) as H.
    by rewrite Hp in H.
Qed.

(** The same in the second stage: when the replies gathered for the
    records, written as JSON, contain the refusal phrase, [build] raises
    [ValueError] in the state the last reply left. *)
Lemma second_stage_refusal (E : env) (report_data : pystr) (w w1 w2 : world)
    (r1 : list dict) (reports : list pystr) :
  _process_stage E (RawText report_data) prompt_initial true w = (Ok r1, w1) ->
  _gather_raw_results E (load_prompt E prompt_final false false None) r1 w1
  = (Ok reports, w2) ->
  contains refusal_phrase (clean_string (Json.dumps_str_list reports)) = true ->
  build E report_data w = (Raise ValueError, w2).
Proof.
  intros H1 Hg Hc. unfold build, bind. rewrite H1.
  unfold _process_stage, bind. rewrite Hg. by rewrite validate_refusal.
Qed.

(** C1. The claim does not hold of the code: when a reply contains the
    refusal phrase, [build] does not return [ERROR_TEXT], it raises
    [ValueError].  Whatever the raw text, a backend that refuses at once
    makes [build] raise after the initial call alone, and a backend that
    refuses the record of the second stage makes it raise after the
    initial call and the call for that record; in neither run is a repair
    asked for. *)
Theorem refusal_raises_instead_of_error_text (report_data : pystr) :
  fst (build refusing_backend report_data world0) = Raise ValueError
  /\ map call_tag (calls (snd (build refusing_backend report_data world0)))
     = [CallInitial]
  /\ fst (build MoreExamples.late_refusal_backend report_data world0) = Raise ValueError
  /\ map call_tag (calls (snd (build MoreExamples.late_refusal_backend report_data world0)))
     = [CallInitial; CallFinal].
Proof.
  destruct (first_stage_refusal refusing_backend report_data
              (u "Извините. Отчёт не может быть обработан.") world0
              (snd (predict refusing_backend CallInitial
                      (load_prompt refusing_backend prompt_initial true false None)
                      report_data world0)))
    as (_ & Hb1 & Hc1); [reflexivity | vm_compute; reflexivity |].
  split; [by rewrite Hb1|].
  split; [rewrite Hb1; cbn [snd]; rewrite Hc1; reflexivity|].
  assert (build MoreExamples.late_refusal_backend report_data world0
          = (Raise ValueError,
             snd (_gather_raw_results MoreExamples.late_refusal_backend
                    (load_prompt MoreExamples.late_refusal_backend prompt_final
                       false false None)
                    [[(k_date, VStr (u "01.05.2024")); (k_operation, VStr (u "Сев"));
                      (k_data, VStr (u "посеяли 5 га"))]]
                    (snd (_process_stage MoreExamples.late_refusal_backend
                            (RawText report_data) prompt_initial true world0)))))
    as Hb2.
  { eapply second_stage_refusal.
    - vm_compute. reflexivity.
    - vm_compute. reflexivity.
    - vm_compute. reflexivity. }
  rewrite Hb2. split; [done|]. vm_compute. reflexivity.
Qed.

(** *** The renaming loop *)

Lemma rename_key_raises (f k : pystr) (item : dict) :
  dict_get f item = None -> rename_key f k item = Raise KeyError.
Proof. intros H. unfold rename_key, dict_pop. by rewrite H. Qed.

Lemma rename_key_other (f k key : pystr) (item item' : dict) :
  rename_key f k item = Ok item' -> f <> key -> k <> key ->
  dict_get key item' = dict_get key item.
Proof.
  unfold rename_key, dict_pop. destruct (dict_get f item); [|done].
  intros [= <-] Hf Hk. by rewrite dict_get_set_ne, dict_get_remove_ne.
Qed.

Local Ltac distinct_keys := vm_compute; discriminate.

Lemma rename_item_raises (item : dict) :
  missing_alias item -> exists e, rename_item item = Raise e.
Proof.
  intros Hm. unfold rename_item.
  destruct (rename_key f_day_area k_day_area item) as [i1|e] eqn:H1; [|by eexists].
  assert (forall key, f_day_area <> key -> k_day_area <> key ->
                      dict_get key i1 = dict_get key item) as G1
    by (intros; by eapply rename_key_other).
  destruct (rename_key f_total_area k_total_area i1) as [i2|e] eqn:H2; [|by eexists].
  assert (forall key, f_total_area <> key -> k_total_area <> key ->
                      dict_get key i2 = dict_get key i1) as G2
    by (intros; by eapply rename_key_other).
  destruct (rename_key f_day_yield k_day_yield i2) as [i3|e] eqn:H3; [|by eexists].
  assert (forall key, f_day_yield <> key -> k_day_yield <> key ->
                      dict_get key i3 = dict_get key i2) as G3
    by (intros; by eapply rename_key_other).
  destruct Hm as [Hm|[Hm|[Hm|Hm]]].
  - by rewrite rename_key_raises in H1.
  - rewrite rename_key_raises in H2; [done|].
    rewrite G1; [done | distinct_keys | distinct_keys].
  - rewrite rename_key_raises in H3; [done|].
    rewrite G2, G1; [done | distinct_keys ..].
  - exists KeyError. apply rename_key_raises.
    rewrite G3, G2, G1; [done | distinct_keys ..].
Qed.

Lemma rename_all_raises (items : list dict) (item : dict) :
  In item items -> missing_alias item -> exists e, rename_all items = Raise e.
Proof.
  induction items as [|x rest IH]; [done|]. intros [->|Hin] Hm; simpl.
  - destruct (rename_item_raises item Hm) as [e ->]. by eexists.
  - destruct (rename_item x); [|by eexists].
    destruct (IH Hin Hm) as [e ->]. by eexists.
Qed.

(** C7. When both stages have succeeded and the renaming loop meets a
    record without one of the internal alias keys, [build] returns
    [ERROR_TEXT]; it does not raise. *)
Theorem rename_failure_returns_error_text (E : env) (report_data : pystr)
    (w w1 w2 : world) (r1 result : list dict) (item : dict) :
  _process_stage E (RawText report_data) prompt_initial true w = (Ok r1, w1) ->
  _process_stage E (Records r1) prompt_final false w1 = (Ok result, w2) ->
  In item result -> missing_alias item ->
  build E report_data w = (Ok (VStr ERROR_TEXT), w2).
Proof.
  intros H1 H2 Hin Hm. unfold build, bind. rewrite H1, H2.
  by destruct (rename_all_raises result item Hin Hm) as [e ->].
Qed.

Lemma rename_failure_returns_error_text_witness :
  exists w2, build partial_backend (u "посеяли 5 га") world0 = (Ok (VStr ERROR_TEXT), w2).
Proof.
  eexists.
  eapply (rename_failure_returns_error_text partial_backend (u "посеяли 5 га") world0).
  - vm_compute. reflexivity.
  - vm_compute. reflexivity.
  - left. reflexivity.
  - right. left. vm_compute. reflexivity.
Defined.

(** *** The date pass *)

Lemma reformat_dates_spec (E : env) (items : list value) :
  Forall dated_record items ->
  exists items',
    reformat_dates E items = Ok items' /\
    forall i d s,
      items !! i = Some (VDict d) -> dict_get k_date d = Some (VStr s) ->
      match fromisoformat E s with
      | Some parsed_date =>
          items' !! i = Some (VDict (dict_set k_date (VStr (strftime_dmy parsed_date)) d))
      | None => items' !! i = Some (VDict d)
      end.
Proof.
  induction 1 as [|item rest (d0 & s0 & -> & Hd0) _ (rest' & Hrest & IH)]; simpl.
  - exists []. split; [done|]. intros i d s Hi. by rewrite lookup_nil in Hi.
  - rewrite Hd0, Hrest.
    destruct (fromisoformat E s0) as [dt|] eqn:Hiso; eexists; (split; [reflexivity|]);
      intros [|i] d s Hi Hd; simpl in *.
    + injection Hi as <-. rewrite Hd0 in Hd. injection Hd as <-. by rewrite Hiso.
    + by apply IH.
    + injection Hi as <-. rewrite Hd0 in Hd. injection Hd as <-. by rewrite Hiso.
    + by apply IH.
Qed.

(** When the decoded reply is a list of records with a string under the
    date key, the list handed to the schema has, record by record, the
    date rewritten by [strftime] when [fromisoformat] reads it, and the
    record as it was when [fromisoformat] refuses it. *)
Lemma string_dates_reformatted (E : env) (reports : pystr)
    (decoded items : list value) :
  contains refusal_phrase (clean_string reports) = false ->
  Json.loads (clean_string reports) = Ok (VList decoded) ->
  reparse_items decoded = Ok items ->
  Forall dated_record items ->
  exists items',
    parse_report E reports = Ok (VList items') /\
    forall i d s,
      items !! i = Some (VDict d) -> dict_get k_date d = Some (VStr s) ->
      match fromisoformat E s with
      | Some parsed_date =>
          items' !! i = Some (VDict (dict_set k_date (VStr (strftime_dmy parsed_date)) d))
      | None => items' !! i = Some (VDict d)
      end.
Proof.
  intros Hc Hl Hr Hd.
  destruct (reformat_dates_spec E items Hd) as (items' & Heq & Hspec).
  exists items'. split; [|done].
  unfold parse_report. cbv zeta. rewrite Hc, Hl, Hr. simpl. by rewrite Heq.
Qed.

Example string_dates_reformatted_example :
  exists items',
    parse_report (sample_env []) two_dates = Ok (VList items') /\
    items' !! 0%nat
    = Some (VDict [(k_date, VStr (u "01.05.2024")); (k_operation, VStr (u "Сев"));
                   (k_data, VStr (u "a"))]) /\
    items' !! 1%nat
    = Some (VDict [(k_date, VStr (u "вчера")); (k_operation, VStr (u "Сев"));
                   (k_data, VStr (u "b"))]).
Proof.
  destruct (string_dates_reformatted (sample_env []) two_dates
              [VDict [(k_date, VStr (u "2024-05-01")); (k_operation, VStr (u "Сев"));
                      (k_data, VStr (u "a"))];
               VDict [(k_date, VStr (u "вчера")); (k_operation, VStr (u "Сев"));
                      (k_data, VStr (u "b"))]]
              [VDict [(k_date, VStr (u "2024-05-01")); (k_operation, VStr (u "Сев"));
                      (k_data, VStr (u "a"))];
               VDict [(k_date, VStr (u "вчера")); (k_operation, VStr (u "Сев"));
                      (k_data, VStr (u "b"))]])
    as (items' & Hp & Hspec).
  - vm_compute. reflexivity.
  - vm_compute. reflexivity.
  - vm_compute. reflexivity.
  - repeat constructor; eexists _, _; (split; [reflexivity|]); vm_compute; reflexivity.
  - exists items'. split; [exact Hp|]. split.
    + exact (Hspec 0%nat _ (u "2024-05-01") eq_refl eq_refl).
    + exact (Hspec 1%nat _ (u "вчера") eq_refl eq_refl).
Qed.

(** C9. The claim does not hold of the code for a date that is not a
    string.  A record whose date is null, and a record without a date, do
    not reach the schema: the date loop raises [TypeError] on the first
    and [KeyError] on the second, whatever the collaborators and the
    state, which is left untouched, and no repair is asked for.  Left
    unchanged, the record with the null date would have been judged by the
    schema, which refuses it with [ValidationError]. *)
Theorem unreadable_date_raises_before_schema (E : env) (w : world) :
  _validate E MoreExamples.null_dated w = (Raise TypeError, w)
  /\ _validate E MoreExamples.undated w = (Raise KeyError, w)
  /\ exists parsed,
       Json.loads (clean_string MoreExamples.null_dated) = Ok parsed
       /\ fst (model_validate_dump E parsed world0) = Raise ValidationError.
Proof.
  split; [vm_compute; reflexivity|]. split; [vm_compute; reflexivity|].
  eexists. split; [vm_compute; reflexivity|]. vm_compute. reflexivity.
Qed.

(** The scenario of the specification: the date [2024-05-01] of a record
    leaves the first stage as [01.05.2024], validated. *)
Example stage1_scenario :
  fst (_validate (sample_env []) stage1_reply world0)
  = Ok [[(k_date, VStr (u "01.05.2024")); (k_operation, VStr (u "Сев"));
         (k_data, VStr (u "посеяли 5 га"))]].
Proof. vm_compute. reflexivity. Qed.

End ReportBuilderFacts.

(** ** The correction dialogue *)

Module CorrectionFacts.

Import Correction Rules Examples.

(** *** The final step *)

Lemma needs_val_scan_no_harvest (es : list dict) :
  Forall no_harvest es -> needs_val_scan es = Ok false.
Proof.
  induction 1 as [|e es (v & Hv & Hne) _ IH]; simpl; [done|].
  by rewrite Hv, IH, Hne.
Qed.

Lemma finalize_loop_drops (es : list dict) :
  exists out, finalize_loop false es = (out, None) /\
              length out = length es /\ Forall no_yields out.
Proof.
  induction es as [|e es (out & Heq & Hlen & Hall)]; simpl.
  - by exists [].
  - rewrite Heq. eexists. split; [reflexivity|]. split; [simpl; by rewrite Hlen|].
    constructor; [|done]. split.
    + apply dict_get_remove_eq.
    + apply dict_get_remove_none, dict_get_remove_eq.
Qed.

(** C2, as the code has it. When no record of the batch has the harvest
    operation, the final step of the correction ends without an
    exception and leaves no record with a yield field. *)
Theorem yields_dropped_without_harvest (es : list dict) :
  Forall no_harvest es ->
  exists out, finalize es = (out, None) /\
              length out = length es /\ Forall no_yields out.
Proof.
  intros H. unfold finalize. rewrite needs_val_scan_no_harvest by done.
  apply finalize_loop_drops.
Qed.

Lemma yields_dropped_without_harvest_witness :
  exists out, finalize [sowing; sowing] = (out, None) /\
              length out = 2%nat /\ Forall no_yields out.
Proof.
  apply (yields_dropped_without_harvest [sowing; sowing]).
  repeat constructor; exists (VStr (u "Сев")); split; vm_compute; reflexivity.
Defined.

(** C2, as the specification words it, fails on a batch that mixes the
    two kinds of records: the record that is not a harvest keeps both
    yield fields, divided by 100. *)
Lemma non_harvest_record_keeps_yields :
  exists out e,
    finalize [reaping; sowing] = (out, None) /\ In e out /\
    no_harvest e /\ ~ no_yields e /\
    dict_get k_day_yield e = Some (VFloat (FQuot 0 100)).
Proof.
  eexists _, _. split; [vm_compute; reflexivity|].
  split; [right; left; reflexivity|].
  split; [eexists; split; vm_compute; reflexivity|].
  split; [|vm_compute; reflexivity].
  intros [H _]. vm_compute in H. discriminate.
Qed.

(** *** The queue *)

Lemma scan_entry_idx (n : nat) (e : dict) (pos : nat * pystr) :
  In pos (scan_entry n e) -> fst pos = n /\ In (snd pos) (keys e).
Proof.
  unfold scan_entry, keys. induction e as [|[k v] e IH]; simpl; [done|].
  intros [H|H]%in_app_or.
  - destruct (py_eq_str v sentinel); [|done]. destruct H as [<-|[]]. auto.
  - destruct (IH H). auto.
Qed.

Lemma scan_entry_NoDup (n : nat) (e : dict) :
  List.NoDup (keys e) -> List.NoDup (scan_entry n e).
Proof.
  unfold scan_entry, keys. induction e as [|[k v] e IH]; simpl; [constructor|].
  intros Hnd. inversion Hnd as [|? ? Hk Hnd']; subst.
  destruct (py_eq_str v sentinel); simpl; [|by apply IH].
  constructor; [|by apply IH].
  intros Hin. apply Hk. by destruct (scan_entry_idx n e _ Hin).
Qed.

Lemma corrections_queue_idx (n : nat) (report : list dict) (pos : nat * pystr) :
  In pos (corrections_queue n report) -> (n <= fst pos < n + length report)%nat.
Proof.
  revert n. induction report as [|e rest IH]; intros n; simpl; [done|].
  intros [H|H]%in_app_or.
  - destruct (scan_entry_idx n e pos H). lia.
  - specialize (IH _ H). lia.
Qed.

Lemma corrections_queue_NoDup (n : nat) (report : list dict) :
  Forall (fun e => List.NoDup (keys e)) report ->
  List.NoDup (corrections_queue n report).
Proof.
  intros H. revert n. induction H as [|e rest He _ IH]; intros n; simpl; [constructor|].
  apply List.NoDup_app; [by apply scan_entry_NoDup | apply IH |].
  intros pos H1 H2. destruct (scan_entry_idx n e pos H1) as [Hn _].
  apply corrections_queue_idx in H2. lia.
Qed.

(** The queue holds the fields that carry the sentinel, and nothing
    else. *)
Lemma scan_entry_In (n : nat) (e : dict) (pos : nat * pystr) :
  In pos (scan_entry n e) <->
  fst pos = n /\ exists v, In (snd pos, v) e /\ py_eq_str v sentinel = true.
Proof.
  unfold scan_entry. rewrite in_flat_map. split.
  - intros ([k v] & Hin & Hpos). simpl in Hpos.
    destruct (py_eq_str v sentinel) eqn:Hv; [|done].
    destruct Hpos as [<-|[]]. simpl. split; [done|]. by exists v.
  - intros (<- & v & Hin & Hv). exists (snd pos, v). split; [done|].
    simpl. rewrite Hv. left. by destruct pos.
Qed.

Lemma corrections_queue_In (n : nat) (report : list dict) (pos : nat * pystr) :
  In pos (corrections_queue n report) <->
  (n <= fst pos)%nat /\
  exists e v, report !! (fst pos - n)%nat = Some e /\ In (snd pos, v) e /\
              py_eq_str v sentinel = true.
Proof.
  revert n. induction report as [|e rest IH]; intros n; simpl.
  - split; [done|]. intros (_ & e & v & He & _). by rewrite lookup_nil in He.
  - rewrite in_app_iff, scan_entry_In, IH. split.
    + intros [(Hn & v & Hin & Hv) | (Hn & e' & v & He & Hin & Hv)].
      * split; [lia|]. exists e, v. by replace (fst pos - n)%nat with 0%nat by lia.
      * split; [lia|]. exists e', v.
        by replace (fst pos - n)%nat with (S (fst pos - S n)) by lia.
    + intros (Hn & e' & v & He & Hin & Hv).
      destruct (decide (fst pos = n)) as [Heq|Hne].
      * left. split; [done|]. exists v.
        replace (fst pos - n)%nat with 0%nat in He by lia. simpl in He.
        injection He as ->. done.
      * right. split; [lia|]. exists e', v.
        replace (fst pos - n)%nat with (S (fst pos - S n)) in He by lia. done.
Qed.

(** The queue goes through the records in their order. *)
Lemma corrections_queue_sorted (n : nat) (report : list dict) (a b : nat)
    (pa pb : nat * pystr) :
  (a <= b)%nat ->
  corrections_queue n report !! a = Some pa ->
  corrections_queue n report !! b = Some pb ->
  (fst pa <= fst pb)%nat.
Proof.
  revert n a b. induction report as [|e rest IH]; intros n a b Hab Ha Hb; simpl in *.
  - by rewrite lookup_nil in Ha.
  - apply lookup_app_Some in Ha as [Ha|[Hla Ha]];
      apply lookup_app_Some in Hb as [Hb|[Hlb Hb]].
    + apply list_elem_of_lookup_2, list_elem_of_In, scan_entry_idx in Ha as [-> _].
      apply list_elem_of_lookup_2, list_elem_of_In, scan_entry_idx in Hb as [-> _].
      done.
    + apply list_elem_of_lookup_2, list_elem_of_In, scan_entry_idx in Ha as [-> _].
      apply list_elem_of_lookup_2, list_elem_of_In, corrections_queue_idx in Hb. lia.
    + apply lookup_lt_Some in Hb. lia.
    + eapply IH; [|exact Ha|exact Hb]. lia.
Qed.

(** *** Writing the answers *)

Lemma length_write_field idx key v (es : list dict) :
  length (write_field idx key v es) = length es.
Proof. unfold write_field. apply length_alter. Qed.

Lemma field_at_write_same idx key v (es : list dict) :
  (idx < length es)%nat ->
  field_at (write_field idx key v es) (idx, key) = Some (VStr v).
Proof.
  intros Hlt. unfold field_at, write_field. simpl.
  rewrite list_lookup_alter_eq.
  destruct (lookup_lt_is_Some_2 es idx Hlt) as [e ->]. simpl.
  apply dict_get_set_eq.
Qed.

Lemma field_at_write_other idx key v (es : list dict) (pos : nat * pystr) :
  (idx, key) <> pos ->
  field_at (write_field idx key v es) pos = field_at es pos.
Proof.
  destruct pos as [idx' key']. intros Hne. unfold field_at, write_field. simpl.
  destruct (decide (idx = idx')) as [<-|Hi].
  - rewrite list_lookup_alter_eq. destruct (es !! idx); simpl; [|done].
    apply dict_get_set_ne. congruence.
  - by rewrite list_lookup_alter_ne.
Qed.

Lemma apply_answers_other (q : list (nat * pystr)) (texts : list pystr)
    (es : list dict) (pos : nat * pystr) :
  ~ In pos q -> field_at (apply_answers q texts es) pos = field_at es pos.
Proof.
  revert texts es. induction q as [|[idx key] q IH]; intros texts es Hnot; simpl; [done|].
  destruct texts as [|t texts]; [done|].
  rewrite IH by (intros ?; apply Hnot; by right).
  apply field_at_write_other. intros Heq. apply Hnot. by left.
Qed.

Lemma apply_answers_spec (q : list (nat * pystr)) (texts : list pystr)
    (es : list dict) (i : nat) (pos : nat * pystr) (t : pystr) :
  List.NoDup q ->
  (forall p, In p q -> (fst p < length es)%nat) ->
  q !! i = Some pos -> texts !! i = Some t ->
  field_at (apply_answers q texts es) pos = Some (VStr (Clean.strip t)).
Proof.
  revert texts es i. induction q as [|[idx key] q IH]; intros texts es i Hnd Hrange Hq Ht.
  - by rewrite lookup_nil in Hq.
  - destruct texts as [|t0 texts]; [by rewrite lookup_nil in Ht|].
    inversion Hnd as [|? ? Hfresh Hnd']; subst. simpl.
    destruct i as [|i]; simpl in *.
    + injection Hq as <-. injection Ht as <-.
      rewrite apply_answers_other by done.
      apply field_at_write_same. apply (Hrange (idx, key)). by left.
    + eapply IH; [done| |done|done].
      intros p Hp. rewrite length_write_field. apply Hrange. by right.
Qed.

(** *** The dialogue *)

Lemma prompt_no_text (ud : user_data) : prompt ud None = ud /\ prompt ud (Some []) = ud.
Proof. unfold prompt. by destruct (awaiting_correction ud). Qed.

Lemma answers_answer_inputs (ud : user_data) (msgs : list (option pystr)) :
  answers ud msgs = answers ud (map Some (answer_inputs msgs)).
Proof.
  unfold answers, answer_inputs. revert ud.
  induction msgs as [|[[|c s]|] msgs IH]; intros ud; simpl; [done| | |].
  - destruct (prompt_no_text ud) as [_ ->]. apply IH.
  - apply IH.
  - destruct (prompt_no_text ud) as [-> _]. apply IH.
Qed.

Lemma prompt_open (es : list dict) q c ce idx key next (t : pystr) :
  t <> [] -> q !! c = Some (idx, key) -> (idx < length es)%nat ->
  q !! S c = Some next ->
  prompt (session {| entries := es; queue := q; current_index := c |} ce) (Some t)
  = session {| entries := write_field idx key (Clean.strip t) es; queue := q;
               current_index := S c |} ce.
Proof.
  intros Ht Hq Hlt Hnext. destruct t as [|ch t]; [done|].
  unfold prompt, session, answer.
  cbn [awaiting_correction corrections corrected_entries entries queue current_index].
  rewrite Hq. rewrite bool_decide_eq_true_2 by done. by rewrite Hnext.
Qed.

Lemma prompt_close (es : list dict) q c ce idx key (t : pystr) :
  t <> [] -> q !! c = Some (idx, key) -> (idx < length es)%nat ->
  q !! S c = None ->
  prompt (session {| entries := es; queue := q; current_index := c |} ce) (Some t)
  = closed_session q (S c) ce (write_field idx key (Clean.strip t) es).
Proof.
  intros Ht Hq Hlt Hnext. destruct t as [|ch t]; [done|].
  unfold prompt, session, answer, closed_session.
  cbn [awaiting_correction corrections corrected_entries entries queue current_index].
  rewrite Hq. rewrite bool_decide_eq_true_2 by done. rewrite Hnext.
  by destruct (finalize _) as [es' [x|]].
Qed.

Lemma apply_answers_nil (q : list (nat * pystr)) (es : list dict) :
  apply_answers q [] es = es.
Proof. by destruct q as [|[]]. Qed.

Lemma answers_open (texts : list pystr) (es : list dict) q c ce :
  Forall (fun t => t <> []) texts ->
  (forall p, In p q -> (fst p < length es)%nat) ->
  (c + length texts < length q)%nat ->
  answers (session {| entries := es; queue := q; current_index := c |} ce)
          (map Some texts)
  = session {| entries := apply_answers (drop c q) texts es; queue := q;
               current_index := c + length texts |} ce.
Proof.
  intros Hne. revert es c.
  induction Hne as [|t texts Ht _ IH]; intros es c Hrange Hlen; simpl in *.
  - by rewrite apply_answers_nil, Nat.add_0_r.
  - destruct (lookup_lt_is_Some_2 q c) as [[idx key] Hq]; [lia|].
    destruct (lookup_lt_is_Some_2 q (S c)) as [next Hnext]; [lia|].
    assert (idx < length es)%nat as Hidx.
    { apply (Hrange (idx, key)). apply list_elem_of_In. by eapply list_elem_of_lookup_2. }
    unfold answers in *. simpl.
    rewrite (prompt_open es q c ce idx key next t) by done.
    rewrite IH.
    + rewrite (drop_S q (idx, key) c Hq). simpl. do 3 f_equal. lia.
    + intros p Hp. rewrite length_write_field. by apply Hrange.
    + lia.
Qed.

Lemma answers_close (texts : list pystr) (es : list dict) q c ce :
  Forall (fun t => t <> []) texts ->
  (forall p, In p q -> (fst p < length es)%nat) ->
  texts <> [] ->
  (c + length texts = length q)%nat ->
  answers (session {| entries := es; queue := q; current_index := c |} ce)
          (map Some texts)
  = closed_session q (length q) ce (apply_answers (drop c q) texts es).
Proof.
  intros Hne Hrange Hnil Hlen.
  destruct (exists_last Hnil) as (front & t & ->).
  apply Forall_app in Hne as [Hfront Ht]. inversion Ht as [|? ? Htne _]; subst.
  rewrite length_app in Hlen. simpl in Hlen.
  unfold answers. rewrite map_app, fold_left_app.
  fold (answers (session {| entries := es; queue := q; current_index := c |} ce)
                (map Some front)).
  rewrite answers_open by (done || lia). simpl.
  destruct (lookup_lt_is_Some_2 q (c + length front)) as [[idx key] Hq]; [lia|].
  assert (q !! S (c + length front) = None) as Hnext by (apply lookup_ge_None; lia).
  assert (forall l : list dict, length l = length es -> idx < length l)%nat as Hidx.
  { intros l ->. apply (Hrange (idx, key)). apply list_elem_of_In.
    by eapply list_elem_of_lookup_2. }
  assert (forall qs ts (l : list dict), length (apply_answers qs ts l) = length l)
    as Hlen_apply.
  { induction qs as [|[i k] qs IHq]; intros [|t0 ts] l; simpl; try done.
    by rewrite IHq, length_write_field. }
  rewrite (prompt_close _ q _ ce idx key t) by (done || by apply Hidx).
  replace (S (c + length front)) with (length q) by lia.
  f_equal.
  assert (forall qs ts l i k t0,
             length ts < length qs -> qs !! length ts = Some (i, k) ->
             apply_answers qs (ts ++ [t0]) l
             = write_field i k (Clean.strip t0) (apply_answers qs ts l))%nat as Hsnoc.
  { induction qs as [|[i0 k0] qs IHq]; intros ts l i k t0 Hl Hlk; simpl in *; [lia|].
    destruct ts as [|t1 ts]; simpl in *.
    - injection Hlk as -> ->. by rewrite apply_answers_nil.
    - apply IHq; [lia|done]. }
  symmetry. apply Hsnoc.
  - rewrite length_drop. lia.
  - by rewrite lookup_drop.
Qed.

Lemma as_records_dicts (report : list dict) : as_records (map VDict report) = Some report.
Proof. induction report as [|e rest IH]; simpl; [done|]. by rewrite IH. Qed.

(** *** The replies of the dialogue *)

Lemma dialogue_state (msgs : list (option pystr)) (st : user_data * outcome) :
  fst (dialogue st msgs) = answers (fst st) msgs.
Proof.
  unfold dialogue, answers. revert st.
  induction msgs as [|m msgs IH]; intros st; [done|]. cbn [fold_left].
  rewrite IH. f_equal. unfold exchange, prompt.
  by destruct (awaiting_correction (fst st)).
Qed.

Lemma dialogue_over (msgs : list (option pystr)) (st : user_data * outcome) :
  awaiting_correction (fst st) = false -> dialogue st msgs = st.
Proof.
  intros Hst. unfold dialogue.
  induction msgs as [|m msgs IH]; [done|]. cbn [fold_left].
  unfold exchange at 2. by rewrite Hst.
Qed.

Lemma exchange_state (st st' : user_data * outcome) (m : option pystr) :
  fst st = fst st' -> awaiting_correction (fst st) = true ->
  exchange st m = exchange st' m.
Proof. intros Heq Hst. unfold exchange. by rewrite <- Heq, Hst. Qed.

Lemma exchange_no_text (st : user_data * outcome) (m : option pystr) :
  awaiting_correction (fst st) = true -> (m = None \/ m = Some []) ->
  fst (exchange st m) = fst st.
Proof. intros Hst [-> | ->]; unfold exchange, answer; by rewrite Hst. Qed.

(** Once the messages have closed the session, the last reply is the
    reply to the last answer: the messages without a text, which are only
    asked again, and the reply that opened the dialogue leave no trace. *)
Lemma dialogue_answer_inputs (msgs : list (option pystr)) (st st' : user_data * outcome) :
  fst st = fst st' ->
  awaiting_correction (fst st) = true ->
  awaiting_correction (fst (dialogue st msgs)) = false ->
  dialogue st msgs = dialogue st' (map Some (answer_inputs msgs)).
Proof.
  revert st st'. induction msgs as [|m msgs IH]; intros st st' Heq Hst Hover.
  - unfold dialogue in Hover. simpl in Hover. congruence.
  - assert (m = None \/ m = Some [] \/ exists c s, m = Some (c :: s)) as Hm.
    { destruct m as [[|c s]|]; eauto. }
    unfold dialogue in *. cbn [fold_left] in *.
    destruct Hm as [Hm | [Hm | (c & s & Hm)]].
    + assert (answer_inputs (m :: msgs) = answer_inputs msgs) as -> by by subst m.
      apply IH; [|by rewrite exchange_no_text; auto|done].
      rewrite exchange_no_text by auto. done.
    + assert (answer_inputs (m :: msgs) = answer_inputs msgs) as -> by by subst m.
      apply IH; [|by rewrite exchange_no_text; auto|done].
      rewrite exchange_no_text by auto. done.
    + assert (answer_inputs (m :: msgs) = (c :: s) :: answer_inputs msgs) as ->
        by by subst m.
      cbn [map fold_left]. rewrite <- Hm.
      rewrite <- (exchange_state st st' m Heq Hst).
      destruct (awaiting_correction (fst (exchange st m))) eqn:Hnext.
      * by apply IH.
      * fold (dialogue (exchange st m) msgs).
        fold (dialogue (exchange st m) (map Some (answer_inputs msgs))).
        by rewrite !dialogue_over.
Qed.

Lemma exchange_close (es : list dict) q c ce idx key (t : pystr) (o : outcome) :
  t <> [] -> q !! c = Some (idx, key) -> (idx < length es)%nat ->
  q !! S c = None ->
  exchange (session {| entries := es; queue := q; current_index := c |} ce, o) (Some t)
  = (closed_session q (S c) ce (write_field idx key (Clean.strip t) es),
     closed_reply (write_field idx key (Clean.strip t) es)).
Proof.
  intros Ht Hq Hlt Hnext. destruct t as [|ch t]; [done|].
  unfold exchange, session, answer, closed_session, closed_reply.
  cbn [fst awaiting_correction corrections corrected_entries entries queue current_index].
  rewrite Hq. rewrite bool_decide_eq_true_2 by done. rewrite Hnext.
  by destruct (finalize _) as [es' [x|]].
Qed.

Lemma apply_answers_length (q : list (nat * pystr)) (texts : list pystr) (es : list dict) :
  length (apply_answers q texts es) = length es.
Proof.
  revert texts es. induction q as [|[i k] q IH]; intros [|t texts] es; simpl; try done.
  by rewrite IH, length_write_field.
Qed.

Lemma apply_answers_snoc (q : list (nat * pystr)) (texts : list pystr) (es : list dict)
    i k (t : pystr) :
  q !! length texts = Some (i, k) ->
  apply_answers q (texts ++ [t]) es
  = write_field i k (Clean.strip t) (apply_answers q texts es).
Proof.
  revert texts es. induction q as [|[i0 k0] q IH]; intros texts es Hlk; simpl in *.
  - by rewrite lookup_nil in Hlk.
  - destruct texts as [|t1 texts]; simpl in *.
    + injection Hlk as -> ->. by rewrite apply_answers_nil.
    + by apply IH.
Qed.

Lemma dialogue_close (texts : list pystr) (es : list dict) q ce (o : outcome) :
  Forall (fun t => t <> []) texts ->
  (forall p, In p q -> (fst p < length es)%nat) ->
  texts <> [] ->
  length texts = length q ->
  dialogue (session {| entries := es; queue := q; current_index := 0 |} ce, o)
           (map Some texts)
  = (closed_session q (length q) ce (apply_answers q texts es),
     closed_reply (apply_answers q texts es)).
Proof.
  intros Hne Hrange Hnil Hlen.
  destruct (exists_last Hnil) as (front & t & ->).
  apply Forall_app in Hne as [Hfront Ht]. inversion Ht as [|? ? Htne _]; subst.
  rewrite length_app in Hlen. simpl in Hlen.
  unfold dialogue. rewrite map_app, fold_left_app. cbn [map fold_left].
  fold (dialogue (session {| entries := es; queue := q; current_index := 0 |} ce, o)
                 (map Some front)).
  pose proof (dialogue_state (map Some front)
                (session {| entries := es; queue := q; current_index := 0 |} ce, o))
    as Hstate.
  cbn [fst] in Hstate. rewrite answers_open in Hstate by (done || lia).
  rewrite drop_0 in Hstate. cbn [Nat.add] in Hstate.
  destruct (dialogue _ (map Some front)) as [ud o'] eqn:Hfold.
  cbn [fst] in Hstate. subst ud.
  destruct (lookup_lt_is_Some_2 q (length front)) as [[idx key] Hq]; [lia|].
  assert (q !! S (length front) = None) as Hnext by (apply lookup_ge_None; lia).
  rewrite (exchange_close _ q _ ce idx key t o').
  - rewrite (apply_answers_snoc q front es idx key t Hq).
    by replace (S (length front)) with (length q) by lia.
  - done.
  - done.
  - rewrite apply_answers_length. apply (Hrange (idx, key)).
    apply list_elem_of_In. by eapply list_elem_of_lookup_2.
  - done.
Qed.

(** A session opened on a report whose queue has [N] entries, the pairs
    of a record and a field that hold the sentinel, in the order of the
    records and of their fields, stays open while fewer than [N] answers
    (messages with a text that is not empty) have come, with the cursor at
    the number of answers; the [N]-th answer closes it on the outcome of
    the final step; the records the final step receives hold, at the
    field of position [i] of the queue, the text of the [i]-th answer,
    stripped; and the [N]-th answer is resolved when the final step
    completes, and only then. *)
Lemma answers_in_queue_order (ud0 : user_data) (report : list dict)
    (msgs : list (option pystr)) :
  Forall (fun e => List.NoDup (keys e)) report ->
  corrections_queue 0 report <> [] ->
  let q := corrections_queue 0 report in
  let texts := answer_inputs msgs in
  let st1 := receive_report ud0 (VList (map VDict report)) in
  fst st1 = open_session ud0 report q /\
  ((length texts < length q)%nat ->
     ~ resolved (dialogue st1 msgs) /\
     fst (dialogue st1 msgs)
     = session {| entries := apply_answers q texts report; queue := q;
                  current_index := length texts |} (corrected_entries ud0)) /\
  (length texts = length q ->
     dialogue st1 msgs
     = (closed_session q (length q) (corrected_entries ud0) (apply_answers q texts report),
        closed_reply (apply_answers q texts report)) /\
     (forall i pos t, q !! i = Some pos -> texts !! i = Some t ->
        field_at (apply_answers q texts report) pos = Some (VStr (Clean.strip t))) /\
     (resolved (dialogue st1 msgs)
      <-> snd (finalize (apply_answers q texts report)) = None)).
Proof.
  intros Hnd Hq q texts st1.
  assert (fst st1 = open_session ud0 report q) as Hud1.
  { unfold st1, receive_report, q. rewrite as_records_dicts.
    by destruct (corrections_queue 0 report). }
  assert (Forall (fun t : pystr => t <> []) texts) as Htexts.
  { unfold texts, answer_inputs. clear. induction msgs as [|[[|c s]|] msgs IH]; simpl;
      [constructor | done | by constructor | done]. }
  assert (forall p, In p q -> (fst p < length report)%nat) as Hrange.
  { intros p Hp. apply corrections_queue_idx in Hp. lia. }
  assert (open_session ud0 report q
          = session {| entries := report; queue := q; current_index := 0 |}
                    (corrected_entries ud0)) as Hopen by done.
  split; [done|]. split.
  - intros Hlt.
    assert (fst (dialogue st1 msgs)
            = session {| entries := apply_answers q texts report; queue := q;
                         current_index := length texts |} (corrected_entries ud0)) as Hst.
    { rewrite dialogue_state, Hud1, answers_answer_inputs. fold texts.
      rewrite Hopen. by rewrite answers_open. }
    split; [|done]. intros [Hres _]. rewrite Hst in Hres. discriminate.
  - intros Hlen.
    assert (texts <> []) as Hnil.
    { intros Hnil. rewrite Hnil in Hlen. simpl in Hlen. unfold q in Hlen.
      by destruct (corrections_queue 0 report). }
    assert (dialogue st1 msgs
            = (closed_session q (length q) (corrected_entries ud0)
                 (apply_answers q texts report),
               closed_reply (apply_answers q texts report))) as Hclose.
    { pose proof (dialogue_close texts report q (corrected_entries ud0) (snd st1)
                    Htexts Hrange Hnil Hlen) as Hd.
      rewrite <- Hopen, <- Hud1, <- surjective_pairing in Hd.
      rewrite <- Hd. apply dialogue_answer_inputs; [done| by rewrite Hud1 |].
      rewrite dialogue_state, Hud1, answers_answer_inputs. fold texts.
      rewrite Hopen. rewrite answers_close by done.
      unfold closed_session. by destruct (finalize _) as [es' [x|]]. }
    split; [done|]. split.
    + intros i pos t Hi Ht. eapply apply_answers_spec; [|done|done|done].
      by apply corrections_queue_NoDup.
    + rewrite Hclose. unfold closed_session, closed_reply, resolved.
      destruct (finalize _) as [es' [x|]]; cbn [fst snd].
      * split; [|done]. intros (_ & cd & _ & _ & _ & Hoffer). discriminate.
      * split; [done|]. intros _. split; [done|]. by eexists.
Qed.

Example answers_in_queue_order_example :
  corrections_queue 0 unresolved_report
  = [(0%nat, k_operation); (0%nat, k_culture); (1%nat, k_division)] /\
  resolved (dialogue (receive_report idle (VList (map VDict unresolved_report)))
                     three_answers) /\
  field_at (apply_answers (corrections_queue 0 unresolved_report)
                          (answer_inputs three_answers) unresolved_report)
           (0%nat, k_operation) = Some (VStr (u "Пахота")).
Proof.
  split; [reflexivity|].
  destruct (answers_in_queue_order idle unresolved_report three_answers)
    as (_ & _ & Hfull).
  - repeat constructor; vm_compute; intuition discriminate.
  - vm_compute. discriminate.
  - destruct (Hfull eq_refl) as (_ & Hfield & Hres). split.
    + apply Hres. vm_compute. reflexivity.
    + exact (Hfield 0%nat (0%nat, k_operation) (u " Пахота ") eq_refl eq_refl).
Qed.

(** C6. The claim does not hold of the code: [N] answers do not always
    bring the session to [Resolved].  The report of a harvest whose yield
    for the day holds the sentinel opens a session with a queue of one
    entry.  The one answer is written to that field, as the string it is,
    and the final step then raises [TypeError] on the division of that
    string by 100: the handler ends with the exception, no report is
    offered or stored, and the session is closed without being resolved;
    no later message is an answer, so nothing resolves it. *)
Theorem typed_yield_answer_not_resolved (msgs : list (option pystr)) :
  corrections_queue 0 MoreExamples.unread_yield = [(0%nat, k_day_yield)]
  /\ fst (receive_report idle (VList (map VDict MoreExamples.unread_yield)))
     = open_session idle MoreExamples.unread_yield [(0%nat, k_day_yield)]
  /\ field_at (apply_answers [(0%nat, k_day_yield)] [u "500"] MoreExamples.unread_yield)
              (0%nat, k_day_yield)
     = Some (VStr (u "500"))
  /\ snd (dialogue (receive_report idle (VList (map VDict MoreExamples.unread_yield)))
                   (Some (u "500") :: msgs))
     = Raised TypeError
  /\ awaiting_correction
       (fst (dialogue (receive_report idle (VList (map VDict MoreExamples.unread_yield)))
                      (Some (u "500") :: msgs))) = false
  /\ corrected_entries
       (fst (dialogue (receive_report idle (VList (map VDict MoreExamples.unread_yield)))
                      (Some (u "500") :: msgs))) = None
  /\ ~ resolved
         (dialogue (receive_report idle (VList (map VDict MoreExamples.unread_yield)))
                   (Some (u "500") :: msgs)).
Proof.
  split; [reflexivity|]. split; [vm_compute; reflexivity|].
  split; [vm_compute; reflexivity|].
  assert (exists st,
            exchange (receive_report idle (VList (map VDict MoreExamples.unread_yield)))
                     (Some (u "500")) = st
            /\ snd st = Raised TypeError
            /\ awaiting_correction (fst st) = false
            /\ corrected_entries (fst st) = None) as (st & Hst & Hout & Hover & Hnone).
  { eexists. split; [reflexivity|]. split; [vm_compute; reflexivity|].
    split; vm_compute; reflexivity. }
  unfold dialogue. cbn [fold_left]. rewrite Hst.
  fold (dialogue st msgs). rewrite dialogue_over by done.
  split; [done|]. split; [done|]. split; [done|].
  intros (_ & cd & _ & _ & Hoffer & _). rewrite Hnone in Hoffer. discriminate.
Qed.

End CorrectionFacts.

(** ** The transport *)

Module RpcFacts.

Import Rpc Samples Examples.

Lemma handle_message_raise (E : env) dumps (m : message) (w w' : world) (e : exn) :
  ReportBuilder.build E (body m) w = (Raise e, w') ->
  handle_message E dumps m w = ([Ack], w').
Proof. intros H. unfold handle_message. by rewrite H. Qed.

Lemma handle_message_foreign (E : env) dumps (g : gateway) (m : message) (w : world) :
  foreign g m -> quiet g (publishes (fst (handle_message E dumps m w))).
Proof.
  intros Hf. unfold handle_message, quiet.
  destruct (ReportBuilder.build E (body m) w) as [[result|e] w']; simpl; [|constructor].
  destruct (reply_to m) as [[|c q]|] eqn:Hr; simpl; try constructor.
  destruct (dumps result); simpl; constructor; [|constructor].
  simpl. intros Heq. apply Hf. by rewrite <- Heq.
Qed.

Lemma unanswerable_step (E : env) dumps (g : gateway) (m0 : message) (w0 w0' : world)
    (s s' : system) :
  handle_message E dumps m0 w0 = ([Ack], w0') ->
  unanswerable g m0 w0 s -> step E dumps s s' -> unanswerable g m0 w0 s'.
Proof.
  intros Hm0 Hs Hstep.
  inversion Hs as [rest r n Hrest Hr Heq | q w r n Hq Hr Heq];
    subst; inversion Hstep; subst; unfold quiet in *.
  - rewrite Hm0. simpl. rewrite app_nil_r. by apply unanswerable_gone.
  - match goal with H : Forall _ (_ ++ _ :: _) |- _ =>
      apply Forall_app in H as [H1 H2]; inversion H2 as [|? ? Hk H2']; subst end.
    simpl in Hk. apply str_eqb_neq in Hk. rewrite Hk.
    apply unanswerable_pending; [done|]. unfold quiet. by apply Forall_app.
  - change (m0 :: rest ++ [m]) with (m0 :: (rest ++ [m])).
    apply unanswerable_pending; [|done]. apply Forall_app. split; [done|].
    by constructor.
  - inversion Hq as [|? ? Hm Hrest']; subst.
    apply unanswerable_gone; [done|]. unfold quiet. apply Forall_app. split; [done|].
    by apply handle_message_foreign.
  - match goal with H : Forall _ (_ ++ _ :: _) |- _ =>
      apply Forall_app in H as [H1 H2]; inversion H2 as [|? ? Hk H2']; subst end.
    simpl in Hk. apply str_eqb_neq in Hk. rewrite Hk.
    apply unanswerable_gone; [done|]. unfold quiet. by apply Forall_app.
  - apply unanswerable_gone; [|done]. apply Forall_app. split; [done|].
    by constructor.
Qed.

Lemma unanswerable_future (g : gateway) (m0 : message) (w0 : world) (s : system) :
  unanswerable g m0 w0 s -> gw s = g.
Proof. by inversion 1. Qed.

(** C8. When the pipeline raises on the job of a caller, the worker
    acknowledges the delivery and publishes nothing; and as long as the
    other jobs reply elsewhere and nothing is already routed to the
    caller's queue, the caller's future is unresolved in every state the
    system can reach. *)
Theorem failed_job_never_answered (E : env) dumps (g : gateway) (query_text : pystr)
    (others : list message) (w w' : world) (e : exn) (r : list (pystr * message))
    (n : nat) (s : system) :
  future g = None ->
  ReportBuilder.build E query_text w = (Raise e, w') ->
  Forall (foreign g) others ->
  quiet g r ->
  handle_message E dumps (request g query_text) w = ([Ack], w') /\
  (reachable E dumps
     {| query_queue := request g query_text :: others; worker_world := w;
        routed := r; gw := g; acked := n |} s ->
   future (gw s) = None).
Proof.
  intros Hfut Hbuild Hothers Hr.
  assert (handle_message E dumps (request g query_text) w = ([Ack], w')) as Hm
    by (by eapply handle_message_raise).
  split; [done|]. intros Hreach.
  assert (unanswerable g (request g query_text) w s) as Hs.
  { induction Hreach as [|s s' _ IH Hstep].
    - by apply unanswerable_pending.
    - by eapply unanswerable_step. }
  by rewrite (unanswerable_future _ _ _ _ Hs).
Qed.

Lemma failed_job_never_answered_witness :
  exists s,
    reachable refused (fun _ => Ok []) 
      {| query_queue := [request caller (u "привет")]; worker_world := world0;
         routed := []; gw := caller; acked := 0 |} s /\
    query_queue s = [] /\ acked s = 1%nat /\ routed s = [] /\ future (gw s) = None.
Proof.
  set (s0 := {| query_queue := [request caller (u "привет")]; worker_world := world0;
                routed := []; gw := caller; acked := 0 |}).
  set (h := handle_message refused (fun _ => Ok []) (request caller (u "привет")) world0).
  set (s1 := {| query_queue := []; worker_world := snd h;
                routed := [] ++ publishes (fst h); gw := caller;
                acked := 0 + acks (fst h) |}).
  assert (reachable refused (fun _ => Ok []) s0 s1) as Hreach.
  { eapply reach_step; [apply reach_here | apply step_worker]. }
  exists s1. split; [exact Hreach|].
  split; [reflexivity|]. split; [vm_compute; reflexivity|].
  split; [vm_compute; reflexivity|].
  eapply (failed_job_never_answered refused (fun _ => Ok []) caller (u "привет") []
            world0 _ ValueError [] 0 s1).
  - reflexivity.
  - vm_compute. reflexivity.
  - constructor.
  - constructor.
  - exact Hreach.
Defined.

End RpcFacts.

(** ** Normalization *)

Module CleanFacts.

Import Clean Normal Samples Examples.

Local Open Scope N_scope.
Local Arguments N.eqb : simpl never.
Local Arguments N.leb : simpl never.
Local Arguments N.ltb : simpl never.

(** *** Character classes *)

Lemma closer_not_space c : is_closer c = true -> is_space c = false.
Proof.
  unfold is_closer. intros [H|H]%orb_true_iff; apply N.eqb_eq in H; by subst.
Qed.

Lemma opener_not_space c : is_opener c = true -> is_space c = false.
Proof.
  unfold is_opener. intros [H|H]%orb_true_iff; apply N.eqb_eq in H; by subst.
Qed.

(** The scenario of the specification: two objects that touch are
    separated by a comma, and a fenced reply loses its fence. *)
Example adjacent_objects :
  clean_string (jq "```json
{'a': 1} {'b': 2}
```") = jq "{'a': 1},{'b': 2}".
Proof. vm_compute. reflexivity. Qed.

(** *** Steps that leave a plain string alone *)

Lemma strip_fences_no_backtick (s : pystr) :
  Forall (fun c => c <> 96) s -> strip_fences 0 s = s.
Proof.
  induction 1 as [|c t Hc _ IH]; simpl; [done|].
  apply N.eqb_neq in Hc. rewrite N.eqb_sym in Hc.
  unfold fence_json, fence. simpl. rewrite Hc. simpl. by rewrite IH.
Qed.

Lemma replace_pair_absent (a b : N) (rep s : pystr) :
  Forall (fun c => c <> a) s -> replace_pair a b rep s = s.
Proof.
  induction 1 as [|c t Hc _ IH]; [done|].
  apply N.eqb_neq in Hc. simpl. rewrite Hc. simpl.
  destruct t; [done|]. by rewrite IH.
Qed.

Lemma escape_orphans_no_backslash (s : pystr) :
  Forall (fun c => c <> 92) s -> escape_orphans s = s.
Proof.
  induction 1 as [|c t Hc _ IH]; [done|].
  apply N.eqb_neq in Hc. simpl. rewrite Hc. simpl.
  destruct t; [done|]. by rewrite IH.
Qed.

(** *** Steps that keep a string plain *)

Section Keeps.

Variable P : N -> Prop.

Lemma replace_char_keeps (a : N) (rep s : pystr) :
  Forall P rep -> Forall P s -> Forall P (replace_char a rep s).
Proof.
  intros Hrep. unfold replace_char. induction 1 as [|c t Hc _ IH]; simpl; [done|].
  apply Forall_app. split; [|done]. destruct (c =? a); [done | by constructor].
Qed.

Lemma collapse_spaces_keeps (b : bool) (s : pystr) :
  P 32 -> Forall P s -> Forall P (collapse_spaces b s).
Proof.
  intros H32 H. revert b. induction H as [|c t Hc _ IH]; intros b; simpl; [done|].
  destruct (is_space c); [destruct b|]; try constructor; auto.
Qed.

Lemma insert_commas_keeps (pending : option pystr) (s : pystr) :
  P 44 -> Forall P (held pending) -> Forall P s ->
  Forall P (insert_commas pending s).
Proof.
  intros H44 Hp H. revert pending Hp.
  induction H as [|c t Hc _ IH]; intros pending Hp; simpl.
  - by destruct pending.
  - destruct (is_closer c).
    + destruct pending as [ws|]; simpl in *.
      * apply Forall_app. split; [done|]. constructor; [done|]. by apply IH.
      * constructor; [done|]. by apply IH.
    + destruct pending as [ws|]; simpl in *.
      * destruct (is_space c).
        { apply IH. simpl. apply Forall_app. split; [done|]. by constructor. }
        destruct (is_opener c).
        { constructor; [done|]. constructor; [done|]. by apply IH. }
        apply Forall_app. split; [done|]. constructor; [done|]. by apply IH.
      * constructor; [done|]. by apply IH.
Qed.

Lemma lstrip_keeps (s : pystr) : Forall P s -> Forall P (lstrip s).
Proof.
  induction 1 as [|c t Hc Ht IH]; simpl; [done|].
  destruct (is_space c); [done | by constructor].
Qed.

Lemma rstrip_keeps (s : pystr) : Forall P s -> Forall P (rstrip s).
Proof.
  induction 1 as [|c t Hc Ht IH]; simpl; [done|].
  destruct (rstrip t).
  - destruct (is_space c); [done | by constructor].
  - by constructor.
Qed.

End Keeps.

Lemma core_plain (s : pystr) : plain s -> plain (core s).
Proof.
  intros H. unfold core, strip, plain in *.
  apply rstrip_keeps, lstrip_keeps, insert_commas_keeps; [done | done |].
  apply replace_char_keeps; [by repeat constructor|].
  apply collapse_spaces_keeps; [done|].
  by apply replace_char_keeps.
Qed.

Lemma plain_no_backslash (s : pystr) : plain s -> Forall (fun c => c <> 92) s.
Proof. apply Forall_impl. by intros c [? ?]. Qed.

Lemma plain_no_backtick (s : pystr) : plain s -> Forall (fun c => c <> 96) s.
Proof. apply Forall_impl. by intros c [? ?]. Qed.

Lemma clean_string_plain (s : pystr) : plain s -> clean_string s = core s.
Proof.
  intros H. unfold clean_string, core. cbv zeta.
  rewrite strip_fences_no_backtick by (by apply plain_no_backtick).
  rewrite (replace_pair_absent 92 110) by (by apply plain_no_backslash).
  assert (plain (replace_char 9 [32] (collapse_spaces false (replace_char 10 [] s))))
    as Hx.
  { unfold plain in *. apply replace_char_keeps; [by repeat constructor|].
    apply collapse_spaces_keeps; [done|]. by apply replace_char_keeps. }
  rewrite (replace_pair_absent 92 116) by (by apply plain_no_backslash).
  by rewrite escape_orphans_no_backslash by (by apply plain_no_backslash).
Qed.

(** *** Tidy whitespace *)

Lemma tidy_collapse (b : bool) (s : pystr) : tidy b (collapse_spaces b s) = true.
Proof.
  revert b. induction s as [|c t IH]; intros b; simpl; [done|].
  destruct (is_space c) eqn:Hc.
  - destruct b; [apply IH|]. simpl. by rewrite IH.
  - simpl. rewrite Hc. apply IH.
Qed.

Lemma collapse_tidy (b : bool) (s : pystr) : tidy b s = true -> collapse_spaces b s = s.
Proof.
  revert b. induction s as [|c t IH]; intros b; simpl; [done|].
  destruct (is_space c).
  - intros [[Hc Hb]%andb_true_iff Ht]%andb_true_iff.
    apply N.eqb_eq in Hc as ->. destruct b; [done|]. by rewrite IH.
  - intros Ht. by rewrite IH.
Qed.

Lemma replace_char_tidy (a : N) (rep : pystr) (b : bool) (s : pystr) :
  is_space a = true -> a <> 32 -> tidy b s = true -> replace_char a rep s = s.
Proof.
  intros Ha Hne. unfold replace_char. revert b.
  induction s as [|c t IH]; intros b; simpl; [done|].
  destruct (N.eqb_spec c a) as [->|Hca].
  - rewrite Ha. intros [[Hc _]%andb_true_iff _]%andb_true_iff.
    by apply N.eqb_eq in Hc.
  - destruct (is_space c).
    + intros [_ Ht]%andb_true_iff. simpl. f_equal. by eapply IH.
    + intros Ht. simpl. f_equal. by eapply IH.
Qed.

Lemma tidy_app_other (b : bool) (l : pystr) (c : N) (t : pystr) :
  is_space c = false -> tidy b (l ++ c :: t) = tidy b l && tidy false t.
Proof.
  intros Hc. revert b. induction l as [|x l IH]; intros b; simpl.
  - by rewrite Hc.
  - destruct (is_space x); rewrite IH; [|done]. by rewrite andb_assoc.
Qed.

Lemma tidy_insert_commas (pending : option pystr) (b : bool) (s : pystr) :
  tidy b (held pending ++ s) = true -> tidy b (insert_commas pending s) = true.
Proof.
  revert pending b. induction s as [|c t IH]; intros pending b; simpl.
  - destruct pending; simpl; [by rewrite app_nil_r | done].
  - destruct (is_closer c) eqn:Hcl.
    + pose proof (closer_not_space c Hcl) as Hsp.
      destruct pending as [ws|]; simpl.
      * rewrite !tidy_app_other by done.
        intros [Hws Ht]%andb_true_iff. rewrite Hws. simpl. by apply (IH (Some [])).
      * rewrite Hsp. intros Ht. by apply (IH (Some [])).
    + destruct pending as [ws|]; simpl.
      * destruct (is_space c) eqn:Hsp.
        { intros H. apply IH. simpl. by rewrite <- app_assoc. }
        rewrite tidy_app_other by done. intros [Hws Ht]%andb_true_iff.
        destruct (is_opener c).
        { simpl. rewrite Hsp. by apply (IH None). }
        rewrite tidy_app_other by done. rewrite Hws. simpl. by apply (IH None).
      * destruct (is_space c).
        { intros [Hc Ht]%andb_true_iff. rewrite Hc. simpl. by apply (IH None). }
        intros Ht. by apply (IH None).
Qed.

Lemma tidy_lstrip (b b' : bool) (s : pystr) : tidy b s = true -> tidy b' (lstrip s) = true.
Proof.
  revert b. induction s as [|c t IH]; intros b; simpl; [done|].
  destruct (is_space c) eqn:Hc.
  - intros [_ Ht]%andb_true_iff. by eapply IH.
  - simpl. by rewrite Hc.
Qed.

Lemma rstrip_cons (c : N) (t : pystr) :
  rstrip (c :: t)
  = if is_space c && bool_decide (rstrip t = []) then [] else c :: rstrip t.
Proof.
  simpl. destruct (rstrip t) as [|x r].
  - rewrite bool_decide_eq_true_2 by done. by destruct (is_space c).
  - rewrite bool_decide_eq_false_2 by done. by rewrite andb_false_r.
Qed.

Lemma tidy_rstrip (b : bool) (s : pystr) : tidy b s = true -> tidy b (rstrip s) = true.
Proof.
  revert b. induction s as [|c t IH]; intros b; [done|].
  rewrite rstrip_cons. simpl.
  destruct (is_space c) eqn:Hc; simpl.
  - intros [Hcb Ht]%andb_true_iff. destruct (bool_decide _); [done|].
    simpl. rewrite Hc, Hcb. simpl. by apply IH.
  - intros Ht. rewrite Hc. by apply IH.
Qed.

(** *** Brackets that touch *)

Lemma has_gap_spaces (armed : bool) (ws s : pystr) :
  Forall (fun c => is_space c = true) ws -> has_gap armed (ws ++ s) = has_gap armed s.
Proof.
  induction 1 as [|c ws Hc _ IH]; simpl; [done|].
  destruct (is_closer c) eqn:Hcl.
  - apply closer_not_space in Hcl. congruence.
  - by rewrite Hc.
Qed.

Lemma no_gap_insert_commas (pending : option pystr) (s : pystr) :
  Forall (fun c => is_space c = true) (held pending) ->
  has_gap (armed_by pending) (insert_commas pending s) = false.
Proof.
  revert pending. induction s as [|c t IH]; intros pending Hws; simpl.
  - destruct pending as [ws|]; simpl in *; [|done].
    rewrite <- (app_nil_r ws). by rewrite has_gap_spaces.
  - destruct (is_closer c) eqn:Hcl.
    + destruct pending as [ws|]; simpl in *.
      * rewrite has_gap_spaces by done. simpl. rewrite Hcl. by apply (IH (Some [])).
      * rewrite Hcl. by apply (IH (Some [])).
    + destruct pending as [ws|]; simpl in *.
      * destruct (is_space c) eqn:Hsp.
        { apply (IH (Some (ws ++ [c]))). simpl. apply Forall_app. split; [done|].
          by constructor. }
        destruct (is_opener c) eqn:Hop.
        { simpl. rewrite Hcl, Hsp, Hop. simpl. by apply (IH None). }
        rewrite has_gap_spaces by done. simpl. rewrite Hcl, Hsp, Hop.
        by apply (IH None).
      * rewrite Hcl. destruct (is_space c); [by apply (IH None)|].
        destruct (is_opener c); by apply (IH None).
Qed.

Lemma insert_commas_no_gap (pending : option pystr) (s : pystr) :
  has_gap (armed_by pending) s = false ->
  insert_commas pending s = held pending ++ s.
Proof.
  revert pending. induction s as [|c t IH]; intros pending; simpl.
  - destruct pending; simpl; by rewrite ?app_nil_r.
  - destruct (is_closer c) eqn:Hcl.
    + intros H. rewrite (IH (Some [])) by done. by destruct pending.
    + destruct pending as [ws|]; simpl.
      * destruct (is_space c).
        { intros H. rewrite (IH (Some (ws ++ [c]))) by done. simpl.
          by rewrite <- app_assoc. }
        destruct (is_opener c); [done|].
        intros H. by rewrite (IH None).
      * destruct (is_space c); [intros H; by rewrite (IH None)|].
        destruct (is_opener c); intros H; by rewrite (IH None).
Qed.

Lemma no_gap_lstrip (s : pystr) : has_gap false s = false -> has_gap false (lstrip s) = false.
Proof.
  induction s as [|c t IH]; simpl; [done|].
  destruct (is_space c) eqn:Hsp.
  - destruct (is_closer c) eqn:Hcl; [|done].
    apply closer_not_space in Hcl. congruence.
  - simpl. by rewrite Hsp.
Qed.

Lemma no_gap_rstrip (b : bool) (s : pystr) :
  has_gap b s = false -> has_gap b (rstrip s) = false.
Proof.
  revert b. induction s as [|c t IH]; intros b; [done|].
  rewrite rstrip_cons. simpl.
  destruct (is_closer c) eqn:Hcl.
  - rewrite (closer_not_space c Hcl). simpl. rewrite Hcl. by apply IH.
  - destruct (is_space c) eqn:Hsp; simpl.
    + destruct (bool_decide _); [done|]. simpl. rewrite Hcl, Hsp. by apply IH.
    + rewrite Hcl, Hsp. destruct (is_opener c).
      * intros [-> H]%orb_false_iff. simpl. by apply IH.
      * by apply IH.
Qed.

(** *** Stripping twice *)

Lemma lstrip_starts_clean (s : pystr) : starts_clean (lstrip s).
Proof.
  induction s as [|c t IH]; simpl; [done|].
  destruct (is_space c) eqn:Hc; [done | by simpl].
Qed.

Lemma lstrip_id (s : pystr) : starts_clean s -> lstrip s = s.
Proof. destruct s as [|c t]; simpl; [done|]. by intros ->. Qed.

Lemma rstrip_starts_clean (s : pystr) : starts_clean s -> starts_clean (rstrip s).
Proof.
  destruct s as [|c t]; [done|]. rewrite rstrip_cons. simpl.
  intros Hc. rewrite Hc. exact Hc.
Qed.

Lemma rstrip_idem (s : pystr) : rstrip (rstrip s) = rstrip s.
Proof.
  induction s as [|c t IH]; [done|].
  rewrite rstrip_cons.
  destruct (is_space c && bool_decide (rstrip t = [])) eqn:Hd; [done|].
  rewrite rstrip_cons, IH. by rewrite Hd.
Qed.

Lemma strip_idem (s : pystr) : strip (strip s) = strip s.
Proof.
  unfold strip.
  rewrite (lstrip_id (rstrip (lstrip s)))
    by apply rstrip_starts_clean, lstrip_starts_clean.
  apply rstrip_idem.
Qed.

(** *** The steps without backslash are idempotent *)

Lemma core_idem (s : pystr) : core (core s) = core s.
Proof.
  set (y := collapse_spaces false (replace_char 10 [] s)).
  assert (tidy false y = true) as Hy by apply tidy_collapse.
  assert (core s = strip (insert_commas None y)) as Hcore.
  { unfold core. fold y. by rewrite (replace_char_tidy 9 [32] false y). }
  set (z := insert_commas None y) in *.
  assert (tidy false z = true) as Hz by (by apply tidy_insert_commas).
  assert (has_gap false z = false) as Hgz by (by apply (no_gap_insert_commas None)).
  assert (tidy false (strip z) = true) as Hr.
  { unfold strip. apply tidy_rstrip. by apply (tidy_lstrip false). }
  assert (has_gap false (strip z) = false) as Hgr.
  { unfold strip. by apply no_gap_rstrip, no_gap_lstrip. }
  rewrite Hcore. unfold core at 1.
  rewrite (replace_char_tidy 10 [] false (strip z)) by done.
  rewrite (collapse_tidy false (strip z)) by done.
  rewrite (replace_char_tidy 9 [32] false (strip z)) by done.
  rewrite (insert_commas_no_gap None (strip z)) by done. simpl.
  apply strip_idem.
Qed.

(** C5, as the code has it. On every string without a backslash and
    without a backtick, and so on every valid report whose strings hold
    no escape sequence and no backtick, normalizing twice gives the same
    string as normalizing once. *)
Theorem clean_string_idempotent_on_plain (s : pystr) :
  plain s -> clean_string (clean_string s) = clean_string s.
Proof.
  intros H. rewrite (clean_string_plain s H).
  rewrite (clean_string_plain (core s)) by (by apply core_plain).
  apply core_idem.
Qed.

Lemma plain_check (s : pystr) :
  forallb (fun c => negb (c =? 92) && negb (c =? 96)) s = true -> plain s.
Proof.
  unfold plain. induction s as [|c t IH]; simpl; [constructor|].
  intros [[H1 H2]%andb_true_iff Ht]%andb_true_iff. constructor; [|by apply IH].
  apply negb_true_iff in H1, H2. by split; apply N.eqb_neq.
Qed.

Lemma clean_string_idempotent_on_plain_witness :
  plain plain_report /\
  clean_string (clean_string plain_report) = clean_string plain_report.
Proof.
  assert (plain plain_report) as H by (apply plain_check; vm_compute; reflexivity).
  split; [exact H|]. exact (clean_string_idempotent_on_plain plain_report H).
Defined.

(** C5, as the specification words it, fails on a valid report that uses
    an escape of four hexadecimal digits: each pass doubles the backslash
    before the letter u once more. *)
Lemma clean_string_not_idempotent_on_escapes :
  valid_report (sample_env []) world0 escaped_report /\
  clean_string (clean_string escaped_report) <> clean_string escaped_report.
Proof.
  split.
  - eexists _, _. split.
    + vm_compute. reflexivity.
    + vm_compute. reflexivity.
  - vm_compute. discriminate.
Qed.

End CleanFacts.

(** ** More on normalization *)

Module CleanMore.

Import Clean Normal Shapes Samples Examples.

Local Open Scope N_scope.
Local Arguments N.eqb : simpl never.
Local Arguments N.leb : simpl never.
Local Arguments N.ltb : simpl never.

Lemma opener_not_closer c : is_opener c = true -> is_closer c = false.
Proof.
  unfold is_opener. intros [H|H]%orb_true_iff; apply N.eqb_eq in H; by subst.
Qed.

Lemma clean_string_no_gap (s : pystr) : has_gap false (clean_string s) = false.
Proof.
  unfold clean_string, strip. cbv zeta.
  apply CleanFacts.no_gap_rstrip, CleanFacts.no_gap_lstrip.
  by apply (CleanFacts.no_gap_insert_commas None).
Qed.

Lemma no_gap_suffix (b : bool) (a t : pystr) :
  has_gap b (a ++ t) = false -> has_gap false t = false.
Proof.
  revert b. induction a as [|x a IH]; intros b; simpl.
  - destruct b; [|done]. clear. induction t as [|c t IH]; simpl; [done|].
    destruct (is_closer c); [done|]. destruct (is_space c); [done|].
    by destruct (is_opener c).
  - destruct (is_closer x); [apply IH|]. destruct (is_space x); [apply IH|].
    destruct (is_opener x); [|apply IH].
    intros [_ H]%orb_false_iff. by eapply IH.
Qed.

Lemma no_gap_closed_off (rest : pystr) : has_gap true rest = false -> closed_off rest.
Proof.
  unfold closed_off. induction rest as [|c t IH]; simpl; [done|].
  destruct (is_space c) eqn:Hsp.
  - destruct (is_closer c) eqn:Hcl; [|done].
    apply CleanFacts.closer_not_space in Hcl. congruence.
  - destruct (is_opener c) eqn:Ho; [|done].
    by rewrite (opener_not_closer c Ho).
Qed.

(** X1. In the normalized text, what follows a closing bracket or brace,
    whitespace apart, is never an opening bracket or brace: two values
    that touched have a comma between them. *)
Theorem clean_string_separates_brackets (s a rest : pystr) (c : N) :
  clean_string s = a ++ c :: rest -> is_closer c = true -> closed_off rest.
Proof.
  intros Heq Hc. apply no_gap_closed_off.
  pose proof (clean_string_no_gap s) as H. rewrite Heq in H.
  apply no_gap_suffix in H. simpl in H. by rewrite Hc in H.
Qed.

Lemma clean_string_separates_brackets_witness :
  clean_string (jq "[{'a': 1}  {'b': 2}]") = jq "[{'a': 1},{'b': 2}]" /\
  closed_off (jq ",{'b': 2}]").
Proof.
  split; [vm_compute; reflexivity|].
  apply (clean_string_separates_brackets (jq "[{'a': 1}  {'b': 2}]")
           (jq "[{'a': 1") (jq ",{'b': 2}]") 125).
  - vm_compute. reflexivity.
  - reflexivity.
Defined.

(** *** Whitespace of the result *)

Lemma replace_pair_keeps (P : N -> Prop) (a b : N) (rep s : pystr) :
  Forall P rep -> Forall P s -> Forall P (replace_pair a b rep s).
Proof.
  intros Hrep. remember (length s) as n eqn:Hn.
  assert (Hle : (length s <= n)%nat) by lia. clear Hn. revert s Hle.
  induction n as [|n IH]; intros s Hle H.
  - destruct s; [done | simpl in Hle; lia].
  - destruct H as [|c t Hc Ht]; [done|]. simpl in *.
    destruct Ht as [|d t' Hd Ht']; [by repeat constructor|].
    destruct ((c =? a) && (d =? b)).
    + apply Forall_app. split; [done|]. apply IH; [simpl in Hle; lia | done].
    + constructor; [done|]. apply IH; [lia | by constructor].
Qed.

Lemma escape_orphans_keeps (P : N -> Prop) (s : pystr) :
  P 92 -> Forall P s -> Forall P (escape_orphans s).
Proof.
  intros H92. remember (length s) as n eqn:Hn.
  assert (Hle : (length s <= n)%nat) by lia. clear Hn. revert s Hle.
  induction n as [|n IH]; intros s Hle H.
  - destruct s; [done | simpl in Hle; lia].
  - destruct H as [|c t Hc Ht]; [done|]. simpl in *.
    destruct Ht as [|d t' Hd Ht']; [by repeat constructor|].
    destruct ((c =? 92) && negb (is_escape_letter d)).
    + do 3 (constructor; [done|]). apply IH; [simpl in Hle; lia | done].
    + constructor; [done|]. apply IH; [lia | by constructor].
Qed.

Lemma collapse_spaces_plain_space (b : bool) (s : pystr) :
  Forall plain_space (collapse_spaces b s).
Proof.
  revert b. induction s as [|c t IH]; intros b; simpl; [done|].
  destruct (is_space c) eqn:Hc.
  - destruct b; [apply IH|]. constructor; [done | apply IH].
  - constructor; [|apply IH]. intros H. congruence.
Qed.

Lemma rstrip_ends_clean (s : pystr) : ends_clean (rstrip s).
Proof.
  unfold ends_clean. induction s as [|c t IH]; [done|].
  rewrite CleanFacts.rstrip_cons.
  destruct (is_space c) eqn:Hc; simpl.
  - case_bool_decide as Ht; [done|]. simpl.
    destruct (rev (rstrip t)) as [|x r] eqn:Hr; [|exact IH].
    apply (f_equal (@rev N)) in Hr. rewrite rev_involutive in Hr. done.
  - destruct (rev (rstrip t)) as [|x r]; [exact Hc | exact IH].
Qed.

(** X2. The normalized text neither begins nor ends with whitespace, and the
    only whitespace character left in it is the plain space: line feeds,
    tabs and the like are gone. *)
Theorem clean_string_whitespace (s : pystr) :
  Forall plain_space (clean_string s)
  /\ starts_clean (clean_string s)
  /\ ends_clean (clean_string s).
Proof.
  unfold clean_string, strip. cbv zeta. split; [|split].
  - apply CleanFacts.rstrip_keeps, CleanFacts.lstrip_keeps.
    apply CleanFacts.insert_commas_keeps; [done | done |].
    apply escape_orphans_keeps; [done|].
    apply replace_pair_keeps; [by repeat constructor|].
    apply CleanFacts.replace_char_keeps; [by repeat constructor|].
    apply collapse_spaces_plain_space.
  - apply CleanFacts.rstrip_starts_clean, CleanFacts.lstrip_starts_clean.
  - apply rstrip_ends_clean.
Qed.

(** *** A fenced reply *)

Lemma strip_fences_opening (t : pystr) :
  strip_fences 0 (fence_json ++ t) = strip_fences 0 t.
Proof. reflexivity. Qed.

Lemma strip_fences_closing (s : pystr) :
  Forall (fun c => c <> 96) s -> strip_fences 0 (s ++ fence) = s.
Proof.
  induction 1 as [|c t Hc _ IH]; [reflexivity|].
  apply N.eqb_neq in Hc. rewrite N.eqb_sym in Hc.
  change ((c :: t) ++ fence) with (c :: (t ++ fence)).
  unfold fence_json, fence in *. simpl. rewrite Hc. simpl. by rewrite IH.
Qed.

(** X3. A reply wrapped in a json code fence is normalized like its body:
    when the body holds no backtick, the opening fence with the word json
    and the closing fence leave no trace. *)
Theorem clean_string_unwraps_fence (s : pystr) :
  Forall (fun c => c <> 96) s ->
  clean_string (fence_json ++ s ++ fence) = clean_string s.
Proof.
  intros H. unfold clean_string. cbv zeta.
  rewrite strip_fences_opening, (strip_fences_closing s H).
  by rewrite (CleanFacts.strip_fences_no_backtick s H).
Qed.

Lemma clean_string_unwraps_fence_witness :
  clean_string (fence_json ++ jq "
[{'a': 1}]
" ++ fence) = jq "[{'a': 1}]".
Proof.
  rewrite (clean_string_unwraps_fence (jq "
[{'a': 1}]
")).
  - vm_compute. reflexivity.
  - repeat constructor; vm_compute; discriminate.
Defined.

End CleanMore.

(** ** More on the schema *)

Module SchemaMore.

Import Schema Shapes Samples Examples.

Local Open Scope py_scope.

(** *** Dictionaries with distinct keys *)

Lemma dict_get_In (k : pystr) (d : dict) (v : value) :
  dict_get k d = Some v -> In (k, v) d.
Proof.
  induction d as [|[k' v'] d IH]; simpl; [done|].
  destruct (str_eqb k' k) eqn:Hk.
  - apply str_eqb_eq in Hk. intros [= ->]. left. by subst.
  - intros H. right. by apply IH.
Qed.

Lemma dict_get_not_key (k : pystr) (d : dict) : ~ In k (keys d) -> dict_get k d = None.
Proof.
  induction d as [|[k' v'] d IH]; simpl; [done|]. intros H.
  destruct (str_eqb k' k) eqn:Hk.
  - apply str_eqb_eq in Hk. tauto.
  - apply IH. tauto.
Qed.

(** *** The verdict of the validators *)

Lemma py_in_values_app (v : pystr) (l l' : list value) :
  py_in_values v (l ++ l') = py_in_values v l || py_in_values v l'.
Proof. unfold py_in_values. apply existsb_app. Qed.

Lemma py_in_values_sentinels (v : pystr) (n : nat) :
  py_in_values v (repeat (VStr sentinel) n) = true -> v = sentinel.
Proof.
  induction n as [|n IH]; simpl; [done|].
  intros [H|H]%orb_true_iff; [|by apply IH].
  apply str_eqb_eq in H. done.
Qed.

Lemma listed_grown (l l' : list value) (v : pystr) :
  grows_by_sentinels l l' -> py_in_values v (l' ++ [VStr sentinel]) = true -> listed l v.
Proof.
  intros [n ->]. rewrite <- app_assoc, py_in_values_app.
  intros [H|H]%orb_true_iff; [by left|]. right.
  apply (py_in_values_sentinels v (n + 1)). by rewrite repeat_app.
Qed.

(** X4. [validate_operation] accepts a name exactly when it is one of the
    configured operation types or the sentinel, whatever the list has
    collected before; every other name raises [ValueError]. *)
Theorem validate_operation_verdict (v : pystr) (w : world) :
  fst (validate_operation v w)
  = if py_in_values v (ae_type (allowed w)) || bool_decide (v = sentinel)
    then Ok v else Raise ValueError.
Proof.
  unfold validate_operation, bind, append_type, get_allowed. simpl.
  rewrite py_in_values_app.
  replace (py_in_values v [VStr sentinel]) with (bool_decide (v = sentinel)).
  - by destruct (py_in_values v (ae_type (allowed w)) || bool_decide (v = sentinel)).
  - simpl. rewrite orb_false_r. unfold str_eqb.
    apply bool_decide_ext. split; congruence.
Qed.

(** *** What validation does to the world *)

Lemma grows_refl (l : list value) : grows_by_sentinels l l.
Proof. exists 0%nat. simpl. by rewrite app_nil_r. Qed.

Lemma grows_one (l : list value) : grows_by_sentinels l (l ++ [VStr sentinel]).
Proof. by exists 1%nat. Qed.

Lemma grows_trans (l1 l2 l3 : list value) :
  grows_by_sentinels l1 l2 -> grows_by_sentinels l2 l3 -> grows_by_sentinels l1 l3.
Proof.
  intros [n ->] [m ->]. exists (n + m)%nat. by rewrite repeat_app, app_assoc.
Qed.

Lemma added_refl (w : world) : only_sentinels_added w w.
Proof. repeat split; apply grows_refl. Qed.

Lemma added_trans (w1 w2 w3 : world) :
  only_sentinels_added w1 w2 -> only_sentinels_added w2 w3 -> only_sentinels_added w1 w3.
Proof.
  intros (A1 & A2 & A3 & A4 & A5) (B1 & B2 & B3 & B4 & B5).
  repeat split; try (eapply grows_trans; eassumption); congruence.
Qed.

Lemma adds_ret {A} (a : A) : adds_sentinels (ret a).
Proof. intros w. apply added_refl. Qed.

Lemma adds_raise {A} (e : exn) : adds_sentinels (@raise A e).
Proof. intros w. apply added_refl. Qed.

Lemma adds_bind {A B} (m : M A) (k : A -> M B) :
  adds_sentinels m -> (forall a, adds_sentinels (k a)) -> adds_sentinels (bind m k).
Proof.
  intros Hm Hk w. unfold bind. specialize (Hm w).
  destruct (m w) as [[a|e] w']; simpl in *; [|done].
  eapply added_trans; [exact Hm | apply Hk].
Qed.

Lemma adds_checked {A} (m : M A) (wrap : A -> value) :
  adds_sentinels m -> adds_sentinels (checked m wrap).
Proof.
  intros Hm w. unfold checked. specialize (Hm w).
  by destruct (m w) as [[a|e] w'].
Qed.

Lemma adds_validate_operation (v : pystr) : adds_sentinels (validate_operation v).
Proof.
  intros w. unfold validate_operation, bind, append_type, get_allowed. simpl.
  destruct (negb _); simpl; repeat split; try apply grows_refl; apply grows_one.
Qed.

Lemma adds_validate_culture (v : option pystr) : adds_sentinels (validate_culture v).
Proof.
  intros w. unfold validate_culture, bind, append_culture, get_allowed. simpl.
  destruct v as [[|c s]|]; simpl; try destruct (negb _); simpl;
    repeat split; try apply grows_refl; apply grows_one.
Qed.

Lemma adds_validate_division (v : option pystr) : adds_sentinels (validate_division v).
Proof.
  intros w. unfold validate_division, bind, append_division, get_allowed. simpl.
  destruct v as [[|c s]|]; simpl; try destruct (negb _); simpl;
    repeat split; try apply grows_refl; apply grows_one.
Qed.

Lemma adds_field_operation (d : dict) : adds_sentinels (field_operation d).
Proof.
  unfold field_operation.
  destruct (dict_get k_operation d) as [[]|]; try apply adds_ret.
  apply adds_checked, adds_validate_operation.
Qed.

Lemma adds_field_optional validator (k : pystr) (d : dict) :
  (forall v, adds_sentinels (validator v)) -> adds_sentinels (field_optional validator k d).
Proof.
  intros H. unfold field_optional.
  destruct (dict_get k d) as [[]|]; try apply adds_ret; by apply adds_checked.
Qed.

Lemma adds_validate_entry (E : env) (item : value) : adds_sentinels (validate_entry E item).
Proof.
  destruct item; try apply adds_ret. unfold validate_entry.
  apply adds_bind; [apply adds_field_operation|]. intros op.
  apply adds_bind; [apply adds_field_optional, adds_validate_division|]. intros dv.
  apply adds_bind; [apply adds_field_optional, adds_validate_culture|]. intros cu.
  apply adds_ret.
Qed.

Lemma adds_validate_entries (E : env) (items : list value) :
  adds_sentinels (validate_entries E items).
Proof.
  induction items as [|item rest IH]; cbn [validate_entries]; [apply adds_ret|].
  apply adds_bind; [apply adds_validate_entry|]. intros r.
  apply adds_bind; [apply IH|]. intros rs. apply adds_ret.
Qed.

Lemma adds_model_validate_dump (E : env) (parsed : value) :
  adds_sentinels (model_validate_dump E parsed).
Proof.
  destruct parsed; try apply adds_raise. unfold model_validate_dump.
  apply adds_bind; [apply adds_validate_entries|]. intros rs.
  destruct (all_valid rs); [apply adds_ret | apply adds_raise].
Qed.

(** X5. Whatever is validated, and whether it passes or not, the validation
    calls no backend, and all it changes in the three lists of allowed
    names is to append copies of the sentinel: the configured names stay,
    in their order, at the front. *)
Theorem validation_only_appends_sentinels (E : env) (parsed : value) (w : world) :
  only_sentinels_added w (snd (model_validate_dump E parsed w)).
Proof. apply adds_model_validate_dump. Qed.

(** *** What a dumped entry holds *)

Lemma dump_fields_cons (k : pystr) (o : field_outcome) fs (d : dict) :
  dump_fields ((k, o) :: fs) = Some d ->
  exists v d', o = FieldOk v /\ dump_fields fs = Some d'
               /\ d = match kept v with Some _ => (k, v) :: d' | None => d' end.
Proof.
  simpl. destruct o as [v|]; [|done].
  destruct (dump_fields fs) as [d'|]; [|by destruct v].
  intros H. exists v, d'. by destruct v; inversion H.
Qed.

Lemma dump_fields_keys fs (d : dict) :
  dump_fields fs = Some d -> sublist (keys d) (map fst fs).
Proof.
  revert d. induction fs as [|[k o] fs IH]; intros d.
  - intros [= <-]. constructor.
  - intros (v & d' & -> & Hd' & ->)%dump_fields_cons. simpl.
    destruct (kept v); [apply sublist_skip | apply sublist_cons]; by apply IH.
Qed.

Lemma dump_fields_no_null fs (d : dict) :
  dump_fields fs = Some d -> Forall (fun kv => snd kv <> VNone) d.
Proof.
  revert d. induction fs as [|[k o] fs IH]; intros d.
  - intros [= <-]. constructor.
  - intros (v & d' & -> & Hd' & ->)%dump_fields_cons.
    destruct v; simpl; try (constructor; [done|]); by apply IH.
Qed.

Lemma dump_fields_get fs (d : dict) (k : pystr) :
  List.NoDup (map fst fs) -> dump_fields fs = Some d ->
  match field_lookup k fs with
  | Some o => exists v, o = FieldOk v /\ dict_get k d = kept v
  | None => dict_get k d = None
  end.
Proof.
  revert d. induction fs as [|[k' o] fs IH]; intros d Hnd.
  - by intros [= <-].
  - intros (v & d' & -> & Hd' & ->)%dump_fields_cons.
    inversion Hnd as [|? ? Hk' Hnd']; subst. simpl.
    specialize (IH d' Hnd' Hd').
    destruct (str_eqb k' k) eqn:Hk.
    + exists v. split; [done|]. apply str_eqb_eq in Hk. subst k'.
      assert (dict_get k d' = None) as Hnone.
      { apply dict_get_not_key. intros Hin. apply Hk'.
        pose proof (dump_fields_keys _ _ Hd') as Hsub.
        apply list_elem_of_In. eapply elem_of_sublist; [|exact Hsub].
        by apply list_elem_of_In. }
      destruct v; simpl; rewrite ?str_eqb_refl; done.
    + assert (dict_get k (match kept v with Some _ => (k', v) :: d' | None => d' end)
              = dict_get k d') as ->; [|exact IH].
      destruct (kept v); simpl; by rewrite ?Hk.
Qed.

Lemma field_names_NoDup : List.NoDup field_names.
Proof.
  apply NoDup_ListNoDup, (bool_decide_unpack (NoDup field_names)).
  vm_compute. exact I.
Qed.

Lemma dump_nine (o1 o2 o3 o4 o5 o6 o7 o8 o9 : field_outcome) (d : dict) :
  dump_fields [(k_date, o1); (k_operation, o2); (k_data, o3); (k_division, o4);
               (k_culture, o5); (f_day_area, o6); (f_total_area, o7);
               (f_day_yield, o8); (f_total_yield, o9)] = Some d ->
  well_formed_record d
  /\ (exists v, o1 = FieldOk v /\ dict_get k_date d = kept v)
  /\ (exists v, o2 = FieldOk v /\ dict_get k_operation d = kept v)
  /\ (exists v, o3 = FieldOk v /\ dict_get k_data d = kept v)
  /\ (exists v, o4 = FieldOk v /\ dict_get k_division d = kept v)
  /\ (exists v, o5 = FieldOk v /\ dict_get k_culture d = kept v)
  /\ (exists v, o6 = FieldOk v /\ dict_get f_day_area d = kept v)
  /\ (exists v, o7 = FieldOk v /\ dict_get f_total_area d = kept v)
  /\ (exists v, o8 = FieldOk v /\ dict_get f_day_yield d = kept v)
  /\ (exists v, o9 = FieldOk v /\ dict_get f_total_yield d = kept v).
Proof.
  set (fs := [(k_date, o1); _; _; _; _; _; _; _; _]). intros Hd.
  assert (Hnd : List.NoDup (map fst fs)) by exact field_names_NoDup.
  split.
  { split; [|split].
    - exact (dump_fields_keys fs d Hd).
    - apply NoDup_ListNoDup. eapply sublist_NoDup; [|exact (dump_fields_keys fs d Hd)].
      apply NoDup_ListNoDup, field_names_NoDup.
    - exact (dump_fields_no_null fs d Hd). }
  pose proof (fun k => dump_fields_get fs d k Hnd Hd) as Hget.
  repeat split.
  - specialize (Hget k_date).
    by replace (field_lookup k_date fs) with (Some o1) in Hget by (vm_compute; reflexivity).
  - specialize (Hget k_operation).
    by replace (field_lookup k_operation fs) with (Some o2) in Hget by (vm_compute; reflexivity).
  - specialize (Hget k_data).
    by replace (field_lookup k_data fs) with (Some o3) in Hget by (vm_compute; reflexivity).
  - specialize (Hget k_division).
    by replace (field_lookup k_division fs) with (Some o4) in Hget by (vm_compute; reflexivity).
  - specialize (Hget k_culture).
    by replace (field_lookup k_culture fs) with (Some o5) in Hget by (vm_compute; reflexivity).
  - specialize (Hget f_day_area).
    by replace (field_lookup f_day_area fs) with (Some o6) in Hget by (vm_compute; reflexivity).
  - specialize (Hget f_total_area).
    by replace (field_lookup f_total_area fs) with (Some o7) in Hget by (vm_compute; reflexivity).
  - specialize (Hget f_day_yield).
    by replace (field_lookup f_day_yield fs) with (Some o8) in Hget by (vm_compute; reflexivity).
  - specialize (Hget f_total_yield).
    by replace (field_lookup f_total_yield fs) with (Some o9) in Hget by (vm_compute; reflexivity).
Qed.

(** *** What each field lets through *)

Lemma str_outcome_ok (o : option pystr) (v : value) :
  str_outcome o = FieldOk v -> exists s, v = VStr s.
Proof. destruct o as [s|]; [|done]. intros [= <-]. by exists s. Qed.

Lemma checked_ok {A} (m : M A) (wrap : A -> value) (w w' : world) (v : value) :
  checked m wrap w = (Ok (FieldOk v), w') -> exists a, m w = (Ok a, w') /\ v = wrap a.
Proof.
  unfold checked. destruct (m w) as [[a|e] w1]; [|done].
  intros [= <- <-]. by exists a.
Qed.

Lemma validate_operation_ok (s s' : pystr) (w w' : world) :
  validate_operation s w = (Ok s', w') ->
  s' = s /\ py_in_values s (ae_type (allowed w) ++ [VStr sentinel]) = true.
Proof.
  unfold validate_operation, bind, append_type, get_allowed. simpl.
  destruct (py_in_values s _) eqn:Hin; simpl; [|done]. by intros [= <- _].
Qed.

Lemma validate_culture_ok (o o' : option pystr) (w w' : world) :
  validate_culture o w = (Ok o', w') ->
  o' = o /\ match o with
            | Some (c :: s) =>
                py_in_values (c :: s) (ae_culture (allowed w) ++ [VStr sentinel]) = true
            | _ => True
            end.
Proof.
  unfold validate_culture, bind, append_culture, get_allowed. simpl.
  destruct o as [[|c s]|]; simpl; try (by intros [= <- _]).
  destruct (py_in_values (c :: s) _) eqn:Hin; simpl; [|done]. by intros [= <- _].
Qed.

Lemma validate_division_ok (o o' : option pystr) (w w' : world) :
  validate_division o w = (Ok o', w') ->
  o' = o /\ match o with
            | Some (c :: s) =>
                py_in_values (c :: s) (ae_division (allowed w) ++ [VStr sentinel]) = true
            | _ => True
            end.
Proof.
  unfold validate_division, bind, append_division, get_allowed. simpl.
  destruct o as [[|c s]|]; simpl; try (by intros [= <- _]).
  destruct (py_in_values (c :: s) _) eqn:Hin; simpl; [|done]. by intros [= <- _].
Qed.

Lemma field_operation_ok (d : dict) (w w' w0 : world) (v : value) :
  only_sentinels_added w0 w ->
  field_operation d w = (Ok (FieldOk v), w') ->
  exists s, v = VStr s /\ listed (ae_type (allowed w0)) s.
Proof.
  intros (Ht & _) H. unfold field_operation in H.
  destruct (dict_get k_operation d) as [[| | | |s| |]|]; try done.
  apply checked_ok in H as (s' & H & ->).
  apply validate_operation_ok in H as [-> Hin].
  exists s. split; [done|]. by eapply listed_grown.
Qed.

Lemma field_culture_ok (d : dict) (w w' w0 : world) (v : value) :
  only_sentinels_added w0 w ->
  field_optional validate_culture k_culture d w = (Ok (FieldOk v), w') ->
  optional_listed (ae_culture (allowed w0)) (kept v).
Proof.
  intros (_ & Hc & _) H. unfold field_optional in H.
  destruct (dict_get k_culture d) as [[| | | |s| |]|]; try done.
  - apply checked_ok in H as (o & H & ->).
    by apply validate_culture_ok in H as [-> _].
  - apply checked_ok in H as (o & H & ->).
    apply validate_culture_ok in H as [-> Hin]. simpl.
    destruct s as [|c s]; [by left|]. right. by eapply listed_grown.
  - by injection H as <- _.
Qed.

Lemma field_division_ok (d : dict) (w w' w0 : world) (v : value) :
  only_sentinels_added w0 w ->
  field_optional validate_division k_division d w = (Ok (FieldOk v), w') ->
  optional_listed (ae_division (allowed w0)) (kept v).
Proof.
  intros (_ & _ & Hd & _) H. unfold field_optional in H.
  destruct (dict_get k_division d) as [[| | | |s| |]|]; try done.
  - apply checked_ok in H as (o & H & ->).
    by apply validate_division_ok in H as [-> _].
  - apply checked_ok in H as (o & H & ->).
    apply validate_division_ok in H as [-> Hin]. simpl.
    destruct s as [|c s]; [by left|]. right. by eapply listed_grown.
  - by injection H as <- _.
Qed.

Lemma int_or_str_ok (E : env) (k : pystr) (d : dict) (v : value) :
  int_or_str E k d = FieldOk v -> area_value (kept v).
Proof.
  unfold int_or_str. destruct (dict_get k d) as [[| | |f| | |]|]; try done;
    try (by intros [= <-]).
  destruct (int_from_float E f); [|done]. by intros [= <-].
Qed.

Lemma num_or_str_ok (k : pystr) (d : dict) (v : value) :
  num_or_str k d = FieldOk v -> yield_value (kept v).
Proof.
  unfold num_or_str. destruct (dict_get k d) as [[| | | | | |]|]; try done;
    by intros [= <-].
Qed.

Lemma ok_pair_inv {A} (a b : A) (w w' : world) : (Ok a, w) = (Ok b, w') -> a = b.
Proof. by intros [= ->]. Qed.

Lemma validate_entry_ok (E : env) (item : value) (w w' w0 : world) (d : dict) :
  only_sentinels_added w0 w ->
  validate_entry E item w = (Ok (Some d), w') ->
  sound_record (allowed w0) d /\ well_formed_record d.
Proof.
  intros Hw. destruct item as [| | | | | |d0]; try done.
  unfold validate_entry, bind.
  destruct (field_operation d0 w) as [[op|e] wa] eqn:Hop; [|done].
  assert (Hwa : only_sentinels_added w0 wa).
  { eapply added_trans; [exact Hw|].
    pose proof (adds_field_operation d0 w) as H. by rewrite Hop in H. }
  destruct (field_optional validate_division k_division d0 wa) as [[dv|e] wb] eqn:Hdv;
    [|done].
  assert (Hwb : only_sentinels_added w0 wb).
  { eapply added_trans; [exact Hwa|].
    pose proof (adds_field_optional validate_division k_division d0
                  adds_validate_division wa) as H. by rewrite Hdv in H. }
  destruct (field_optional validate_culture k_culture d0 wb) as [[cu|e] wc] eqn:Hcu;
    [|done].
  unfold ret. intros Hd%ok_pair_inv.
  apply dump_nine in Hd
    as (Hwf & (v1 & H1 & G1) & (v2 & H2 & G2) & (v3 & H3 & G3) & (v4 & H4 & G4)
        & (v5 & H5 & G5) & (v6 & H6 & G6) & (v7 & H7 & G7) & (v8 & H8 & G8)
        & (v9 & H9 & G9)).
  split; [|exact Hwf]. subst op dv cu.
  apply str_outcome_ok in H1 as [s1 ->]. apply str_outcome_ok in H3 as [s3 ->].
  destruct (field_operation_ok _ _ _ _ _ Hw Hop) as (s2 & -> & Hs2).
  unfold sound_record. rewrite G1, G2, G3, G4, G5, G6, G7, G8, G9.
  split; [by exists s1|]. split; [by exists s2|]. split; [by exists s3|].
  split; [exact (field_division_ok _ _ _ _ _ Hwa Hdv)|].
  split; [exact (field_culture_ok _ _ _ _ _ Hwb Hcu)|].
  split; [exact (int_or_str_ok _ _ _ _ H6)|].
  split; [exact (int_or_str_ok _ _ _ _ H7)|].
  split; [exact (num_or_str_ok _ _ _ H8) | exact (num_or_str_ok _ _ _ H9)].
Qed.

Lemma validate_entries_ok (E : env) (items : list value) (w w' w0 : world)
    (rs : list (option dict)) (ds : list dict) :
  only_sentinels_added w0 w ->
  validate_entries E items w = (Ok rs, w') ->
  all_valid rs = Some ds ->
  Forall (fun d => sound_record (allowed w0) d /\ well_formed_record d) ds.
Proof.
  revert w w' rs ds. induction items as [|item rest IH]; intros w w' rs ds Hw.
  - cbn [validate_entries]. unfold ret. intros [= <- _] [= <-]. constructor.
  - cbn [validate_entries]. unfold bind.
    destruct (validate_entry E item w) as [[r|e] wa] eqn:Hr; [|done].
    assert (Hwa : only_sentinels_added w0 wa).
    { eapply added_trans; [exact Hw|].
      pose proof (adds_validate_entry E item w) as H. by rewrite Hr in H. }
    destruct (validate_entries E rest wa) as [[rs'|e] wb] eqn:Hrs; [|done].
    unfold ret. intros [= <- _]. simpl.
    destruct r as [d|]; [|done].
    destruct (all_valid rs') as [ds'|] eqn:Hds; [|done]. intros [= <-].
    constructor.
    + eapply validate_entry_ok; [exact Hw | exact Hr].
    + eapply IH; [exact Hwa | exact Hrs | exact Hds].
Qed.

Lemma model_validate_dump_ok (E : env) (parsed : value) (w : world) (ds : list dict) :
  fst (model_validate_dump E parsed w) = Ok ds ->
  Forall (fun d => sound_record (allowed w) d /\ well_formed_record d) ds.
Proof.
  destruct parsed as [| | | | |items|]; try done.
  unfold model_validate_dump, bind.
  destruct (validate_entries E items w) as [[rs|e] w1] eqn:Hrs; [|done].
  destruct (all_valid rs) as [ds'|] eqn:Hds; [|done].
  simpl. intros [= <-].
  eapply validate_entries_ok; [apply added_refl | exact Hrs | exact Hds].
Qed.

(** X6. Every record the schema lets through has a string date, a string
    source text and an operation that is a configured type or the
    sentinel; its division and culture, when present, are empty, a
    configured name or the sentinel; its areas are integers or strings and
    its yields integers, floats or strings.  The names are those
    configured before the validation began, however many sentinels the
    lists have collected. *)
Theorem validated_records_sound (E : env) (parsed : value) (w : world) (ds : list dict) :
  fst (model_validate_dump E parsed w) = Ok ds ->
  Forall (sound_record (allowed w)) ds.
Proof.
  intros H. eapply List.Forall_impl; [|exact (model_validate_dump_ok E parsed w ds H)].
  by intros d [? _].
Qed.

Lemma validated_records_sound_witness :
  Forall (sound_record (allowed world0)) MoreExamples.full_entry_dumped.
Proof.
  apply (validated_records_sound (sample_env []) MoreExamples.full_entry world0).
  vm_compute. reflexivity.
Defined.

(** X7. The records the schema returns carry distinct keys, all of them among
    the nine attribute names and in the order of the class, and no null
    value: an optional field that is null is left out. *)
Theorem validated_records_well_formed (E : env) (parsed : value) (w : world)
    (ds : list dict) :
  fst (model_validate_dump E parsed w) = Ok ds ->
  Forall well_formed_record ds.
Proof.
  intros H. eapply List.Forall_impl; [|exact (model_validate_dump_ok E parsed w ds H)].
  by intros d [_ ?].
Qed.

Lemma validated_records_well_formed_witness :
  Forall well_formed_record MoreExamples.full_entry_dumped.
Proof.
  apply (validated_records_well_formed (sample_env []) MoreExamples.full_entry world0).
  vm_compute. reflexivity.
Defined.

End SchemaMore.

(** ** More on the pipeline *)

Module ReportBuilderMore.

Import Clean Schema ReportBuilder Rules Shapes Samples Examples MoreExamples.

Local Open Scope py_scope.

(** *** Repair calls *)

Lemma model_validate_dump_calls (E : env) (parsed : value) (w : world) :
  calls (snd (model_validate_dump E parsed w)) = calls w.
Proof. by destruct (SchemaMore.adds_model_validate_dump E parsed w) as (_ & _ & _ & ? & _). Qed.

Lemma repair_tail_calls (E : env) (correction : pystr) (w : world) :
  calls (snd ((fixed <- lift (literal_eval E (clean_string correction)) ;;
               model_validate_dump E fixed) w)) = calls w.
Proof.
  unfold bind, lift. destruct (literal_eval E _) as [fixed|e]; [|done].
  apply model_validate_dump_calls.
Qed.

Lemma repair_calls {A} (E : env) tag instruction text (k : pystr -> M A) (w : world) :
  (forall c w1, calls (snd (k c w1)) = calls w1) ->
  calls (snd ((correction <- predict E tag instruction text ;; k correction) w))
  = calls w ++ [{| call_tag := tag; call_instruction := instruction; call_text := text |}].
Proof.
  intros Hk. unfold bind.
  pose proof (ReportBuilderFacts.predict_calls E tag instruction text w) as Hp.
  destruct (predict E tag instruction text w) as [[c|e] w1]; simpl in *; [|done].
  by rewrite Hk.
Qed.

Lemma validate_journal (E : env) (reports : pystr) (w : world) :
  calls (snd (_validate E reports w)) = calls w
  \/ exists c, calls (snd (_validate E reports w)) = calls w ++ [c] /\ repair_of reports c.
Proof.
  unfold _validate.
  destruct (parse_report E reports) as [parsed|e].
  - pose proof (model_validate_dump_calls E parsed w) as Hm.
    destruct (model_validate_dump E parsed w) as [[ds|e] w1]; simpl in Hm; [by left|].
    destruct e; try (by left). right. eexists. split.
    + unfold _correct_fields. rewrite repair_calls; [by rewrite Hm|].
      intros c w2. apply repair_tail_calls.
    + left. done.
  - destruct e; try (by left). right. eexists. split.
    + unfold _correct_json. rewrite repair_calls; [done|].
      intros c w2. apply repair_tail_calls.
    + right. done.
Qed.

(** X8. [_validate] asks the backend for a repair at most once, whatever the
    reply it is given: the journal of calls is left as it was, or grows by
    one call, which is a repair of the fields sent without text or a
    repair of the JSON sent with the raw reply.  A repaired reply that
    fails again is not repaired a second time. *)
Theorem validate_repairs_at_most_once (E : env) (reports : pystr) (w : world) :
  calls (snd (_validate E reports w)) = calls w
  \/ exists c, calls (snd (_validate E reports w)) = calls w ++ [c] /\ repair_of reports c.
Proof. apply validate_journal. Qed.

(** *** The second stage *)

Lemma gather_journal (E : env) (prompt : pystr) (l : list dict) (w : world) :
  exists k,
    (k <= length l)%nat
    /\ calls (snd (_gather_raw_results E prompt l w))
       = calls w ++ map (final_call E prompt) (take k l)
    /\ forall reports, fst (_gather_raw_results E prompt l w) = Ok reports ->
                       k = length l /\ length reports = length l.
Proof.
  revert w. induction l as [|report rest IH]; intros w.
  - exists 0%nat. simpl. rewrite app_nil_r. split; [done|]. split; [done|].
    by intros reports [= <-].
  - cbn [_gather_raw_results]. unfold bind.
    pose proof (ReportBuilderFacts.predict_calls E CallFinal prompt
                  (py_repr E (VDict report)) w) as Hp.
    destruct (predict E CallFinal prompt (py_repr E (VDict report)) w)
      as [[raw|e] w1]; simpl in Hp.
    + destruct (IH w1) as (k & Hk & Hcalls & Hok).
      exists (S k). split; [simpl; lia|].
      destruct (_gather_raw_results E prompt rest w1) as [[reports|e] w2];
        simpl in *; rewrite Hcalls, Hp, <- app_assoc; (split; [done|]).
      * intros reports' [= <-]. destruct (Hok reports eq_refl) as [-> Hlen].
        simpl. by rewrite Hlen.
      * done.
    + exists 1%nat. simpl. split; [lia|]. split; [exact Hp | done].
Qed.

(** X9. The second stage sends every record of the first stage to the backend
    on its own, in the order of the list and under the same instruction.
    When it completes it has one reply for each record and has made one
    call for each.  When it raises, it has stopped at the first call that
    failed: there is a record, at a position [k], such that the calls for
    the [k] records before it succeeded, the call for it raised the
    exception of the stage, the state of the stage is the state that call
    left, and the journal has grown by the calls for the first [k + 1]
    records and by no other. *)
Theorem gather_one_call_per_record (E : env) (prompt : pystr) (l : list dict) (w : world) :
  match _gather_raw_results E prompt l w with
  | (Ok reports, w') =>
      length reports = length l
      /\ calls w' = calls w ++ map (final_call E prompt) l
  | (Raise e, w') =>
      exists (k : nat) (report : dict) (reports : list pystr) (wk : world),
        l !! k = Some report
        /\ _gather_raw_results E prompt (take k l) w = (Ok reports, wk)
        /\ predict E CallFinal prompt (py_repr E (VDict report)) wk = (Raise e, w')
        /\ calls w' = calls w ++ map (final_call E prompt) (take (S k) l)
  end.
Proof.
  revert w. induction l as [|report rest IH]; intros w.
  - cbn [_gather_raw_results]. unfold ret. cbn [map]. by rewrite app_nil_r.
  - cbn [_gather_raw_results]. unfold bind.
    pose proof (ReportBuilderFacts.predict_calls E CallFinal prompt
                  (py_repr E (VDict report)) w) as Hp.
    destruct (predict E CallFinal prompt (py_repr E (VDict report)) w)
      as [[raw|e] w1] eqn:Hpredict; cbn [snd] in Hp.
    + specialize (IH w1).
      destruct (_gather_raw_results E prompt rest w1) as [[reports|e] w2] eqn:Hrest.
      * unfold ret. destruct IH as [Hlen Hcalls]. split.
        -- cbn [length]. by rewrite Hlen.
        -- rewrite Hcalls, Hp, <- app_assoc. done.
      * destruct IH as (k & report' & reports & wk & Hk & Hg & Hfail & Hcalls).
        exists (S k), report', (raw :: reports), wk.
        split; [done|]. split.
        { change (take (S k) (report :: rest)) with (report :: take k rest).
          cbn [_gather_raw_results]. unfold bind. rewrite Hpredict, Hg. done. }
        split; [done|].
        rewrite Hcalls, Hp, <- app_assoc. done.
    + exists 0%nat, report, [], w.
      split; [done|]. split; [done|]. split; [done|]. exact Hp.
Qed.

(** A run of the second stage on three records whose second call fails:
    the stage raises the failure of the backend and the third record is
    never sent. *)
Example gather_stops_at_failure :
  fst (_gather_raw_results MoreExamples.failing_backend (u "p") MoreExamples.three_records
         world0) = Raise BackendError
  /\ map call_text
       (calls (snd (_gather_raw_results MoreExamples.failing_backend (u "p")
                      MoreExamples.three_records world0)))
     = map (fun r => py_repr MoreExamples.failing_backend (VDict r))
           (take 2 MoreExamples.three_records).
Proof. split; vm_compute; reflexivity. Qed.

(** *** The journal of a run *)

Local Ltac trivia := repeat split; try done; try (simpl; lia); try by constructor.

Lemma repair_of_is_repair (reports : pystr) (c : call) : repair_of reports c -> is_repair c.
Proof. intros [[? _]|[? _]]; [by left | by right]. Qed.

Lemma validate_added (E : env) (reports : pystr) (w : world) :
  exists r, calls (snd (_validate E reports w)) = calls w ++ r
            /\ (length r <= 1)%nat /\ Forall is_repair r.
Proof.
  destruct (validate_journal E reports w) as [H|(c & H & Hc)].
  - exists []. rewrite app_nil_r. trivia.
  - exists [c]. split; [done|]. split; [simpl; lia|].
    constructor; [by eapply repair_of_is_repair | constructor].
Qed.

Lemma first_stage_journal (E : env) (report_data : pystr) (w : world) :
  exists r1,
    calls (snd (_process_stage E (RawText report_data) prompt_initial true w))
    = calls w ++ initial_call E report_data :: r1
    /\ (length r1 <= 1)%nat /\ Forall is_repair r1.
Proof.
  unfold _process_stage, bind. cbv zeta.
  pose proof (ReportBuilderFacts.predict_calls E CallInitial
                (load_prompt E prompt_initial true false None) report_data w) as Hp.
  destruct (predict E CallInitial _ report_data w) as [[reports|e] wp]; simpl in Hp.
  - destruct (validate_added E reports wp) as (r1 & Hv & Hlen & Hrep).
    exists r1. rewrite Hv, Hp, <- app_assoc. done.
  - exists []. simpl. rewrite Hp. trivia.
Qed.

Lemma second_stage_journal (E : env) (records : list dict) (w : world) :
  exists k r2,
    calls (snd (_process_stage E (Records records) prompt_final false w))
    = calls w ++ map (final_call E (load_prompt E prompt_final false false None))
                     (take k records) ++ r2
    /\ (length r2 <= 1)%nat /\ Forall is_repair r2.
Proof.
  unfold _process_stage, bind. cbv zeta.
  destruct (gather_journal E (load_prompt E prompt_final false false None) records w)
    as (k & _ & Hg & _).
  destruct (_gather_raw_results E _ records w) as [[reports|e] wg]; simpl in Hg.
  - destruct (validate_added E (Json.dumps_str_list reports) wg) as (r2 & Hv & Hlen & Hrep).
    exists k, r2. rewrite Hv, Hg, <- app_assoc. done.
  - exists k, []. simpl. rewrite Hg, app_nil_r. trivia.
Qed.

(** X10. One run of the pipeline adds to the journal, in this order: the
    initial call with the raw report, at most one repair call, one call of
    the second stage for each of the first records of the first stage, and
    at most one repair call.  Nothing else is ever sent to the backend,
    whether the run returns or raises. *)
Theorem build_journal (E : env) (report_data : pystr) (w : world) :
  exists added,
    calls (snd (build E report_data w)) = calls w ++ added
    /\ journal_of_build E report_data w added.
Proof.
  unfold build, bind, journal_of_build.
  destruct (first_stage_journal E report_data w) as (r1 & H1 & Hl1 & Hr1).
  destruct (_process_stage E (RawText report_data) prompt_initial true w)
    as [[records|e] w1] eqn:Hs1; simpl in H1.
  - destruct (second_stage_journal E records w1) as (k & r2 & H2 & Hl2 & Hr2).
    set (finals := map (final_call E (load_prompt E prompt_final false false None))
                       (take k records)) in *.
    assert (Forall (fun c => call_tag c = CallFinal) finals) as Hfinals.
    { apply List.Forall_forall. intros c (r & <- & _)%in_map_iff. done. }
    assert (calls (snd (match _process_stage E (Records records) prompt_final false w1 with
                        | (Ok result, w2) =>
                            match rename_all result with
                            | Ok renamed => ret (VList (map VDict renamed))
                            | Raise _ => ret (VStr ERROR_TEXT)
                            end w2
                        | (Raise e, w2) => (Raise e, w2)
                        end))
            = calls w ++ initial_call E report_data :: r1 ++ finals ++ r2) as ->.
    { destruct (_process_stage E (Records records) prompt_final false w1)
        as [[result|e] w2]; simpl in H2.
      - destruct (rename_all result); simpl; by rewrite H2, H1, <- app_assoc.
      - simpl. by rewrite H2, H1, <- app_assoc. }
    exists (initial_call E report_data :: r1 ++ finals ++ r2). split; [done|].
    exists r1, finals, r2. split; [done|]. split; [done|]. split; [done|].
    split; [by apply Forall_app|]. split; [done|].
    intros records' w1' [= <- <-]. by exists k.
  - simpl. exists (initial_call E report_data :: r1). split; [done|].
    exists r1, [], []. rewrite !app_nil_r. split; [done|]. split; [done|].
    split; [simpl; lia|]. split; [done|]. split; [constructor|].
    intros records' w1' [=].
Qed.

(** *** Nothing to report *)

Lemma second_stage_of_nothing (E : env) (w : world) :
  _process_stage E (Records []) prompt_final false w = (Ok [], w).
Proof.
  unfold _process_stage, bind. cbn [_gather_raw_results]. unfold ret, _validate.
  replace (parse_report E (Json.dumps_str_list [])) with (Ok (VList []))
    by (vm_compute; reflexivity).
  reflexivity.
Qed.

(** X11. When the first stage finds no record, [build] returns the empty list:
    the second stage calls no backend, and the state is the one the first
    stage left. *)
Theorem build_of_empty_first_stage (E : env) (report_data : pystr) (w w1 : world) :
  _process_stage E (RawText report_data) prompt_initial true w = (Ok [], w1) ->
  build E report_data w = (Ok (VList []), w1).
Proof.
  intros H1. unfold build, bind. by rewrite H1, second_stage_of_nothing.
Qed.

Lemma build_of_empty_first_stage_witness :
  exists w1,
    build empty_backend (u "ничего не делали") world0 = (Ok (VList []), w1)
    /\ length (calls w1) = 1%nat.
Proof.
  eexists. split.
  - apply (build_of_empty_first_stage empty_backend (u "ничего не делали") world0).
    vm_compute. reflexivity.
  - reflexivity.
Defined.

(** *** Replies that are not a list of dated records *)








(** *** The renaming loop on complete records *)

Local Ltac distinct_keys := vm_compute; discriminate.

Lemma rename_key_ok (f k : pystr) (item : dict) (v : value) :
  dict_get f item = Some v -> f <> k ->
  exists item',
    rename_key f k item = Ok item'
    /\ dict_get k item' = Some v
    /\ dict_get f item' = None
    /\ forall key, f <> key -> k <> key -> dict_get key item' = dict_get key item.
Proof.
  intros Hf Hfk. unfold rename_key, dict_pop. rewrite Hf.
  eexists. split; [reflexivity|]. split; [apply dict_get_set_eq|]. split.
  - rewrite dict_get_set_ne by congruence. apply dict_get_remove_eq.
  - intros key H1 H2. by rewrite dict_get_set_ne, dict_get_remove_ne.
Qed.

Lemma dict_has_get (k : pystr) (d : dict) :
  dict_has k d = true -> exists v, dict_get k d = Some v.
Proof. unfold dict_has. destruct (dict_get k d) as [v|]; [by exists v | done]. Qed.

Lemma rename_item_ok (item : dict) :
  has_aliases item = true ->
  exists item', rename_item item = Ok item' /\ renamed_from item item'.
Proof.
  unfold has_aliases, alias_keys. cbn [forallb].
  intros (A1%dict_has_get & (A2%dict_has_get & (A3%dict_has_get
          & (A4%dict_has_get & _)%andb_true_iff)%andb_true_iff)%andb_true_iff)%andb_true_iff.
  destruct A1 as [v1 A1], A2 as [v2 A2], A3 as [v3 A3], A4 as [v4 A4].
  unfold rename_item.
  destruct (rename_key_ok f_day_area k_day_area item v1 A1)
    as (i1 & -> & K1 & F1 & G1); [distinct_keys|].
  destruct (rename_key_ok f_total_area k_total_area i1 v2)
    as (i2 & -> & K2 & F2 & G2); [rewrite G1; [done | distinct_keys ..] | distinct_keys|].
  destruct (rename_key_ok f_day_yield k_day_yield i2 v3)
    as (i3 & -> & K3 & F3 & G3);
    [rewrite G2, G1; [done | distinct_keys ..] | distinct_keys|].
  destruct (rename_key_ok f_total_yield k_total_yield i3 v4)
    as (i4 & -> & K4 & F4 & G4);
    [rewrite G3, G2, G1; [done | distinct_keys ..] | distinct_keys|].
  exists i4. split; [done|]. unfold renamed_from. repeat split.
  - rewrite G4, G3, G2, K1, A1; [done | distinct_keys ..].
  - rewrite G4, G3, K2, A2; [done | distinct_keys ..].
  - rewrite G4, K3, A3; [done | distinct_keys ..].
  - by rewrite K4, A4.
  - unfold alias_keys. intros f [<-|[<-|[<-|[<-|[]]]]].
    + rewrite G4, G3, G2, F1; [done | distinct_keys ..].
    + rewrite G4, G3, F2; [done | distinct_keys ..].
    + rewrite G4, F3; [done | distinct_keys ..].
    + exact F4.
  - unfold alias_keys, display_keys. intros key Ha Hd.
    rewrite G4, G3, G2, G1; [done | intros <-; cbn [In] in *; tauto ..].
Qed.

Lemma rename_all_ok (items : list dict) :
  forallb has_aliases items = true ->
  exists renamed, rename_all items = Ok renamed /\ Forall2 renamed_from items renamed.
Proof.
  induction items as [|item rest IH]; cbn [forallb rename_all].
  - exists []. by split.
  - intros [Hi Hr]%andb_true_iff.
    destruct (rename_item_ok item Hi) as (item' & -> & Hren).
    destruct (IH Hr) as (rest' & -> & Hrest).
    exists (item' :: rest'). split; [done | by constructor].
Qed.

(** X14. When both stages have succeeded and every record of the second stage
    has the four alias keys, [build] returns the records, one for one and
    in order: each number is filed under its display name, no alias key is
    left, and every other field is as the second stage returned it. *)
Theorem build_renames_complete_records (E : env) (report_data : pystr)
    (w w1 w2 : world) (r1 result : list dict) :
  _process_stage E (RawText report_data) prompt_initial true w = (Ok r1, w1) ->
  _process_stage E (Records r1) prompt_final false w1 = (Ok result, w2) ->
  forallb has_aliases result = true ->
  exists renamed,
    build E report_data w = (Ok (VList (map VDict renamed)), w2)
    /\ Forall2 renamed_from result renamed.
Proof.
  intros H1 H2 Ha. destruct (rename_all_ok result Ha) as (renamed & Hren & Hall).
  exists renamed. split; [|done]. unfold build, bind. by rewrite H1, H2, Hren.
Qed.

Lemma build_renames_complete_records_witness :
  exists w2 renamed,
    build complete_backend (u "посеяли 5 га") world0 = (Ok (VList (map VDict renamed)), w2).
Proof.
  destruct (build_renames_complete_records complete_backend (u "посеяли 5 га")
              world0
              (snd (_process_stage complete_backend (RawText (u "посеяли 5 га"))
                      prompt_initial true world0))
              (snd (build complete_backend (u "посеяли 5 га") world0))
              [[(k_date, VStr (u "01.05.2024")); (k_operation, VStr (u "Сев"));
                (k_data, VStr (u "посеяли 5 га"))]]
              [[(k_date, VStr (u "01.05.2024")); (k_operation, VStr (u "Сев"));
                (k_data, VStr (u "посеяли 5 га")); (f_day_area, VInt 5);
                (f_total_area, VInt 15); (f_day_yield, VInt 0); (f_total_yield, VInt 0)]])
    as (renamed & Hb & _).
  - vm_compute. reflexivity.
  - vm_compute. reflexivity.
  - vm_compute. reflexivity.
  - eexists _, renamed. exact Hb.
Defined.

End ReportBuilderMore.

(** ** More on the correction dialogue *)

Module CorrectionMore.

Import Correction Rules Shapes Examples MoreExamples.

Local Ltac distinct_keys := vm_compute; discriminate.

(** *** The queue *)

Lemma py_eq_str_sentinel (v : value) : py_eq_str v sentinel = true <-> v = VStr sentinel.
Proof.
  destruct v; simpl; try (split; [done | discriminate]).
  rewrite str_eqb_eq. split; [by intros -> | by intros [= ->]].
Qed.

(** X15. The queue of corrections holds a pair of a record and a key exactly
    when that field of that record holds the sentinel, and it runs through
    the records in their order. *)
Theorem queue_holds_the_sentinel_fields (report : list dict) :
  (forall idx key,
      In (idx, key) (corrections_queue 0 report)
      <-> exists e, report !! idx = Some e /\ In (key, VStr sentinel) e)
  /\ (forall a b pa pb,
         (a <= b)%nat ->
         corrections_queue 0 report !! a = Some pa ->
         corrections_queue 0 report !! b = Some pb ->
         (fst pa <= fst pb)%nat).
Proof.
  split.
  - intros idx key. rewrite CorrectionFacts.corrections_queue_In. simpl.
    rewrite Nat.sub_0_r. split.
    + intros (_ & e & v & He & Hin & Hv%py_eq_str_sentinel). subst v. by exists e.
    + intros (e & He & Hin). split; [lia|]. exists e, (VStr sentinel).
      split; [done|]. split; [done|]. by apply py_eq_str_sentinel.
  - intros a b pa pb. apply CorrectionFacts.corrections_queue_sorted.
Qed.

Lemma scan_entry_nil (n : nat) (e : dict) :
  scan_entry n e = [] <-> has_sentinel e = false.
Proof.
  unfold scan_entry, has_sentinel. induction e as [|[k v] e IH]; simpl; [done|].
  destruct (py_eq_str v sentinel); simpl; [done | exact IH].
Qed.

Lemma corrections_queue_nil (n : nat) (report : list dict) :
  corrections_queue n report = [] <-> existsb has_sentinel report = false.
Proof.
  revert n. induction report as [|e rest IH]; intros n; simpl; [done|].
  rewrite orb_false_iff, <- (IH (S n)), <- (scan_entry_nil n e).
  split.
  - by intros [? ?]%app_eq_nil.
  - by intros [-> ->].
Qed.

(** X16. When the reply of the worker is a list of records, a correction
    session is opened exactly when some field of some record holds the
    sentinel, with a question about the first such field; otherwise the
    final step runs at once, the report is offered (or the exception of
    the final step is raised) and the dialogue state is not touched. *)
Theorem session_opens_iff_sentinel (ud : user_data) (report : list dict) :
  (existsb has_sentinel report = true ->
   exists first rest,
     corrections_queue 0 report = first :: rest
     /\ receive_report ud (VList (map VDict report))
        = (open_session ud report (first :: rest), ask report first))
  /\ (existsb has_sentinel report = false ->
      receive_report ud (VList (map VDict report)) = (ud, final_offer report)).
Proof.
  unfold receive_report, final_offer. rewrite CorrectionFacts.as_records_dicts. split.
  - intros H. destruct (corrections_queue 0 report) as [|first rest] eqn:Hq.
    + apply corrections_queue_nil in Hq. congruence.
    + by exists first, rest.
  - intros H. apply (corrections_queue_nil 0) in H. rewrite H.
    by destruct (finalize report) as [es' [x|]].
Qed.

(** *** The final step *)

Lemma finalize_entry_other (b : bool) (e : dict) (key : pystr) :
  key <> k_data -> key <> k_day_yield -> key <> k_total_yield ->
  dict_get key (fst (finalize_entry b e)) = dict_get key e.
Proof.
  intros H1 H2 H3. unfold finalize_entry. cbv zeta. destruct b; simpl.
  - destruct (dict_get k_total_yield (dict_remove k_data e)) as [v|]; simpl;
      [|by rewrite dict_get_remove_ne].
    destruct (div100 v) as [q|x]; simpl; [|by rewrite dict_get_remove_ne].
    destruct (dict_get k_day_yield _) as [v2|]; simpl;
      [|by rewrite dict_get_set_ne, dict_get_remove_ne].
    destruct (div100 v2) as [q2|x]; simpl;
      by rewrite ?dict_get_set_ne, dict_get_remove_ne.
  - by rewrite !dict_get_remove_ne.
Qed.

Lemma finalize_entry_no_data (b : bool) (e e' : dict) :
  finalize_entry b e = (e', None) -> dict_get k_data e' = None.
Proof.
  unfold finalize_entry. cbv zeta. destruct b; simpl.
  - destruct (dict_get k_total_yield (dict_remove k_data e)) as [v|]; [|done].
    destruct (div100 v) as [q|x]; [|done].
    destruct (dict_get k_day_yield _) as [v2|]; [|done].
    destruct (div100 v2) as [q2|x]; [|done]. intros [= <-].
    rewrite !dict_get_set_ne by distinct_keys. apply dict_get_remove_eq.
  - intros [= <-]. apply dict_get_remove_none, dict_get_remove_none, dict_get_remove_eq.
Qed.

Lemma finalize_loop_length (b : bool) (es : list dict) :
  length (fst (finalize_loop b es)) = length es.
Proof.
  induction es as [|e rest IH]; simpl; [done|].
  destruct (finalize_entry b e) as [e' [x|]]; simpl; [done|].
  destruct (finalize_loop b rest) as [rest' x]. simpl in *. by rewrite IH.
Qed.

Lemma finalize_loop_other (b : bool) (es : list dict) (i : nat) (e e' : dict)
    (key : pystr) :
  es !! i = Some e -> fst (finalize_loop b es) !! i = Some e' ->
  key <> k_data -> key <> k_day_yield -> key <> k_total_yield ->
  dict_get key e' = dict_get key e.
Proof.
  intros He He' H1 H2 H3. revert i He He'.
  induction es as [|e0 rest IH]; intros i He He'; [by rewrite lookup_nil in He|].
  simpl in He'. pose proof (finalize_entry_other b e0 key H1 H2 H3) as H0.
  destruct (finalize_entry b e0) as [e0' [x|]]; simpl in *.
  - destruct i as [|i]; simpl in *; [|congruence].
    injection He as <-. injection He' as <-. done.
  - destruct (finalize_loop b rest) as [rest' x] eqn:Hrest. simpl in *.
    destruct i as [|i]; simpl in *.
    + injection He as <-. injection He' as <-. done.
    + by eapply IH.
Qed.

Lemma finalize_loop_no_data (b : bool) (es out : list dict) :
  finalize_loop b es = (out, None) -> Forall (fun e' => dict_get k_data e' = None) out.
Proof.
  revert out. induction es as [|e rest IH]; intros out; simpl.
  - intros [= <-]. constructor.
  - destruct (finalize_entry b e) as [e' [x|]] eqn:He; [done|].
    destruct (finalize_loop b rest) as [rest' x]. intros [= <- ->].
    constructor; [by eapply finalize_entry_no_data | by apply IH].
Qed.

(** X17. The final step returns as many records as it was given, and a field
    other than the source text and the two yields is never touched,
    whether the step completes or raises; when it completes, no record is
    left with its source text. *)
Theorem finalize_touches_three_fields (es : list dict) :
  length (fst (finalize es)) = length es
  /\ (forall i e e' key,
         es !! i = Some e -> fst (finalize es) !! i = Some e' ->
         key <> k_data -> key <> k_day_yield -> key <> k_total_yield ->
         dict_get key e' = dict_get key e)
  /\ (snd (finalize es) = None ->
      Forall (fun e' => dict_get k_data e' = None) (fst (finalize es))).
Proof.
  unfold finalize. destruct (needs_val_scan es) as [b|x]; simpl.
  - split; [apply finalize_loop_length|]. split.
    + intros i e e' key. apply finalize_loop_other.
    + intros H. apply (finalize_loop_no_data b es).
      destruct (finalize_loop b es) as [out x]. simpl in H. by subst x.
  - split; [done|]. split; [|done]. intros i e e' key He He'. congruence.
Qed.

Lemma finalize_entry_divided (e e' : dict) :
  finalize_entry true e = (e', None) -> divided e e'.
Proof.
  unfold finalize_entry. cbv zeta. simpl.
  rewrite (dict_get_remove_ne k_data k_total_yield) by distinct_keys.
  destruct (dict_get k_total_yield e) as [t|] eqn:Ht; [|done].
  destruct (div100 t) as [qt|x] eqn:Hqt; [|done].
  rewrite dict_get_set_ne by distinct_keys.
  rewrite (dict_get_remove_ne k_data k_day_yield) by distinct_keys.
  destruct (dict_get k_day_yield e) as [d|] eqn:Hd; [|done].
  destruct (div100 d) as [qd|x] eqn:Hqd; [|done]. intros [= <-].
  exists t, d, qt, qd. repeat split; try done.
  - rewrite dict_get_set_ne by distinct_keys. apply dict_get_set_eq.
  - apply dict_get_set_eq.
Qed.

Lemma finalize_loop_divided (es out : list dict) :
  finalize_loop true es = (out, None) -> Forall2 divided es out.
Proof.
  revert out. induction es as [|e rest IH]; intros out; simpl.
  - intros [= <-]. constructor.
  - destruct (finalize_entry true e) as [e' [x|]] eqn:He; [done|].
    destruct (finalize_loop true rest) as [rest' x]. intros [= <- ->].
    constructor; [by apply finalize_entry_divided | by apply IH].
Qed.

(** X18. When some record of the batch is a harvest and the final step
    completes, every record of the batch, harvest or not, had both yields
    as numbers and comes out with each of them divided by 100. *)
Theorem harvest_batch_yields_divided (es out : list dict) :
  needs_val_scan es = Ok true ->
  finalize es = (out, None) ->
  Forall2 divided es out.
Proof.
  unfold finalize. intros ->. apply finalize_loop_divided.
Qed.

Lemma harvest_batch_yields_divided_witness :
  Forall2 divided [reaping; sowing] (fst (finalize [reaping; sowing])).
Proof.
  apply (harvest_batch_yields_divided [reaping; sowing]).
  - vm_compute. reflexivity.
  - vm_compute. reflexivity.
Defined.

(** *** A yield typed by the operator *)

Lemma finalize_entry_text_yield (e : dict) (key s : pystr) :
  key = k_day_yield \/ key = k_total_yield ->
  dict_get key e = Some (VStr s) ->
  exists x, snd (finalize_entry true e) = Some x.
Proof.
  intros Hkey Hget. unfold finalize_entry. cbv zeta. simpl.
  rewrite (dict_get_remove_ne k_data k_total_yield) by distinct_keys.
  destruct (dict_get k_total_yield e) as [t|] eqn:Ht; [|by eexists].
  destruct (div100 t) as [qt|x] eqn:Hqt; [|by eexists].
  rewrite dict_get_set_ne by distinct_keys.
  rewrite (dict_get_remove_ne k_data k_day_yield) by distinct_keys.
  destruct Hkey as [-> | ->].
  - rewrite Hget. simpl. by eexists.
  - rewrite Hget in Ht. injection Ht as <-. done.
Qed.

Lemma finalize_loop_text_yield (es : list dict) (i : nat) (e : dict) (key s : pystr) :
  key = k_day_yield \/ key = k_total_yield ->
  es !! i = Some e -> dict_get key e = Some (VStr s) ->
  exists x, snd (finalize_loop true es) = Some x.
Proof.
  intros Hkey. revert i. induction es as [|e0 rest IH]; intros i He Hget;
    [by rewrite lookup_nil in He|]. simpl.
  destruct (finalize_entry true e0) as [e0' [x|]] eqn:H0; [by eexists|].
  destruct i as [|i]; simpl in He.
  - injection He as ->.
    destruct (finalize_entry_text_yield e key s Hkey Hget) as [x Hx].
    rewrite H0 in Hx. done.
  - destruct (IH i He Hget) as [x Hx].
    destruct (finalize_loop true rest) as [rest' x']. simpl in *. by exists x.
Qed.

Lemma finalize_text_yield (es : list dict) (i : nat) (e : dict) (key s : pystr) :
  key = k_day_yield \/ key = k_total_yield ->
  es !! i = Some e -> dict_get key e = Some (VStr s) ->
  (exists x, snd (finalize es) = Some x) \/ Forall no_yields (fst (finalize es)).
Proof.
  intros Hkey He Hget. unfold finalize.
  destruct (needs_val_scan es) as [[|]|x]; simpl.
  - left. by eapply finalize_loop_text_yield.
  - right. destruct (CorrectionFacts.finalize_loop_drops es) as (out & -> & _ & Hall).
    done.
  - left. by eexists.
Qed.

(** X19. A yield the operator types in never reaches the offered report.  When
    the queue holds a yield field and every question has been answered,
    the session is closed on the result of the final step, and that step
    either raises, so that nothing is offered, or returns records without
    any yield field. *)
Theorem answered_yield_never_reported (ud0 : user_data) (report : list dict)
    (msgs : list (option pystr)) (idx : nat) (key : pystr) :
  Forall (fun e => List.NoDup (keys e)) report ->
  In (idx, key) (corrections_queue 0 report) ->
  key = k_day_yield \/ key = k_total_yield ->
  length (answer_inputs msgs) = length (corrections_queue 0 report) ->
  let q := corrections_queue 0 report in
  let written := apply_answers q (answer_inputs msgs) report in
  answers (open_session ud0 report q) msgs
  = closed_session q (length q) (corrected_entries ud0) written
  /\ ((exists x, snd (finalize written) = Some x)
      \/ Forall no_yields (fst (finalize written))).
Proof.
  intros Hnd Hin Hkey Hlen q written.
  set (texts := answer_inputs msgs) in *.
  assert (Forall (fun t : pystr => t <> []) texts) as Htexts.
  { unfold texts, answer_inputs. clear. induction msgs as [|[[|c s]|] msgs IH]; simpl;
      [constructor | done | by constructor | done]. }
  assert (forall p, In p q -> (fst p < length report)%nat) as Hrange.
  { intros p Hp. apply CorrectionFacts.corrections_queue_idx in Hp. lia. }
  assert (texts <> []) as Hnil.
  { intros Hnil. rewrite Hnil in Hlen. simpl in Hlen. unfold q in Hin.
    destruct (corrections_queue 0 report); [done | discriminate]. }
  split.
  - rewrite CorrectionFacts.answers_answer_inputs. fold texts.
    change (open_session ud0 report q)
      with (session {| entries := report; queue := q; current_index := 0 |}
                    (corrected_entries ud0)).
    by rewrite CorrectionFacts.answers_close.
  - apply list_elem_of_In, list_elem_of_lookup in Hin as [j Hj]. fold q in Hj.
    destruct (lookup_lt_is_Some_2 texts j) as [t Ht].
    { rewrite Hlen. by eapply lookup_lt_Some. }
    assert (field_at written (idx, key) = Some (VStr (Clean.strip t))) as Hf.
    { eapply CorrectionFacts.apply_answers_spec; [|exact Hrange|exact Hj|exact Ht].
      by apply CorrectionFacts.corrections_queue_NoDup. }
    unfold field_at in Hf. simpl in Hf.
    destruct (written !! idx) as [e|] eqn:He; [|done].
    by eapply finalize_text_yield.
Qed.

Lemma answered_yield_never_reported_witness :
  corrections_queue 0 unread_yield = [(0%nat, k_day_yield)]
  /\ exists x,
       snd (finalize (apply_answers (corrections_queue 0 unread_yield)
                                    [u "500"] unread_yield)) = Some x.
Proof.
  split; [reflexivity|].
  destruct (answered_yield_never_reported idle unread_yield [Some (u "500")]
              0%nat k_day_yield) as [_ [H|H]].
  - repeat constructor; vm_compute; intuition discriminate.
  - left. reflexivity.
  - by left.
  - reflexivity.
  - exact H.
  - exists TypeError. vm_compute. reflexivity.
Defined.

End CorrectionMore.

(** ** More on the transport *)

Module RpcMore.

Import Rpc Samples Examples MoreExamples.

(** X20. Whatever the job and whatever becomes of the pipeline, the worker
    acknowledges the delivery exactly once and publishes at most one
    message: a reply sent to the queue the job names, which is not empty,
    under the correlation identifier of the job. *)
Theorem handle_message_acks_once (E : env) (dumps : value -> result pystr) (m : message)
    (w : world) :
  acks (fst (handle_message E dumps m w)) = 1%nat
  /\ (publishes (fst (handle_message E dumps m w)) = []
      \/ exists c q text,
           reply_to m = Some (c :: q)
           /\ publishes (fst (handle_message E dumps m w))
              = [(c :: q, {| body := text; reply_to := None;
                             correlation_id := correlation_id m |})]).
Proof.
  unfold handle_message.
  destruct (ReportBuilder.build E (body m) w) as [[result|e] w']; [|by split; [|left]].
  destruct (reply_to m) as [[|c q]|]; try (by split; [|left]).
  destruct (dumps result) as [text|e]; [|by split; [|left]].
  split; [done|]. right. by exists c, q, text.
Qed.

(** *** A job that succeeds *)

(** X21. When the pipeline returns a result for the job of a caller who waits
    on a named queue, and the result can be written as JSON, the worker
    and the broker bring the system to a state where the caller's future
    holds the decoded reply, the job is gone and acknowledged, and
    nothing is left on its way. *)
Theorem answered_job_resolves_future (E : env) (dumps : value -> result pystr)
    (g : gateway) (query_text text : pystr) (w w' : world) (result v : value) :
  future g = None ->
  callback_queue g <> [] ->
  ReportBuilder.build E query_text w = (Ok result, w') ->
  dumps result = Ok text ->
  Json.loads text = Ok v ->
  reachable E dumps
    {| query_queue := [request g query_text]; worker_world := w; routed := [];
       gw := g; acked := 0 |}
    {| query_queue := []; worker_world := w'; routed := [];
       gw := {| callback_queue := callback_queue g; corr_id := corr_id g;
                future := Some v |};
       acked := 1 |}.
Proof.
  intros Hfut Hq Hbuild Hdumps Hloads.
  set (reply := {| body := text; reply_to := None; correlation_id := Some (corr_id g) |}).
  assert (handle_message E dumps (request g query_text) w
          = ([Publish (callback_queue g) reply; Ack], w')) as Hh.
  { unfold handle_message. simpl. rewrite Hbuild.
    destruct (callback_queue g) as [|c q]; [done|]. by rewrite Hdumps. }
  eapply reach_step; [eapply reach_step; [apply reach_here|]|].
  - apply step_worker.
  - rewrite Hh. simpl.
    pose proof (step_deliver E dumps [] w' [] (callback_queue g) reply [] g 1) as Hstep.
    simpl in Hstep. rewrite str_eqb_refl in Hstep.
    unfold on_response in Hstep. simpl in Hstep.
    rewrite str_eqb_refl, Hloads, Hfut in Hstep. exact Hstep.
Qed.

Lemma answered_job_resolves_future_witness :
  exists w',
    reachable empty_backend dumps_empty
      {| query_queue := [request caller (u "ничего не делали")]; worker_world := world0;
         routed := []; gw := caller; acked := 0 |}
      {| query_queue := []; worker_world := w'; routed := [];
         gw := {| callback_queue := callback_queue caller; corr_id := corr_id caller;
                  future := Some (VList []) |};
         acked := 1 |}.
Proof.
  eexists.
  eapply (answered_job_resolves_future empty_backend dumps_empty caller
            (u "ничего не делали") (u "[]") world0 _ (VList []) (VList [])).
  - reflexivity.
  - vm_compute. discriminate.
  - vm_compute. reflexivity.
  - reflexivity.
  - vm_compute. reflexivity.
Defined.

(** *** A future that is resolved *)

Lemma on_response_resolved (g : gateway) (m : message) (v : value) :
  future g = Some v -> on_response g m = g.
Proof.
  intros H. unfold on_response. destruct (correlation_id m) as [c|]; [|done].
  destruct (str_eqb c (corr_id g)); [|done].
  destruct (Json.loads (body m)); by rewrite ?H.
Qed.

Lemma on_response_identity (g : gateway) (m : message) :
  callback_queue (on_response g m) = callback_queue g
  /\ corr_id (on_response g m) = corr_id g.
Proof.
  unfold on_response. destruct (correlation_id m) as [c|]; [|done].
  destruct (str_eqb c (corr_id g)); [|done].
  by destruct (Json.loads (body m)), (future g).
Qed.

(** X22. Once the caller's future holds a value, no step of the worker or of
    the broker changes the caller: later replies, whatever their
    correlation identifier, leave the first result in place. *)
Theorem resolved_future_is_stable (E : env) (dumps : value -> result pystr)
    (s0 s : system) (v : value) :
  future (gw s0) = Some v ->
  reachable E dumps s0 s ->
  gw s = gw s0.
Proof.
  intros Hfut Hreach. induction Hreach as [|s s' _ IH Hstep]; [done|].
  rewrite <- IH. inversion Hstep; subst; simpl in *; try done.
  destruct (str_eqb k (callback_queue g)); [|done].
  apply (on_response_resolved g m v). by rewrite IH.
Qed.

Lemma resolved_future_is_stable_witness :
  gw {| query_queue := []; worker_world := world0; routed := [];
        gw := {| callback_queue := u "amq.gen-1"; corr_id := u "c-1";
                 future := Some (VList []) |};
        acked := 0 |}
  = {| callback_queue := u "amq.gen-1"; corr_id := u "c-1"; future := Some (VList []) |}.
Proof.
  set (g := {| callback_queue := u "amq.gen-1"; corr_id := u "c-1";
               future := Some (VList []) |}).
  set (m := {| body := u "[1]"; reply_to := None; correlation_id := Some (u "c-1") |}).
  set (s0 := {| query_queue := []; worker_world := world0;
                routed := [(u "amq.gen-1", m)]; gw := g; acked := 0 |}).
  apply (resolved_future_is_stable empty_backend dumps_empty s0
           {| query_queue := []; worker_world := world0; routed := []; gw := g;
              acked := 0 |} (VList [])).
  - reflexivity.
  - eapply reach_step; [apply reach_here|].
    pose proof (step_deliver empty_backend dumps_empty [] world0 [] (u "amq.gen-1") m []
                  g 0) as Hstep.
    exact Hstep.
Defined.

End RpcMore.

(** ** More on the corners *)

Module GeometryMore.

Import Geometry Rules Examples.

Local Open Scope Z_scope.

(** X23. The four corners of an upright rectangle, in whatever order they are
    given, come out as top-left, top-right, bottom-right, bottom-left.
    This covers the array the caller builds from a bounding box. *)
Theorem order_points_upright_rectangle (bits : Z) (pts : list point) (x0 y0 x1 y1 : Z) :
  32 <= bits ->
  0 <= x0 < x1 -> x1 < 2 ^ 24 ->
  0 <= y0 < y1 -> y1 < 2 ^ 24 ->
  Permutation pts [(x0, y0); (x1, y0); (x1, y1); (x0, y1)] ->
  order_points bits pts = Some [(x0, y0); (x1, y0); (x1, y1); (x0, y1)].
Proof.
  intros Hb Hx Hx1 Hy Hy1 Hperm.
  assert (Forall pixel pts) as Hpix.
  { eapply Permutation_Forall; [symmetry; exact Hperm|].
    repeat constructor; simpl; lia. }
  assert (pts <> []) as Hne.
  { intros ->. by apply Permutation_nil_l in Hperm. }
  assert (forall p, In p pts <->
                    p = (x0, y0) \/ p = (x1, y0) \/ p = (x1, y1) \/ p = (x0, y1)) as Hin.
  { intros p. split.
    - intros H. eapply Permutation_in in H; [|exact Hperm].
      simpl in H. intuition.
    - intros H. eapply Permutation_in; [symmetry; exact Hperm|].
      simpl. intuition. }
  destruct (GeometryFacts.order_points_rule bits pts Hb Hne Hpix)
    as (rect & -> & tl & tr & br & bl & -> & [Htl Mtl] & [Hbr Mbr] & [Htr Mtr] & [Hbl Mbl]).
  pose proof (proj2 (Hin (x0, y0)) ltac:(tauto)) as I00.
  pose proof (proj2 (Hin (x1, y0)) ltac:(tauto)) as I10.
  pose proof (proj2 (Hin (x1, y1)) ltac:(tauto)) as I11.
  pose proof (proj2 (Hin (x0, y1)) ltac:(tauto)) as I01.
  apply Hin in Htl, Htr, Hbr, Hbl.
  specialize (Mtl _ I00). specialize (Mbr _ I11).
  specialize (Mtr _ I10). specialize (Mbl _ I01).
  assert (tl = (x0, y0)) as -> by (destruct Htl as [-> | [-> | [-> | ->]]]; simpl in *; (done || lia)).
  assert (tr = (x1, y0)) as -> by (destruct Htr as [-> | [-> | [-> | ->]]]; simpl in *; (done || lia)).
  assert (br = (x1, y1)) as -> by (destruct Hbr as [-> | [-> | [-> | ->]]]; simpl in *; (done || lia)).
  assert (bl = (x0, y1)) as -> by (destruct Hbl as [-> | [-> | [-> | ->]]]; simpl in *; (done || lia)).
  done.
Qed.

Lemma order_points_upright_rectangle_witness :
  order_points 64 [(40, 30); (0, 0); (0, 30); (40, 0)]
  = Some [(0, 0); (40, 0); (40, 30); (0, 30)].
Proof.
  apply (order_points_upright_rectangle 64 _ 0 0 40 30); try lia.
  apply (bool_decide_unpack _). vm_compute. exact I.
Defined.

End GeometryMore.

(** ** Records on their way to the table *)

Module DbFacts.

Import Samples Examples MoreExamples.

Local Ltac distinct_keys := vm_compute; discriminate.

(** *** Dictionaries *)

Lemma get_set_eq {A} (k : pystr) (v : A) (d : list (pystr * A)) :
  Db.get k (Db.set k v d) = Some v.
Proof.
  induction d as [|[k' v'] d IH]; simpl.
  - by rewrite str_eqb_refl.
  - destruct (str_eqb k' k) eqn:Hk; simpl; [by rewrite str_eqb_refl | by rewrite Hk].
Qed.

Lemma get_set_ne {A} (k k' : pystr) (v : A) (d : list (pystr * A)) :
  k <> k' -> Db.get k' (Db.set k v d) = Db.get k' d.
Proof.
  intros Hne. induction d as [|[k0 v0] d IH]; simpl.
  - by apply str_eqb_neq in Hne as ->.
  - destruct (str_eqb k0 k) eqn:Hk; simpl.
    + apply str_eqb_eq in Hk as ->. by apply str_eqb_neq in Hne as ->.
    + by rewrite IH.
Qed.

Lemma get_not_key {A} (k : pystr) (d : list (pystr * A)) :
  ~ In k (map fst d) -> Db.get k d = None.
Proof.
  induction d as [|[k' v'] d IH]; simpl; [done|]. intros H.
  destruct (str_eqb k' k) eqn:Hk.
  - apply str_eqb_eq in Hk. tauto.
  - apply IH. tauto.
Qed.

Lemma set_keys {A} (k : pystr) (v : A) (d : list (pystr * A)) (x : pystr) :
  In x (map fst (Db.set k v d)) <-> x = k \/ In x (map fst d).
Proof.
  induction d as [|[k' v'] d IH]; simpl; [intuition|].
  destruct (str_eqb k' k) eqn:Hk; simpl.
  - apply str_eqb_eq in Hk as ->. intuition.
  - rewrite IH. intuition.
Qed.

Lemma set_NoDup {A} (k : pystr) (v : A) (d : list (pystr * A)) :
  List.NoDup (map fst d) -> List.NoDup (map fst (Db.set k v d)).
Proof.
  induction d as [|[k' v'] d IH]; simpl.
  - intros _. constructor; [by intros [] | constructor].
  - intros Hnd. inversion Hnd as [|? ? Hk' Hnd']; subst.
    destruct (str_eqb k' k) eqn:Hk; simpl.
    + apply str_eqb_eq in Hk as ->. by constructor.
    + constructor; [|by apply IH]. rewrite set_keys. intros [->|Hin]; [|done].
      by rewrite str_eqb_refl in Hk.
Qed.

(** *** The mapping *)

Lemma get_In {A} (k : pystr) (d : list (pystr * A)) (v : A) :
  Db.get k d = Some v -> In (k, v) d.
Proof.
  induction d as [|[k' v'] d IH]; simpl; [done|].
  destruct (str_eqb k' k) eqn:Hk.
  - apply str_eqb_eq in Hk. intros [= ->]. left. by subst.
  - intros H. right. by apply IH.
Qed.

Lemma mapping_columns (key col : pystr) :
  Db.get key Db.mapping = Some col -> In col Db.column_names /\ col <> Db.c_id /\ col <> [].
Proof.
  intros H%get_In.
  assert (Forall (fun kc => In (snd kc) Db.column_names /\ snd kc <> Db.c_id
                            /\ snd kc <> []) Db.mapping) as Hall.
  { unfold Db.mapping, Db.column_names.
    repeat (apply Forall_cons;
            [split; [cbn [In snd]; auto 12 | split; distinct_keys]|]).
    apply Forall_nil. }
  rewrite List.Forall_forall in Hall. exact (Hall (key, col) H).
Qed.

Lemma mapping_injective (key key' col : pystr) :
  Db.get key Db.mapping = Some col -> Db.get key' Db.mapping = Some col -> key' = key.
Proof.
  intros H%get_In H'%get_In.
  assert (List.NoDup (map snd Db.mapping)) as Hnd.
  { apply NoDup_ListNoDup, (bool_decide_unpack (NoDup (map snd Db.mapping))).
    vm_compute. exact I. }
  revert H H' Hnd. generalize Db.mapping as l.
  induction l as [|[k c] l IH]; simpl; [done|]. intros H H' Hnd.
  inversion Hnd as [|? ? Hc Hnd']; subst.
  destruct H as [Heq|H], H' as [Heq'|H'].
  - congruence.
  - exfalso. apply Hc. injection Heq as -> ->. by apply (in_map snd _ (key', col)).
  - exfalso. apply Hc. injection Heq' as -> ->. by apply (in_map snd _ (key, col)).
  - by apply IH.
Qed.

Lemma fold_keys (record mapped : Db.row) (x : pystr) :
  In x (map fst (fold_left Db.file_under record mapped)) ->
  In x (map fst mapped) \/ (In x Db.column_names /\ x <> Db.c_id).
Proof.
  revert mapped. induction record as [|[k v] rest IH]; intros mapped; cbn [fold_left];
    [tauto|].
  intros [H|H]%IH; [|tauto]. unfold Db.file_under in H. cbn [fst snd] in H.
  destruct (Db.get k Db.mapping) as [[|c col]|] eqn:Hk; try tauto.
  apply set_keys in H as [->|H]; [|tauto].
  right. apply mapping_columns in Hk. tauto.
Qed.

Lemma fold_NoDup (record mapped : Db.row) :
  List.NoDup (map fst mapped) ->
  List.NoDup (map fst (fold_left Db.file_under record mapped)).
Proof.
  revert mapped. induction record as [|[k v] rest IH]; intros mapped Hnd;
    cbn [fold_left]; [done|].
  apply IH. unfold Db.file_under. cbn [fst snd].
  destruct (Db.get k Db.mapping) as [[|c col]|]; try done. by apply set_NoDup.
Qed.

Lemma fold_get (record mapped : Db.row) (key col : pystr) :
  Db.get key Db.mapping = Some col ->
  List.NoDup (map fst record) ->
  Db.get col (fold_left Db.file_under record mapped)
  = match Db.get key record with Some v => Some v | None => Db.get col mapped end.
Proof.
  intros Hkey. revert mapped.
  induction record as [|[k v] rest IH]; intros mapped Hnd; cbn [fold_left]; [done|].
  inversion Hnd as [|? ? Hk Hnd']; subst. rewrite IH by done.
  cbn [Db.get]. destruct (str_eqb k key) eqn:Hkk.
  - apply str_eqb_eq in Hkk as ->. rewrite get_not_key by done.
    unfold Db.file_under. cbn [fst snd]. rewrite Hkey.
    destruct (mapping_columns key col Hkey) as (_ & _ & Hne).
    destruct col as [|c col]; [done|]. apply get_set_eq.
  - destruct (Db.get key rest); [done|].
    unfold Db.file_under. cbn [fst snd].
    destruct (Db.get k Db.mapping) as [[|c col']|] eqn:Hk'; try done.
    apply get_set_ne. intros <-.
    apply str_eqb_neq in Hkk. apply Hkk. by eapply mapping_injective.
Qed.

Lemma fold_get_id (record : Db.row) : Db.get Db.c_id (Db.mapped_fields record) = None.
Proof.
  apply get_not_key. intros [H|[_ H]]%fold_keys; done.
Qed.

(** *** The constructor *)

Lemma set_attr_ok (o : Db.OperationInfo) (k : pystr) (v : Db.cell) :
  In k Db.column_names ->
  exists o', Db.set_attr o k v = Ok o'
             /\ Db.attr k o' = Some v
             /\ forall c, c <> k -> Db.attr c o' = Db.attr c o.
Proof.
  unfold Db.column_names. cbn [In].
  intros [<-|[<-|[<-|[<-|[<-|[<-|[<-|[<-|[<-|[]]]]]]]]]];
    (eexists; split; [vm_compute; reflexivity|]; split; [vm_compute; reflexivity|];
     intros c Hc; apply str_eqb_neq in Hc; unfold Db.attr; cbn [Db.id Db.date Db.unit
       Db.operation Db.cultura Db.GA_per_day Db.GA_per_operation Db.val_per_day
       Db.val_per_operation]; by rewrite ?Hc).
Qed.

Lemma construct_ok (fields : Db.row) (o : Db.OperationInfo) :
  List.NoDup (map fst fields) ->
  (forall k, In k (map fst fields) -> In k Db.column_names) ->
  exists o', Db.construct o fields = Ok o'
             /\ forall c, Db.attr c o'
                          = match Db.get c fields with
                            | Some v =>
                                match Db.attr c o with Some _ => Some v | None => None end
                            | None => Db.attr c o
                            end.
Proof.
  revert o. induction fields as [|[k v] rest IH]; intros o Hnd Hcols; simpl.
  - by exists o.
  - inversion Hnd as [|? ? Hk Hnd']; subst.
    destruct (set_attr_ok o k v) as (o1 & -> & Hset & Hother);
      [apply Hcols; by left|].
    destruct (IH o1 Hnd') as (o' & -> & Hattr);
      [intros k' Hk'; apply Hcols; by right|].
    exists o'. split; [done|]. intros c. rewrite Hattr.
    destruct (str_eqb k c) eqn:Hkc.
    + apply str_eqb_eq in Hkc as <-. rewrite get_not_key by done. rewrite Hset.
      destruct (set_attr_ok o k v) as (o2 & _ & _ & _); [apply Hcols; by left|].
      assert (exists x, Db.attr k o = Some x) as [x ->]; [|done].
      assert (In k Db.column_names) as Hin by (apply Hcols; by left).
      unfold Db.column_names in Hin. cbn [In] in Hin.
      destruct Hin as [<-|[<-|[<-|[<-|[<-|[<-|[<-|[<-|[<-|[]]]]]]]]]];
        eexists; vm_compute; reflexivity.
    + apply str_eqb_neq in Hkc. rewrite Hother by congruence. done.
Qed.

Lemma construct_mapped (record : Db.row) :
  List.NoDup (map fst record) ->
  exists o, Db.construct Db.blank (Db.mapped_fields record) = Ok o
            /\ Db.to_dict o = Db.shown record.
Proof.
  intros Hnd.
  destruct (construct_ok (Db.mapped_fields record) Db.blank) as (o & Ho & Hattr).
  { apply (fold_NoDup record []). constructor. }
  { intros k [[]|[H _]]%fold_keys. exact H. }
  exists o. split; [done|].
  assert (forall key col,
             Db.get key Db.mapping = Some col ->
             Db.attr col o = Some (match Db.get key record with
                                   | Some v => v | None => Db.none end)) as Hcol.
  { intros key col Hkey. rewrite Hattr.
    unfold Db.mapped_fields.
    rewrite (fold_get record [] key col Hkey Hnd). cbn [Db.get].
    destruct (mapping_columns key col Hkey) as (Hin & _ & _).
    assert (Db.attr col Db.blank = Some Db.none) as ->.
    { unfold Db.column_names in Hin. cbn [In] in Hin.
      destruct Hin as [<-|[<-|[<-|[<-|[<-|[<-|[<-|[<-|[<-|[]]]]]]]]]];
        vm_compute; reflexivity. }
    by destruct (Db.get key record). }
  assert (Db.attr Db.c_id o = Some Db.none) as Hid.
  { rewrite Hattr, fold_get_id. vm_compute. reflexivity. }
  pose proof (Hcol k_date Db.c_date eq_refl) as H1.
  pose proof (Hcol k_division Db.c_unit eq_refl) as H2.
  pose proof (Hcol k_operation Db.c_operation eq_refl) as H3.
  pose proof (Hcol k_culture Db.c_cultura eq_refl) as H4.
  pose proof (Hcol k_day_area Db.c_GA_per_day eq_refl) as H5.
  pose proof (Hcol k_total_area Db.c_GA_per_operation eq_refl) as H6.
  pose proof (Hcol k_day_yield Db.c_val_per_day eq_refl) as H7.
  pose proof (Hcol k_total_yield Db.c_val_per_operation eq_refl) as H8.
  clear Hattr Hcol Ho.
  change (Db.attr Db.c_id o) with (Some (Db.id o)) in Hid.
  change (Db.attr Db.c_date o) with (Some (Db.date o)) in H1.
  change (Db.attr Db.c_unit o) with (Some (Db.unit o)) in H2.
  change (Db.attr Db.c_operation o) with (Some (Db.operation o)) in H3.
  change (Db.attr Db.c_cultura o) with (Some (Db.cultura o)) in H4.
  change (Db.attr Db.c_GA_per_day o) with (Some (Db.GA_per_day o)) in H5.
  change (Db.attr Db.c_GA_per_operation o) with (Some (Db.GA_per_operation o)) in H6.
  change (Db.attr Db.c_val_per_day o) with (Some (Db.val_per_day o)) in H7.
  change (Db.attr Db.c_val_per_operation o) with (Some (Db.val_per_operation o)) in H8.
  injection Hid as Hid. injection H1 as H1. injection H2 as H2. injection H3 as H3.
  injection H4 as H4. injection H5 as H5. injection H6 as H6. injection H7 as H7.
  injection H8 as H8.
  unfold Db.to_dict, Db.shown, Db.display_names. cbn [map].
  by rewrite Hid, H1, H2, H3, H4, H5, H6, H7, H8.
Qed.

Lemma insert_objects_total (records : list Db.row) :
  exists objects,
    Db.insert_objects records = Ok objects /\ length objects = length records.
Proof.
  unfold Db.insert_objects. cbv zeta.
  induction records as [|record rest (objects & Hrest & Hlen)]; cbn [map Db.construct_all].
  - by exists [].
  - destruct (construct_ok (Db.mapped_fields record) Db.blank) as (o & -> & _).
    { apply (fold_NoDup record []). constructor. }
    { intros k [[]|[H _]]%fold_keys. exact H. }
    rewrite Hrest. exists (o :: objects). split; [done|]. simpl. by rewrite Hlen.
Qed.

(** X24. Every record with distinct keys becomes an object, and reading the
    objects back with [to_dict] shows, for each record, no [id] and under
    each of the eight display names the value the record had under that
    name, or [None] where it had none: the source text and any other key
    are dropped. *)
Theorem inserted_objects_read_back (records : list Db.row) :
  Forall (fun record => List.NoDup (map fst record)) records ->
  exists objects,
    Db.insert_objects records = Ok objects
    /\ map Db.to_dict objects = map Db.shown records.
Proof.
  unfold Db.insert_objects. cbv zeta.
  induction 1 as [|record rest Hnd _ (objects & Hrest & Hshow)]; simpl.
  - by exists [].
  - destruct (construct_mapped record Hnd) as (o & -> & Ho).
    rewrite Hrest. exists (o :: objects). split; [done|]. simpl. by rewrite Ho, Hshow.
Qed.

Lemma inserted_objects_read_back_witness :
  exists objects,
    Db.insert_objects [Db.row_of sowing] = Ok objects
    /\ map Db.to_dict objects = [Db.shown (Db.row_of sowing)].
Proof.
  apply (inserted_objects_read_back [Db.row_of sowing]).
  repeat constructor; vm_compute; intuition discriminate.
Defined.

(** X25. An update with everything [to_dict] shows of an object copies each of
    its eight columns and keeps the [id] of the record that is updated;
    with a record's own [to_dict] it changes nothing. *)
Theorem update_with_to_dict (record other : Db.OperationInfo) :
  Db.update_fields record (Db.to_dict other)
  = {| Db.id := Db.id record; Db.date := Db.date other; Db.unit := Db.unit other;
       Db.operation := Db.operation other; Db.cultura := Db.cultura other;
       Db.GA_per_day := Db.GA_per_day other;
       Db.GA_per_operation := Db.GA_per_operation other;
       Db.val_per_day := Db.val_per_day other;
       Db.val_per_operation := Db.val_per_operation other |}
  /\ Db.update_fields record (Db.to_dict record) = record.
Proof.
  split.
  - vm_compute. reflexivity.
  - destruct record. vm_compute. reflexivity.
Qed.

End DbFacts.

(** ** The buttons under an offered report *)

Module CommitFacts.

Import Commit Samples Examples MoreExamples.

Local Open Scope N_scope.

(** *** Reading back a date *)

Section Digits.

Variable digit : N -> option N.
Hypothesis Hdigit : reads_ascii digit.

Lemma scan_Y_agree (s : pystr) :
  Forall (fun c => c < 128) s -> scan_Y digit s = scan_Y ascii_digit s.
Proof.
  destruct s as [|a [|b [|c [|d r]]]]; try done. intros H.
  inversion H as [|? ? Ha H1]; subst. inversion H1 as [|? ? Hb H2]; subst.
  inversion H2 as [|? ? Hc H3]; subst. inversion H3 as [|? ? Hd _]; subst.
  unfold scan_Y. by rewrite (Hdigit a Ha), (Hdigit b Hb), (Hdigit c Hc), (Hdigit d Hd).
Qed.

Lemma from_one (n : nat) (P : Z -> Prop) :
  (forall k, (k < n)%nat -> P (Z.of_nat (S k))) ->
  forall z, (1 <= z <= Z.of_nat n)%Z -> P z.
Proof.
  intros H z Hz. replace z with (Z.of_nat (S (Z.to_nat (z - 1)))) by lia.
  apply H. lia.
Qed.

Local Ltac spell z :=
  let s := eval vm_compute in (ReportBuilder.zfill 2 (str_of_int z)) in
  change (ReportBuilder.zfill 2 (str_of_int z)) with s.

Lemma day_scanned (d : Z) (rest : pystr) :
  (1 <= d <= 31)%Z ->
  scan_d digit (ReportBuilder.zfill 2 (str_of_int d) ++ rest) = Some (Z.to_N d, rest).
Proof.
  revert d. apply (from_one 31). intros k Hk.
  do 31 (destruct k as [|k];
         [match goal with |- context [str_of_int ?z] => spell z end;
          cbn [app]; unfold scan_d;
          try match goal with |- context [digit ?b] =>
                rewrite (Hdigit b) by (vm_compute; reflexivity) end;
          vm_compute; reflexivity|]).
  lia.
Qed.

Lemma month_scanned (m : Z) (rest : pystr) :
  (1 <= m <= 12)%Z ->
  scan_m (ReportBuilder.zfill 2 (str_of_int m) ++ rest) = Some (Z.to_N m, rest).
Proof.
  revert m. apply (from_one 12). intros k Hk.
  do 12 (destruct k as [|k]; [vm_compute; reflexivity|]).
  lia.
Qed.

Lemma year_scanned (y : Z) :
  (1000 <= y <= 9999)%Z ->
  scan_Y digit (str_of_int y) = Some (Z.to_N y, []).
Proof.
  intros Hy.
  assert (forallb
            (fun k =>
               let s := str_of_int (Z.of_nat k) in
               forallb (fun c => c <? 128) s
               && bool_decide (scan_Y ascii_digit s = Some (N.of_nat k, [])))
            (seq (Z.to_nat 1000) (Z.to_nat 9000)) = true) as Hall
    by (vm_compute; reflexivity).
  rewrite forallb_forall in Hall. specialize (Hall (Z.to_nat y)).
  rewrite in_seq in Hall. cbv zeta in Hall.
  rewrite Z2Nat.id in Hall by lia.
  assert (Z.to_nat 1000 <= Z.to_nat y < Z.to_nat 1000 + Z.to_nat 9000)%nat as Hin by lia.
  apply Hall in Hin. apply andb_true_iff in Hin as [Hascii Hscan].
  apply bool_decide_eq_true in Hscan.
  rewrite scan_Y_agree.
  - rewrite Hscan. do 2 f_equal. lia.
  - rewrite forallb_forall in Hascii. apply List.Forall_forall.
    intros c Hc. by apply N.ltb_lt, Hascii.
Qed.

Lemma strptime_of_strftime (dt : date) :
  calendar_date dt -> strptime_dmy digit (ReportBuilder.strftime_dmy dt) = Ok dt.
Proof.
  intros (Hy & Hm & Hd).
  assert (Samples.days_in_month (year dt) (month dt) <= 31)%Z as Hdim.
  { unfold Samples.days_in_month. repeat case_match; lia. }
  unfold strptime_dmy, ReportBuilder.strftime_dmy.
  rewrite day_scanned by lia. cbn [app scan_dot].
  change (46 =? 46) with true. cbv iota.
  rewrite month_scanned by lia. cbn [app scan_dot].
  change (46 =? 46) with true. cbv iota.
  rewrite year_scanned by lia.
  rewrite !Z2N.id by lia.
  replace (1 <=? Z.to_N (year dt)) with true by (symmetry; apply N.leb_le; lia).
  replace (day dt <=? Samples.days_in_month (year dt) (month dt))%Z with true
    by (symmetry; apply Z.leb_le; lia).
  by destruct dt.
Qed.

End Digits.

(** X26. A date that the date pass of the pipeline has written as
    day.month.year is read back by [final_yes] as the same date, for every
    date of the calendar from the year 1000 on. *)
Theorem strptime_reads_strftime (digit : N -> option N) (dt : date) :
  reads_ascii digit ->
  calendar_date dt ->
  strptime_dmy digit (ReportBuilder.strftime_dmy dt) = Ok dt.
Proof. intros Hdigit. by apply strptime_of_strftime. Qed.

Lemma strptime_reads_strftime_witness :
  strptime_dmy ascii_digit (u "29.02.2024") = Ok {| year := 2024; month := 2; day := 29 |}.
Proof.
  apply (strptime_reads_strftime ascii_digit {| year := 2024; month := 2; day := 29 |}).
  - by intros c Hc.
  - vm_compute. intuition discriminate.
Defined.

(** *** A press of the final button *)

Lemma stamp_item_ok (digit : N -> option N) (item item' : Db.row) :
  stamp_item digit item = Ok item' -> stamped_from digit item item'.
Proof.
  unfold stamp_item.
  destruct (Db.get k_date item) as [[[| | | |s| |]|]|] eqn:Hget; try done.
  destruct (strptime_dmy digit s) as [dt|e] eqn:Hdt; [|done].
  intros [= <-]. by exists s, dt.
Qed.

Lemma stamp_loop_ok (digit : N -> option N) (l l' : list Db.row) :
  stamp_loop digit l = (l', None) -> Forall2 (stamped_from digit) l l'.
Proof.
  revert l'. induction l as [|item rest IH]; intros l'; cbn [stamp_loop].
  - intros [= <-]. constructor.
  - destruct (stamp_item digit item) as [item'|e] eqn:Hitem; [|done].
    destruct (stamp_loop digit rest) as [rest' x]. intros [= <- ->].
    constructor; [by apply stamp_item_ok | by apply IH].
Qed.

Lemma stamp_loop_all (digit : N -> option N) (l : list Db.row) :
  Forall (fun item => exists item', stamp_item digit item = Ok item') l ->
  exists l', stamp_loop digit l = (l', None).
Proof.
  induction 1 as [|item rest [item' Hitem] _ [rest' Hrest]]; cbn [stamp_loop].
  - by eexists.
  - rewrite Hitem, Hrest. by eexists.
Qed.

Lemma stamp_loop_raises (digit : N -> option N) (l : list Db.row) (item : Db.row)
    (e : exn) :
  In item l -> stamp_item digit item = Raise e ->
  exists l' e', stamp_loop digit l = (l', Some e').
Proof.
  induction l as [|x rest IH]; [done|]. intros [->|Hin] Hitem; cbn [stamp_loop].
  - rewrite Hitem. by eexists _, _.
  - destruct (stamp_item digit x) as [x'|e0]; [|by eexists _, _].
    destruct (IH Hin Hitem) as (rest' & e' & ->). by eexists _, _.
Qed.

Lemma button_callback_rows (digit : N -> option N) (st : state) (l : list Db.row) :
  selected st = Rows l ->
  button_callback digit final_yes st
  = match stamp_loop digit l with
    | (l', Some e) =>
        ({| last_report := Rows l';
            corrected_entries := match corrected_entries st with
                                 | Some (_ :: _) => Some l'
                                 | other => other
                                 end |}, Raised e)
    | (l', None) =>
        match Db.insert_objects l' with
        | Ok objects => ({| last_report := Rows l'; corrected_entries := None |},
                         Inserted objects)
        | Raise e =>
            ({| last_report := Rows l';
                corrected_entries := match corrected_entries st with
                                     | Some (_ :: _) => Some l'
                                     | other => other
                                     end |}, Raised e)
        end
    end.
Proof.
  unfold selected, button_callback.
  replace (str_eqb final_yes final_yes) with true by (symmetry; apply str_eqb_refl).
  destruct (corrected_entries st) as [[|e es]|]; intros Hsel.
  - rewrite Hsel. by destruct (stamp_loop digit l) as [l' [x|]].
  - injection Hsel as <-. by destruct (stamp_loop digit (e :: es)) as [l' [x|]].
  - rewrite Hsel. by destruct (stamp_loop digit l) as [l' [x|]].
Qed.

(** X27. A press of the final button inserts all the records of the report it
    works on, or none.  When the date of every record is a string that
    names a day, each record is handed over with that date as a
    [datetime] and nothing else changed; when the date of some record is
    missing, is not a string or names no day, the press raises and no
    record is handed over. *)
Theorem final_yes_all_or_nothing (digit : N -> option N) (st : state) (l : list Db.row) :
  selected st = Rows l ->
  (Forall (fun item => exists item', stamp_item digit item = Ok item') l ->
   exists l' objects,
     Forall2 (stamped_from digit) l l'
     /\ Db.insert_objects l' = Ok objects
     /\ length objects = length l
     /\ button_callback digit final_yes st
        = ({| last_report := Rows l'; corrected_entries := None |}, Inserted objects))
  /\ (forall item e,
         In item l -> stamp_item digit item = Raise e ->
         exists e', snd (button_callback digit final_yes st) = Raised e').
Proof.
  intros Hsel. rewrite (button_callback_rows digit st l Hsel). split.
  - intros Hall. destruct (stamp_loop_all digit l Hall) as [l' Hl'].
    pose proof (stamp_loop_ok digit l l' Hl') as Hst.
    destruct (DbFacts.insert_objects_total l') as (objects & Hobj & Hlen).
    exists l', objects. rewrite Hl', Hobj.
    split; [done|]. split; [done|]. split; [|done].
    rewrite Hlen. symmetry. by eapply Forall2_length.
  - intros item e Hin Hitem.
    destruct (stamp_loop_raises digit l item e Hin Hitem) as (l' & e' & ->).
    by exists e'.
Qed.

Lemma final_yes_all_or_nothing_witness :
  exists e',
    snd (button_callback ascii_digit final_yes
           {| last_report := Rows misdated_report; corrected_entries := None |})
    = Raised e'.
Proof.
  destruct (final_yes_all_or_nothing ascii_digit
              {| last_report := Rows misdated_report; corrected_entries := None |}
              misdated_report) as [_ H].
  - reflexivity.
  - apply (H (Db.row_of [(k_date, VStr (u "вчера")); (k_operation, VStr (u "Сев"))])
             ValueError).
    + right. left. reflexivity.
    + vm_compute. reflexivity.
Defined.

(** X28. Corrected entries that were offered and never confirmed stay with the
    conversation: when a later report has arrived and its final button is
    pressed, the records handed over are the corrected entries of the
    earlier session, and the later report is not inserted. *)
Theorem stale_corrections_are_committed (digit : N -> option N) (st : state)
    (old old' new : list Db.row) (objects : list Db.OperationInfo) :
  corrected_entries st = Some old ->
  old <> [] ->
  stamp_loop digit old = (old', None) ->
  Db.insert_objects old' = Ok objects ->
  button_callback digit final_yes (submit new st)
  = ({| last_report := Rows old'; corrected_entries := None |}, Inserted objects).
Proof.
  intros Hce Hne Hloop Hobj.
  rewrite (button_callback_rows digit (submit new st) old).
  - by rewrite Hloop, Hobj.
  - unfold selected, submit. cbn [corrected_entries]. rewrite Hce. by destruct old.
Qed.

Lemma stale_corrections_are_committed_witness :
  exists old' objects,
    button_callback ascii_digit final_yes
      (submit later_report
         {| last_report := Rows earlier_report;
            corrected_entries := Some earlier_report |})
    = ({| last_report := Rows old'; corrected_entries := None |}, Inserted objects)
    /\ map Db.date objects = [Db.Stamp {| year := 2024; month := 5; day := 1 |}].
Proof.
  eexists (fst (stamp_loop ascii_digit earlier_report)), _. split.
  - apply (stale_corrections_are_committed ascii_digit
             {| last_report := Rows earlier_report;
                corrected_entries := Some earlier_report |} earlier_report).
    + reflexivity.
    + discriminate.
    + vm_compute. reflexivity.
    + vm_compute. reflexivity.
  - reflexivity.
Defined.

Lemma stamped_again (digit : N -> option N) (item item' : Db.row) :
  stamped_from digit item item' -> stamp_item digit item' = Raise TypeError.
Proof.
  intros (s & dt & _ & _ & ->). unfold stamp_item. by rewrite DbFacts.get_set_eq.
Qed.

(** X29. Once a press of the final button has inserted a report that is not
    empty, a second press on the same state raises [TypeError] and hands
    nothing over: the dates of the report are no longer strings. *)
Theorem second_confirmation_raises (digit : N -> option N) (st st' : state)
    (objects : list Db.OperationInfo) :
  button_callback digit final_yes st = (st', Inserted objects) ->
  objects <> [] ->
  button_callback digit final_yes st' = (st', Raised TypeError).
Proof.
  intros Hfirst Hne.
  destruct (selected st) as [l|[|c s]] eqn:Hsel.
  - rewrite (button_callback_rows digit st l Hsel) in Hfirst.
    destruct (stamp_loop digit l) as [l' [x|]] eqn:Hloop; [done|].
    destruct (Db.insert_objects l') as [objs|e] eqn:Hobj; [|done].
    injection Hfirst as <- <-.
    destruct (DbFacts.insert_objects_total l') as (objs' & Hobj' & Hlen).
    rewrite Hobj in Hobj'. injection Hobj' as <-.
    apply stamp_loop_ok in Hloop.
    destruct Hloop as [|item item' rest rest' Hitem Hrest]; [by destruct objs|].
    rewrite (button_callback_rows digit _ (item' :: rest')) by done.
    cbn [stamp_loop corrected_entries]. by rewrite (stamped_again digit item item' Hitem).
  - exfalso. revert Hfirst. unfold button_callback, selected in *.
    replace (str_eqb final_yes final_yes) with true by (symmetry; apply str_eqb_refl).
    destruct (corrected_entries st) as [[|e es]|]; try done;
      rewrite Hsel; intros [= _ <-]; done.
  - exfalso. revert Hfirst. unfold button_callback, selected in *.
    replace (str_eqb final_yes final_yes) with true by (symmetry; apply str_eqb_refl).
    destruct (corrected_entries st) as [[|e es]|]; try done; by rewrite Hsel.
Qed.

Lemma second_confirmation_raises_witness :
  exists st',
    fst (button_callback ascii_digit final_yes
           {| last_report := Rows later_report; corrected_entries := None |}) = st'
    /\ button_callback ascii_digit final_yes st' = (st', Raised TypeError).
Proof.
  eexists. split; [reflexivity|].
  eapply (second_confirmation_raises ascii_digit
            {| last_report := Rows later_report; corrected_entries := None |}).
  - vm_compute. reflexivity.
  - discriminate.
Defined.

End CommitFacts.

(** ** The attachment of a message *)

Module AttachmentFacts.

Import Attachment.

Local Open Scope Z_scope.

(** X30. A file of ten million bytes or more is not read: the handler returns
    nothing, and [prompt] goes on and sends the worker a job whose table
    is the word None, followed by the text of the message.  A smaller
    file never takes this path. *)
Theorem oversized_attachment_sent_as_none (I : io) (a : attachment) (query_text : pystr)
    (file_size : Z) :
  get_file I = Ok (Some file_size) ->
  (10000000 <= file_size ->
   job_text I (Some a) query_text
   = Some (table_tag ++ [10%N] ++ none_text ++ [10%N; 10%N] ++ query_text))
  /\ (file_size < 10000000 -> manage_attachment I a <> Got None).
Proof.
  intros Hsize. unfold job_text, manage_attachment. cbv zeta. rewrite Hsize. split.
  - intros Hbig.
    assert (10 <= file_size / 1000000) as H%Z.leb_le
      by (apply Z.div_le_lower_bound; lia).
    by rewrite H.
  - intros Hsmall.
    assert (file_size / 1000000 < 10) as H%Z.leb_gt
      by (apply Z.div_lt_upper_bound; lia).
    rewrite H. destruct (download_to_drive I); [done|].
    by destruct (extract_file_content I _ _).
Qed.

Lemma oversized_attachment_sent_as_none_witness :
  job_text large_file (Some (Document (u "report.xlsx"))) (u "убрали 7 га")
  = Some (u "[ТАБЛИЦА]:
None

убрали 7 га").
Proof.
  destruct (oversized_attachment_sent_as_none large_file (Document (u "report.xlsx"))
              (u "убрали 7 га") 12000000 eq_refl) as [H _].
  rewrite H by lia. vm_compute. reflexivity.
Defined.

End AttachmentFacts.
